(** * vite-plugin-optimize-videos: the optimisation pipeline, embedded and verified

    The repository holds three variants of the same plugin file:

    - [DistSeq]  : src/unnamed/part_000 (scans the build output, one file
                   after the other, audio always removed);
    - [VideoDir] : src/src/index.ts, first document (scans [videoDir], one
                   file after the other, audio always removed);
    - [Batched]  : src/src/index.ts, second document (the [mute] and
                   [concurrency] options, files processed in chunks).

    [isVideoFile] and [findVideoFiles] are the same text in the three
    variants and are embedded once.

    Conventions of the embedding.
    - JavaScript strings are [string]s of ASCII characters; [toLowerCase]
      maps the letters A-Z and leaves every other character unchanged.
    - A JavaScript [number] that is used as a CRF value or as a count is an
      integer ([Z], [nat]).
    - An optional field ([quality?: number]) is an [option]; [None] stands
      for an absent field and for [undefined].
    - The state of a run holds the files (a finite map from paths to
      contents), the operations that the system refuses, and the lines
      written to the console; the directory tree that [readdir] walks is
      an inductive tree.
    - The external engine (fluent-ffmpeg) is a parameter [engine].
    - A call of an [async] function is followed operation by operation:
      between two [await]s of one call the other calls of the same chunk
      may run. *)

From Stdlib Require Import ZArith Ascii String List DecimalString Permutation Lia.
From stdpp Require Import gmap strings list.
Import ListNotations.
Open Scope string_scope.
Open Scope list_scope.

Set Warnings "-register-all".

(** ** JavaScript string operations *)

Module Js.

(** One character of [String.prototype.toLowerCase], on ASCII. *)
Definition lower_ascii (c : ascii) : ascii :=
  let n := nat_of_ascii c in
  if (65 <=? n)%nat && (n <=? 90)%nat then ascii_of_nat (n + 32) else c.

Fixpoint toLowerCase (s : string) : string :=
  match s with
  | EmptyString => EmptyString
  | String c s' => String (lower_ascii c) (toLowerCase s')
  end.

(** [s.startsWith(searchString)] *)
Definition startsWith (s searchString : string) : bool :=
  String.prefix searchString s.

(** [s.includes(searchString)]: [searchString] starts at some position
    of [s]. *)
Fixpoint includes (s searchString : string) : bool :=
  String.prefix searchString s
  || match s with
     | EmptyString => false
     | String _ s' => includes s' searchString
     end.

(** [String(n)] for an integer [n] that JavaScript writes in decimal
    notation, which it does below 1e21 in absolute value. *)
Definition String_of_number (n : Z) : string :=
  NilZero.string_of_int (Z.to_int n).

(** [a ?? b]: the left operand unless it is undefined. *)
Definition nullish {A : Type} (a : option A) (b : A) : A :=
  match a with
  | Some x => x
  | None => b
  end.

(** [a ?? b] where [b] may itself be undefined. *)
Definition nullish_opt {A : Type} (a b : option A) : option A :=
  match a with
  | Some x => Some x
  | None => b
  end.

(** [array.slice(start, end)] for [0 <= start <= end]. *)
Definition slice {A : Type} (l : list A) (start end_ : nat) : list A :=
  firstn (end_ - start) (skipn start l).

End Js.

(** ** Node's [path] module (POSIX flavour) *)

Module NodePath.

(** The variables of the loop of [path.extname]. *)
Record ExtnameState := {
  startDot : Z;
  startPart : Z;
  end_ : Z;
  matchedSlash : bool;
  preDotState : Z
}.

Definition extname_init : ExtnameState :=
  {| startDot := -1; startPart := 0; end_ := -1;
     matchedSlash := true; preDotState := 0 |}.

(** The loop [for (let i = path.length - 1; i >= 0; --i)] of
    [path.extname]; [n] is [i + 1]. *)
Fixpoint extname_loop (path : string) (n : nat) (st : ExtnameState)
  : ExtnameState :=
  match n with
  | O => st
  | S i =>
      match String.get i path with
      | None => st
      | Some code =>
          if Ascii.eqb code "/" then
            if negb (matchedSlash st) then
              {| startDot := startDot st; startPart := Z.of_nat i + 1;
                 end_ := end_ st; matchedSlash := matchedSlash st;
                 preDotState := preDotState st |}
            else extname_loop path i st
          else
            let st1 :=
              if (end_ st =? -1)%Z then
                {| startDot := startDot st; startPart := startPart st;
                   end_ := Z.of_nat i + 1; matchedSlash := false;
                   preDotState := preDotState st |}
              else st in
            let st2 :=
              if Ascii.eqb code "." then
                if (startDot st1 =? -1)%Z then
                  {| startDot := Z.of_nat i; startPart := startPart st1;
                     end_ := end_ st1; matchedSlash := matchedSlash st1;
                     preDotState := preDotState st1 |}
                else if negb (preDotState st1 =? 1)%Z then
                  {| startDot := startDot st1; startPart := startPart st1;
                     end_ := end_ st1; matchedSlash := matchedSlash st1;
                     preDotState := 1 |}
                else st1
              else if negb (startDot st1 =? -1)%Z then
                {| startDot := startDot st1; startPart := startPart st1;
                   end_ := end_ st1; matchedSlash := matchedSlash st1;
                   preDotState := -1 |}
              else st1 in
            extname_loop path i st2
      end
  end.

(** [path.extname(path)]: from the last dot of the last segment to its
    end; empty when there is no dot, when the segment starts with its
    only dot, or when the segment is [..]. *)
Definition extname (path : string) : string :=
  let st := extname_loop path (String.length path) extname_init in
  if (startDot st =? -1)%Z
     || (end_ st =? -1)%Z
     || (preDotState st =? 0)%Z
     || ((preDotState st =? 1)%Z
         && (startDot st =? end_ st - 1)%Z
         && (startDot st =? startPart st + 1)%Z)
  then EmptyString
  else substring (Z.to_nat (startDot st))
                 (Z.to_nat (end_ st - startDot st)) path.

(** The loop [for (let i = path.length - 1; i >= 0; --i)] of
    [path.basename] without suffix; [n] is [i + 1]. It returns [start]
    and [end]. *)
Fixpoint basename_loop (path : string) (n : nat) (end_ : Z) (matchedSlash : bool)
  : Z * Z :=
  match n with
  | O => (0%Z, end_)
  | S i =>
      match String.get i path with
      | None => (0%Z, end_)
      | Some code =>
          if Ascii.eqb code "/" then
            if negb matchedSlash then (Z.of_nat i + 1, end_)%Z
            else basename_loop path i end_ matchedSlash
          else if (end_ =? -1)%Z then
            basename_loop path i (Z.of_nat i + 1)%Z false
          else basename_loop path i end_ matchedSlash
      end
  end.

(** [path.basename(path)]: the last segment of the path, trailing
    separators left out. *)
Definition basename (path : string) : string :=
  let '(start, end_) := basename_loop path (String.length path) (-1) true in
  if (end_ =? -1)%Z then EmptyString
  else substring (Z.to_nat start) (Z.to_nat (end_ - start)) path.

(** [path.join(dir, name)] for a normalised [dir] and a directory entry
    name (no separator, neither [.] nor [..]). *)
Definition join (dir name : string) : string :=
  dir +:+ "/" +:+ name.

End NodePath.

(** ** Discovery: [isVideoFile] and [findVideoFiles] (all variants) *)

Definition VIDEO_EXTENSIONS : list string := [".mp4"; ".webm"; ".mov"; ".avi"].

(** [VIDEO_EXTENSIONS.includes(ext)] *)
Definition is_video_extension (ext : string) : bool :=
  existsb (String.eqb ext) VIDEO_EXTENSIONS.

(** The callback of [exclude.some] in [isVideoFile]. *)
Definition exclude_matches (ext fileName pattern : string) : bool :=
  if Js.startsWith pattern "." then String.eqb ext pattern
  else Js.includes fileName pattern.

Definition isVideoFile (fileName : string) (exclude : list string) : bool :=
  let ext := Js.toLowerCase (NodePath.extname fileName) in
  if negb (is_video_extension ext) then false
  else negb (existsb (exclude_matches ext fileName) exclude).

(** What [readdir(dir, { withFileTypes: true })] lists: regular files,
    directories with their own entries, and entries that are neither
    ([isFile()] and [isDirectory()] both false: links, sockets, ...). *)
Inductive Dirent : Type :=
| File (name : string)
| Directory (name : string) (entries : list Dirent)
| Other (name : string).

Definition dirent_name (entry : Dirent) : string :=
  match entry with
  | File name => name
  | Directory name _ => name
  | Other name => name
  end.

(** One iteration of the loop of [scanDirectory] over [entry], an entry of
    [currentDir]; [videoFiles] is the array the closure pushes to. A
    directory entry runs the loop over its own entries. *)
Fixpoint scanEntry (exclude : list string) (currentDir : string)
  (entry : Dirent) (videoFiles : list string) : list string :=
  let fullPath := NodePath.join currentDir (dirent_name entry) in
  match entry with
  | Directory _ entries =>
      fold_left (fun acc e => scanEntry exclude fullPath e acc)
                entries videoFiles
  | File name =>
      if isVideoFile name exclude then videoFiles ++ [fullPath]
      else videoFiles
  | Other _ => videoFiles
  end.

(** [scanDirectory(currentDir)]; [dir] is [None] when [currentDir] does
    not exist ([existsSync] false). *)
Definition scanDirectory (exclude : list string) (currentDir : string)
  (dir : option (list Dirent)) (videoFiles : list string) : list string :=
  match dir with
  | None => videoFiles
  | Some entries =>
      fold_left (fun acc e => scanEntry exclude currentDir e acc)
                entries videoFiles
  end.

Definition findVideoFiles (dir : string) (tree : option (list Dirent))
  (exclude : list string) : list string :=
  scanDirectory exclude dir tree [].

(** ** The state of a run, and asynchronous code as an error-and-state monad *)

(** The result of an awaited promise: fulfilled with a value, or rejected
    with an error (its message). *)
Inductive Result (A : Type) : Type :=
| Ok (value : A)
| Err (message : string).
Arguments Ok {A} value.
Arguments Err {A} message.

(** What [optimizeVideo] resolves to. *)
Record Sizes := {
  originalSize : nat;
  optimizedSize : nat
}.

(** An operation of [fs/promises] that the system may refuse on a path
    although the path resolves: the removal of a directory or of a file
    that is busy or protected, the reading of a directory or of a file
    that may not be read, a write without permission or without space
    left. *)
Inductive Operation : Type :=
| Unlink (path : string)
| ReadFile (path : string)
| WriteFile (path data : string).

(** A line that the code writes to the console about one file, recorded
    by its kind and by the values it shows: [Optimizing] for the line that
    announces the file, [Optimized] for the success line, which shows the
    two sizes in MB and the reduction computed from them, and
    [ErrorOptimizing] for the error line with the message of the error.
    The wording, the colours and the rounding of the numbers are not
    recorded, and neither are the lines about the run as a whole. *)
Inductive Line : Type :=
| Optimizing (fileName : string)
| Optimized (fileName : string) (sizes : Sizes)
| ErrorOptimizing (fileName message : string).

(** The state that the code acts on. [files] maps the paths that resolve
    ([existsSync] is true, [stat] succeeds) to what is stored there;
    [refused] tells which operations the system refuses, and with which
    error; [console] holds the lines written so far, [console.log] and
    [console.error] taken together. *)
Record FileSystem := {
  files : gmap string string;
  refused : Operation -> option string;
  console : list Line
}.

(** [fs !! path], [<[path := data]> fs], [delete path fs] and the empty
    store act on the files. *)
#[global] Instance FileSystem_lookup : Lookup string string FileSystem :=
  fun path fs => files fs !! path.

#[global] Instance FileSystem_insert : Insert string string FileSystem :=
  fun path data fs =>
    {| files := <[path := data]> (files fs);
       refused := refused fs;
       console := console fs |}.

#[global] Instance FileSystem_delete : Delete string FileSystem :=
  fun path fs =>
    {| files := delete path (files fs);
       refused := refused fs;
       console := console fs |}.

#[global] Instance FileSystem_empty : Empty FileSystem :=
  {| files := ∅; refused := fun _ => None; console := [] |}.

(** An [async] computation: it reads and updates the state and is
    fulfilled or rejected. *)
Definition IO (A : Type) : Type := FileSystem -> Result A * FileSystem.

Definition ret {A : Type} (a : A) : IO A :=
  fun fs => (Ok a, fs).

Definition bind {A B : Type} (m : IO A) (k : A -> IO B) : IO B :=
  fun fs =>
    match m fs with
    | (Ok a, fs') => k a fs'
    | (Err e, fs') => (Err e, fs')
    end.

(** [try { body } catch (error) { handler }] *)
Definition try_catch {A : Type} (body : IO A) (handler : string -> IO A) : IO A :=
  fun fs =>
    match body fs with
    | (Ok a, fs') => (Ok a, fs')
    | (Err e, fs') => handler e fs'
    end.

Declare Scope io_scope.
Delimit Scope io_scope with io.
Notation "'await' x <- m ;; k" := (bind m (fun x => k))
  (at level 10, x name, m at level 99, k at level 200) : io_scope.
Notation "'perform' m ;; k" := (bind m (fun _ => k))
  (at level 10, m at level 99, k at level 200) : io_scope.

(** [console.log] and [console.error] *)
Module Console.

Definition write (line : Line) (fs : FileSystem) : FileSystem :=
  {| files := files fs; refused := refused fs; console := console fs ++ [line] |}.

Definition log (line : Line) : IO unit :=
  fun fs => (Ok tt, write line fs).

Definition error (line : Line) : IO unit :=
  fun fs => (Ok tt, write line fs).

End Console.

(** [fs/promises] and [existsSync]. [stat] fails exactly on a path that
    does not resolve, which is when [existsSync] is false. [unlink] and
    [readFile] fail on such a path and when the system refuses them;
    [writeFile] fails when the system refuses it. An operation that fails
    leaves the files as they are. *)
Module Fs.

Definition ENOENT : string := "ENOENT: no such file or directory".

(** [(await stat(path)).size] *)
Definition stat (path : string) : IO nat :=
  fun fs =>
    match fs !! path with
    | Some data => (Ok (String.length data), fs)
    | None => (Err ENOENT, fs)
    end.

Definition unlink (path : string) : IO unit :=
  fun fs =>
    match fs !! path with
    | Some _ =>
        match refused fs (Unlink path) with
        | None => (Ok tt, delete path fs)
        | Some e => (Err e, fs)
        end
    | None => (Err ENOENT, fs)
    end.

Definition readFile (path : string) : IO string :=
  fun fs =>
    match fs !! path with
    | Some data =>
        match refused fs (ReadFile path) with
        | None => (Ok data, fs)
        | Some e => (Err e, fs)
        end
    | None => (Err ENOENT, fs)
    end.

Definition writeFile (path data : string) : IO unit :=
  fun fs =>
    match refused fs (WriteFile path data) with
    | None => (Ok tt, <[path := data]> fs)
    | Some e => (Err e, fs)
    end.

Definition existsSync (path : string) : IO bool :=
  fun fs => (Ok (bool_decide (is_Some (fs !! path))), fs).

End Fs.

(** ** The external engine *)

Module Ffmpeg.

(** What the builder chain
    [ffmpeg(input).videoCodec(..).format(..).outputOptions(..).output(..)]
    hands to the engine; [noAudio] is true when [.noAudio()] is in the
    chain. *)
Record Command := {
  input : string;
  videoCodec : string;
  noAudio : bool;
  format : string;
  outputOptions : list string;
  output : string
}.

(** A run of the engine: fulfilled on the event [end], rejected with the
    error on the event [error]. *)
Definition Engine : Type := Command -> IO unit.

End Ffmpeg.

(** What [getFormatConfig] returns. *)
Module FormatConfig.
Record t := {
  codec : string;
  format : string;
  options : list string
}.
End FormatConfig.

(** ** Variant [DistSeq]: src/unnamed/part_000 *)

Module DistSeq.

Module VideoFormatOptions.
Record t := { quality : option Z; preset : option string }.
End VideoFormatOptions.

Module OptimizeVideosOptions.
Record t := {
  exclude : option (list string);
  quality : option Z;
  preset : option string;
  dot_mp4 : option VideoFormatOptions.t;
  dot_webm : option VideoFormatOptions.t;
  dot_mov : option VideoFormatOptions.t;
  dot_avi : option VideoFormatOptions.t
}.
End OptimizeVideosOptions.

(** The object [getVideoOptions] returns. *)
Module VideoOptions.
Record t := { quality : Z; preset : string }.
End VideoOptions.

(** [options[lower]] read as [VideoFormatOptions | undefined]. A key
    that is not one of the four extensions yields no value or a value
    without the fields read afterwards, which is [None] here. *)
Definition format_options (options : OptimizeVideosOptions.t) (lower : string)
  : option VideoFormatOptions.t :=
  if String.eqb lower ".mp4" then OptimizeVideosOptions.dot_mp4 options
  else if String.eqb lower ".webm" then OptimizeVideosOptions.dot_webm options
  else if String.eqb lower ".mov" then OptimizeVideosOptions.dot_mov options
  else if String.eqb lower ".avi" then OptimizeVideosOptions.dot_avi options
  else None.

Definition getVideoOptions (ext : string) (options : OptimizeVideosOptions.t)
  : VideoOptions.t :=
  let lower := Js.toLowerCase ext in
  let formatOptions := format_options options lower in
  {| VideoOptions.quality :=
       Js.nullish
         (Js.nullish_opt (formatOptions ≫= VideoFormatOptions.quality)
                         (OptimizeVideosOptions.quality options))
         18%Z;
     VideoOptions.preset :=
       Js.nullish
         (Js.nullish_opt (formatOptions ≫= VideoFormatOptions.preset)
                         (OptimizeVideosOptions.preset options))
         "medium" |}.

Definition getFormatConfig (ext : string) (opts : VideoOptions.t) : FormatConfig.t :=
  let lower := Js.toLowerCase ext in
  if String.eqb lower ".mp4" then
    {| FormatConfig.codec := "libx264";
       FormatConfig.format := "mp4";
       FormatConfig.options :=
         ["-crf"; Js.String_of_number (VideoOptions.quality opts);
          "-preset"; VideoOptions.preset opts;
          "-profile:v"; "high";
          "-level"; "4.0";
          "-pix_fmt"; "yuv420p";
          "-movflags"; "+faststart";
          "-y"] |}
  else if String.eqb lower ".webm" then
    let cpuUsed :=
      if String.eqb (VideoOptions.preset opts) "slow" then "0"
      else if String.eqb (VideoOptions.preset opts) "medium" then "2"
      else "4" in
    {| FormatConfig.codec := "libvpx-vp9";
       FormatConfig.format := "webm";
       FormatConfig.options :=
         ["-crf"; Js.String_of_number (VideoOptions.quality opts);
          "-b:v"; "0";
          "-pix_fmt"; "yuv420p";
          "-cpu-used"; cpuUsed;
          "-y"] |}
  else if String.eqb lower ".mov" then
    {| FormatConfig.codec := "libx264";
       FormatConfig.format := "mov";
       FormatConfig.options :=
         ["-crf"; Js.String_of_number (VideoOptions.quality opts);
          "-preset"; VideoOptions.preset opts;
          "-pix_fmt"; "yuv420p";
          "-y"] |}
  else
    {| FormatConfig.codec := "libx264";
       FormatConfig.format := "avi";
       FormatConfig.options :=
         ["-crf"; Js.String_of_number (VideoOptions.quality opts);
          "-preset"; VideoOptions.preset opts;
          "-pix_fmt"; "yuv420p";
          "-y"] |}.

(** The command [optimizeVideo] builds: [.noAudio()] is always in the
    chain. *)
Definition optimizeVideo_command (inputPath outputPath : string)
  (options : VideoOptions.t) : Ffmpeg.Command :=
  let ext := Js.toLowerCase (NodePath.extname inputPath) in
  let cfg := getFormatConfig ext options in
  {| Ffmpeg.input := inputPath;
     Ffmpeg.videoCodec := FormatConfig.codec cfg;
     Ffmpeg.noAudio := true;
     Ffmpeg.format := FormatConfig.format cfg;
     Ffmpeg.outputOptions := FormatConfig.options cfg;
     Ffmpeg.output := outputPath |}.

Definition optimizeVideo (engine : Ffmpeg.Engine) (inputPath outputPath : string)
  (options : VideoOptions.t) : IO Sizes :=
  (await originalSize <- Fs.stat inputPath ;;
   perform engine (optimizeVideo_command inputPath outputPath options) ;;
   await optimizedSize <- Fs.stat outputPath ;;
   ret {| originalSize := originalSize; optimizedSize := optimizedSize |})%io.


(** How one iteration of the loop of [closeBundle] ends when it does not
    throw: at the end of the [try] block, with the sizes that
    [optimizeVideo] returned, or at the end of the [catch] block, with the
    message of the error caught. *)
Inductive Outcome : Type :=
| Done (sizes : Sizes)
| Failed (message : string).

(** The [try] block of the loop of [closeBundle]: the success line is
    written before the replacement. *)
Definition closeBundle_try (engine : Ffmpeg.Engine) (options : OptimizeVideosOptions.t)
  (videoFile fileName ext tempOutputPath : string) : IO Outcome :=
  (perform Console.log (Optimizing fileName) ;;
   let videoOptions := getVideoOptions ext options in
   await sizes <- optimizeVideo engine videoFile tempOutputPath videoOptions ;;
   perform Console.log (Optimized fileName sizes) ;;
   perform Fs.unlink videoFile ;;
   await data <- Fs.readFile tempOutputPath ;;
   perform Fs.writeFile videoFile data ;;
   perform Fs.unlink tempOutputPath ;;
   ret (Done sizes))%io.

(** The [catch] block of the loop of [closeBundle]; the removal it
    awaits may itself fail, and the block then throws. *)
Definition closeBundle_catch (fileName tempOutputPath error : string) : IO Outcome :=
  (perform Console.error (ErrorOptimizing fileName error) ;;
   await present <- Fs.existsSync tempOutputPath ;;
   if (present : bool) then
     perform Fs.unlink tempOutputPath ;;
     ret (Failed error)
   else ret (Failed error))%io.

(** One iteration of [for (const videoFile of videoFiles)]. *)
Definition closeBundle_file (engine : Ffmpeg.Engine) (options : OptimizeVideosOptions.t)
  (videoFile : string) : IO Outcome :=
  let fileName := NodePath.basename videoFile in
  let ext := Js.toLowerCase (NodePath.extname videoFile) in
  let tempOutputPath := videoFile +:+ ".tmp" +:+ ext in
  try_catch
    (closeBundle_try engine options videoFile fileName ext tempOutputPath)
    (closeBundle_catch fileName tempOutputPath).

(** The loop [for (const videoFile of videoFiles)], one file after the
    other; it is fulfilled with the way each iteration ended, in order,
    and rejected as soon as an iteration throws. *)
Fixpoint closeBundle_loop (engine : Ffmpeg.Engine) (options : OptimizeVideosOptions.t)
  (videoFiles : list string) : IO (list Outcome) :=
  match videoFiles with
  | [] => ret []
  | videoFile :: rest =>
      (await outcome <- closeBundle_file engine options videoFile ;;
       await outcomes <- closeBundle_loop engine options rest ;;
       ret (outcome :: outcomes))%io
  end.

(** [const { exclude = [] } = options] *)
Definition exclude_of (options : OptimizeVideosOptions.t) : list string :=
  default [] (OptimizeVideosOptions.exclude options).

(** [closeBundle()], [tree] being what lies at [distDir]: nothing is
    done when the directory does not exist or holds no candidate. *)
Definition closeBundle (engine : Ffmpeg.Engine) (options : OptimizeVideosOptions.t)
  (distDir : string) (tree : option (list Dirent)) : IO (list Outcome) :=
  match tree with
  | None => ret []
  | Some _ =>
      let videoFiles := findVideoFiles distDir tree (exclude_of options) in
      if (length videoFiles =? 0)%nat then ret []
      else closeBundle_loop engine options videoFiles
  end.

End DistSeq.
(** ** Variant [VideoDir]: src/src/index.ts, first document *)

Module VideoDir.

Module VideoFormatOptions.
Record t := { quality : option Z; preset : option string }.
End VideoFormatOptions.

Module OptimizeVideosOptions.
Record t := {
  exclude : option (list string);
  quality : option Z;
  preset : option string;
  videoDir : option string;
  dot_mp4 : option VideoFormatOptions.t;
  dot_webm : option VideoFormatOptions.t;
  dot_mov : option VideoFormatOptions.t;
  dot_avi : option VideoFormatOptions.t
}.
End OptimizeVideosOptions.

(** The object [getVideoOptions] returns. *)
Module VideoOptions.
Record t := { quality : Z; preset : string }.
End VideoOptions.

(** [options[lower]] read as [VideoFormatOptions | undefined]. A key
    that is not one of the four extensions yields no value or a value
    without the fields read afterwards, which is [None] here. *)
Definition format_options (options : OptimizeVideosOptions.t) (lower : string)
  : option VideoFormatOptions.t :=
  if String.eqb lower ".mp4" then OptimizeVideosOptions.dot_mp4 options
  else if String.eqb lower ".webm" then OptimizeVideosOptions.dot_webm options
  else if String.eqb lower ".mov" then OptimizeVideosOptions.dot_mov options
  else if String.eqb lower ".avi" then OptimizeVideosOptions.dot_avi options
  else None.

Definition getVideoOptions (ext : string) (options : OptimizeVideosOptions.t)
  : VideoOptions.t :=
  let lower := Js.toLowerCase ext in
  let formatOptions := format_options options lower in
  {| VideoOptions.quality :=
       Js.nullish
         (Js.nullish_opt (formatOptions ≫= VideoFormatOptions.quality)
                         (OptimizeVideosOptions.quality options))
         18%Z;
     VideoOptions.preset :=
       Js.nullish
         (Js.nullish_opt (formatOptions ≫= VideoFormatOptions.preset)
                         (OptimizeVideosOptions.preset options))
         "medium" |}.

Definition getFormatConfig (ext : string) (opts : VideoOptions.t) : FormatConfig.t :=
  let lower := Js.toLowerCase ext in
  if String.eqb lower ".mp4" then
    {| FormatConfig.codec := "libx264";
       FormatConfig.format := "mp4";
       FormatConfig.options :=
         ["-crf"; Js.String_of_number (VideoOptions.quality opts);
          "-preset"; VideoOptions.preset opts;
          "-profile:v"; "high";
          "-level"; "4.0";
          "-pix_fmt"; "yuv420p";
          "-movflags"; "+faststart";
          "-y"] |}
  else if String.eqb lower ".webm" then
    let cpuUsed :=
      if String.eqb (VideoOptions.preset opts) "slow" then "0"
      else if String.eqb (VideoOptions.preset opts) "medium" then "2"
      else "4" in
    {| FormatConfig.codec := "libvpx-vp9";
       FormatConfig.format := "webm";
       FormatConfig.options :=
         ["-crf"; Js.String_of_number (VideoOptions.quality opts);
          "-b:v"; "0";
          "-pix_fmt"; "yuv420p";
          "-cpu-used"; cpuUsed;
          "-y"] |}
  else if String.eqb lower ".mov" then
    {| FormatConfig.codec := "libx264";
       FormatConfig.format := "mov";
       FormatConfig.options :=
         ["-crf"; Js.String_of_number (VideoOptions.quality opts);
          "-preset"; VideoOptions.preset opts;
          "-pix_fmt"; "yuv420p";
          "-y"] |}
  else
    {| FormatConfig.codec := "libx264";
       FormatConfig.format := "avi";
       FormatConfig.options :=
         ["-crf"; Js.String_of_number (VideoOptions.quality opts);
          "-preset"; VideoOptions.preset opts;
          "-pix_fmt"; "yuv420p";
          "-y"] |}.

(** The command [optimizeVideo] builds: [.noAudio()] is always in the
    chain. *)
Definition optimizeVideo_command (inputPath outputPath : string)
  (options : VideoOptions.t) : Ffmpeg.Command :=
  let ext := Js.toLowerCase (NodePath.extname inputPath) in
  let cfg := getFormatConfig ext options in
  {| Ffmpeg.input := inputPath;
     Ffmpeg.videoCodec := FormatConfig.codec cfg;
     Ffmpeg.noAudio := true;
     Ffmpeg.format := FormatConfig.format cfg;
     Ffmpeg.outputOptions := FormatConfig.options cfg;
     Ffmpeg.output := outputPath |}.

Definition optimizeVideo (engine : Ffmpeg.Engine) (inputPath outputPath : string)
  (options : VideoOptions.t) : IO Sizes :=
  (await originalSize <- Fs.stat inputPath ;;
   perform engine (optimizeVideo_command inputPath outputPath options) ;;
   await optimizedSize <- Fs.stat outputPath ;;
   ret {| originalSize := originalSize; optimizedSize := optimizedSize |})%io.


(** How one iteration of the loop of [closeBundle] ends when it does not
    throw: at the end of the [try] block, with the sizes that
    [optimizeVideo] returned, or at the end of the [catch] block, with the
    message of the error caught. *)
Inductive Outcome : Type :=
| Done (sizes : Sizes)
| Failed (message : string).

(** The [try] block of the loop of [closeBundle]: the success line is
    written before the replacement. *)
Definition closeBundle_try (engine : Ffmpeg.Engine) (options : OptimizeVideosOptions.t)
  (videoFile fileName ext tempOutputPath : string) : IO Outcome :=
  (perform Console.log (Optimizing fileName) ;;
   let videoOptions := getVideoOptions ext options in
   await sizes <- optimizeVideo engine videoFile tempOutputPath videoOptions ;;
   perform Console.log (Optimized fileName sizes) ;;
   perform Fs.unlink videoFile ;;
   await data <- Fs.readFile tempOutputPath ;;
   perform Fs.writeFile videoFile data ;;
   perform Fs.unlink tempOutputPath ;;
   ret (Done sizes))%io.

(** The [catch] block of the loop of [closeBundle]; the removal it
    awaits may itself fail, and the block then throws. *)
Definition closeBundle_catch (fileName tempOutputPath error : string) : IO Outcome :=
  (perform Console.error (ErrorOptimizing fileName error) ;;
   await present <- Fs.existsSync tempOutputPath ;;
   if (present : bool) then
     perform Fs.unlink tempOutputPath ;;
     ret (Failed error)
   else ret (Failed error))%io.

(** One iteration of [for (const videoFile of videoFiles)]. *)
Definition closeBundle_file (engine : Ffmpeg.Engine) (options : OptimizeVideosOptions.t)
  (videoFile : string) : IO Outcome :=
  let fileName := NodePath.basename videoFile in
  let ext := Js.toLowerCase (NodePath.extname videoFile) in
  let tempOutputPath := videoFile +:+ ".tmp" +:+ ext in
  try_catch
    (closeBundle_try engine options videoFile fileName ext tempOutputPath)
    (closeBundle_catch fileName tempOutputPath).

(** The loop [for (const videoFile of videoFiles)], one file after the
    other; it is fulfilled with the way each iteration ended, in order,
    and rejected as soon as an iteration throws. *)
Fixpoint closeBundle_loop (engine : Ffmpeg.Engine) (options : OptimizeVideosOptions.t)
  (videoFiles : list string) : IO (list Outcome) :=
  match videoFiles with
  | [] => ret []
  | videoFile :: rest =>
      (await outcome <- closeBundle_file engine options videoFile ;;
       await outcomes <- closeBundle_loop engine options rest ;;
       ret (outcome :: outcomes))%io
  end.

(** [const { exclude = [] } = options] *)
Definition exclude_of (options : OptimizeVideosOptions.t) : list string :=
  default [] (OptimizeVideosOptions.exclude options).

(** [closeBundle()], [tree] being what lies at [videoDirectory]: nothing is
    done when the directory does not exist or holds no candidate. *)
Definition closeBundle (engine : Ffmpeg.Engine) (options : OptimizeVideosOptions.t)
  (videoDirectory : string) (tree : option (list Dirent)) : IO (list Outcome) :=
  match tree with
  | None => ret []
  | Some _ =>
      let videoFiles := findVideoFiles videoDirectory tree (exclude_of options) in
      if (length videoFiles =? 0)%nat then ret []
      else closeBundle_loop engine options videoFiles
  end.

End VideoDir.

(** ** Variant [Batched]: src/src/index.ts, second document *)

Module Batched.

Module VideoFormatOptions.
Record t := {
  quality : option Z;
  preset : option string;
  mute : option bool
}.
End VideoFormatOptions.

Module OptimizeVideosOptions.
Record t := {
  exclude : option (list string);
  quality : option Z;
  preset : option string;
  mute : option bool;
  concurrency : option nat;
  dot_mp4 : option VideoFormatOptions.t;
  dot_webm : option VideoFormatOptions.t;
  dot_mov : option VideoFormatOptions.t;
  dot_avi : option VideoFormatOptions.t
}.
End OptimizeVideosOptions.

(** The object [getVideoOptions] returns. *)
Module VideoOptions.
Record t := { quality : Z; preset : string; mute : bool }.
End VideoOptions.

(** [options[lower]] read as [VideoFormatOptions | undefined]. A key
    that is not one of the four extensions yields no value or a value
    without the fields read afterwards, which is [None] here. *)
Definition format_options (options : OptimizeVideosOptions.t) (lower : string)
  : option VideoFormatOptions.t :=
  if String.eqb lower ".mp4" then OptimizeVideosOptions.dot_mp4 options
  else if String.eqb lower ".webm" then OptimizeVideosOptions.dot_webm options
  else if String.eqb lower ".mov" then OptimizeVideosOptions.dot_mov options
  else if String.eqb lower ".avi" then OptimizeVideosOptions.dot_avi options
  else None.

Definition getVideoOptions (ext : string) (options : OptimizeVideosOptions.t)
  : VideoOptions.t :=
  let lower := Js.toLowerCase ext in
  let formatOptions := format_options options lower in
  {| VideoOptions.quality :=
       Js.nullish
         (Js.nullish_opt (formatOptions ≫= VideoFormatOptions.quality)
                         (OptimizeVideosOptions.quality options))
         18%Z;
     VideoOptions.preset :=
       Js.nullish
         (Js.nullish_opt (formatOptions ≫= VideoFormatOptions.preset)
                         (OptimizeVideosOptions.preset options))
         "medium";
     VideoOptions.mute :=
       Js.nullish
         (Js.nullish_opt (formatOptions ≫= VideoFormatOptions.mute)
                         (OptimizeVideosOptions.mute options))
         false |}.

(** The block [if (opts.mute) { }] of the source holds comments only. *)
Definition getFormatConfig (ext : string) (opts : VideoOptions.t) : FormatConfig.t :=
  let lower := Js.toLowerCase ext in
  let optionsCommon :=
    ["-crf"; Js.String_of_number (VideoOptions.quality opts);
     "-preset"; VideoOptions.preset opts;
     "-pix_fmt"; "yuv420p";
     "-y"] in
  let codec := "libx264" in
  let format := "mp4" in
  if String.eqb lower ".webm" then
    let codec := "libvpx-vp9" in
    let format := "webm" in
    let cpuUsed :=
      if String.eqb (VideoOptions.preset opts) "slow" then "0"
      else if String.eqb (VideoOptions.preset opts) "medium" then "2"
      else "4" in
    {| FormatConfig.codec := codec;
       FormatConfig.format := format;
       FormatConfig.options :=
         ["-crf"; Js.String_of_number (VideoOptions.quality opts);
          "-b:v"; "0";
          "-pix_fmt"; "yuv420p";
          "-cpu-used"; cpuUsed;
          "-y"] |}
  else
    let '(format, optionsCommon) :=
      if String.eqb lower ".mov" then ("mov", optionsCommon)
      else if String.eqb lower ".avi" then ("avi", optionsCommon)
      else
        (format,
         optionsCommon
           ++ ["-profile:v"; "high";
               "-level"; "4.0";
               "-movflags"; "+faststart"]) in
    {| FormatConfig.codec := codec;
       FormatConfig.format := format;
       FormatConfig.options := optionsCommon |}.

(** The command [optimizeVideo] builds: [.noAudio()] is added to the
    chain when [options.mute] is true. *)
Definition optimizeVideo_command (inputPath outputPath : string)
  (options : VideoOptions.t) : Ffmpeg.Command :=
  let ext := Js.toLowerCase (NodePath.extname inputPath) in
  let cfg := getFormatConfig ext options in
  {| Ffmpeg.input := inputPath;
     Ffmpeg.videoCodec := FormatConfig.codec cfg;
     Ffmpeg.noAudio := if VideoOptions.mute options then true else false;
     Ffmpeg.format := FormatConfig.format cfg;
     Ffmpeg.outputOptions := FormatConfig.options cfg;
     Ffmpeg.output := outputPath |}.

Definition optimizeVideo (engine : Ffmpeg.Engine) (inputPath outputPath : string)
  (options : VideoOptions.t) : IO Sizes :=
  (await originalSize <- Fs.stat inputPath ;;
   perform engine (optimizeVideo_command inputPath outputPath options) ;;
   await optimizedSize <- Fs.stat outputPath ;;
   ret {| originalSize := originalSize; optimizedSize := optimizedSize |})%io.

(** How a call of [processFile] ends when its promise is fulfilled: at
    the end of the [try] block, with the sizes that [optimizeVideo]
    returned, or at the end of the [catch] block, with the message of the
    error caught. *)
Inductive Outcome : Type :=
| Done (sizes : Sizes)
| Failed (message : string).

(** [`${videoFile}.tmp${ext}`] *)
Definition tempOutputPath_of (videoFile : string) : string :=
  let ext := Js.toLowerCase (NodePath.extname videoFile) in
  videoFile +:+ ".tmp" +:+ ext.

(** The [catch] block of [processFile]; the removal it awaits may itself
    fail, and the promise of [processFile] is then rejected. *)
Definition processFile_catch (fileName tempOutputPath error : string) : IO Outcome :=
  (perform Console.error (ErrorOptimizing fileName error) ;;
   await present <- Fs.existsSync tempOutputPath ;;
   if (present : bool) then
     perform Fs.unlink tempOutputPath ;;
     ret (Failed error)
   else ret (Failed error))%io.

(** The [try] block of [processFile]: the success line is written before
    the replacement. *)
Definition processFile_try (engine : Ffmpeg.Engine) (options : OptimizeVideosOptions.t)
  (videoFile fileName ext tempOutputPath : string) : IO Outcome :=
  (perform Console.log (Optimizing fileName) ;;
   let videoOptions := getVideoOptions ext options in
   await sizes <- optimizeVideo engine videoFile tempOutputPath videoOptions ;;
   perform Console.log (Optimized fileName sizes) ;;
   perform Fs.unlink videoFile ;;
   await data <- Fs.readFile tempOutputPath ;;
   perform Fs.writeFile videoFile data ;;
   perform Fs.unlink tempOutputPath ;;
   ret (Done sizes))%io.

(** [processFile(videoFile)] when no other call runs between its
    operations. The promise is fulfilled with the way the call ended, or
    rejected when the [catch] block itself throws. *)
Definition processFile (engine : Ffmpeg.Engine) (options : OptimizeVideosOptions.t)
  (videoFile : string) : IO Outcome :=
  let fileName := NodePath.basename videoFile in
  let ext := Js.toLowerCase (NodePath.extname videoFile) in
  let tempOutputPath := videoFile +:+ ".tmp" +:+ ext in
  try_catch
    (processFile_try engine options videoFile fileName ext tempOutputPath)
    (processFile_catch fileName tempOutputPath).

(** *** The chunks of [closeBundle] *)

(** [const { exclude = [], concurrency = 4 } = options] *)
Definition exclude_of (options : OptimizeVideosOptions.t) : list string :=
  default [] (OptimizeVideosOptions.exclude options).

Definition concurrency_of (options : OptimizeVideosOptions.t) : nat :=
  default 4 (OptimizeVideosOptions.concurrency options).

(** The loop
    [for (let i = 0; i < videoFiles.length; i += concurrency)
       chunks.push(videoFiles.slice(i, i + concurrency))]
    from the value [i] of its counter, with the array [chunks] built so
    far. [fuel] bounds the number of tests of the loop condition; [None]
    when it does not suffice. *)
Fixpoint chunk_loop (fuel : nat) (videoFiles : list string) (concurrency : nat)
  (i : nat) (chunks : list (list string)) : option (list (list string)) :=
  match fuel with
  | O => None
  | S fuel' =>
      if (i <? length videoFiles)%nat then
        chunk_loop fuel' videoFiles concurrency (i + concurrency)
                   (chunks ++ [Js.slice videoFiles i (i + concurrency)])
      else Some chunks
  end.

Definition chunks_of (fuel : nat) (videoFiles : list string) (concurrency : nat)
  : option (list (list string)) :=
  chunk_loop fuel videoFiles concurrency 0 [].

(** The chunks that [closeBundle] goes on to process, [tree] being what
    lies at [distDir]: none when [distDir] does not exist and none when
    it holds no candidate. *)
Definition closeBundle_chunks (fuel : nat) (options : OptimizeVideosOptions.t)
  (distDir : string) (tree : option (list Dirent)) : option (list (list string)) :=
  match tree with
  | None => Some []
  | Some _ =>
      let videoFiles := findVideoFiles distDir tree (exclude_of options) in
      if (length videoFiles =? 0)%nat then Some []
      else chunks_of fuel videoFiles (concurrency_of options)
  end.

(** *** One file, operation by operation *)

(** The operation that a call of [processFile] is waiting for. The
    stages that carry [sizes] come after the success line; in
    [AwaitUnlinkCatch] the call is in its [catch] block, the error line
    written, and waits for the removal of the temporary file. *)
Inductive Stage : Type :=
| AwaitStatInput
| AwaitEngine (originalSize : nat)
| AwaitStatOutput (originalSize : nat)
| AwaitUnlinkOriginal (sizes : Sizes)
| AwaitReadTemp (sizes : Sizes)
| AwaitWriteOriginal (sizes : Sizes) (data : string)
| AwaitUnlinkTemp (sizes : Sizes)
| AwaitUnlinkCatch (error : string)
| Settled (result : Result Outcome).

(** A call [processFile(videoFile)] in flight. *)
Record Unit := {
  videoFile : string;
  stage : Stage
}.

(** The [catch] block up to its [await]: the error line is written and
    the presence of the temporary file is tested; the call returns when
    there is none, and otherwise issues the removal and waits for it. *)
Definition caught (fileName tempOutputPath error : string) (fs : FileSystem)
  : Stage * FileSystem :=
  let fs' := Console.write (ErrorOptimizing fileName error) fs in
  if bool_decide (is_Some (fs' !! tempOutputPath)) then (AwaitUnlinkCatch error, fs')
  else (Settled (Ok (Failed error)), fs').

(** The awaited operation [op] of the [try] block completes: on success
    the code goes on to the next operation; on failure it enters the
    [catch] block. *)
Definition resume {A : Type} (fileName tempOutputPath : string) (op : IO A)
  (next : A -> Stage) (fs : FileSystem) : Stage * FileSystem :=
  match op fs with
  | (Ok a, fs') => (next a, fs')
  | (Err e, fs') => caught fileName tempOutputPath e fs'
  end.

(** One step of [processFile(videoFile)]: the operation it waits for is
    performed and the code runs up to the next [await]. The removal
    awaited in the [catch] block is outside the [try] block: when it fails
    the promise is rejected. *)
Definition processFile_step (engine : Ffmpeg.Engine)
  (options : OptimizeVideosOptions.t) (videoFile : string) (stage : Stage)
  (fs : FileSystem) : Stage * FileSystem :=
  let fileName := NodePath.basename videoFile in
  let ext := Js.toLowerCase (NodePath.extname videoFile) in
  let tempOutputPath := videoFile +:+ ".tmp" +:+ ext in
  let videoOptions := getVideoOptions ext options in
  match stage with
  | AwaitStatInput =>
      resume fileName tempOutputPath (Fs.stat videoFile) AwaitEngine fs
  | AwaitEngine originalSize =>
      resume fileName tempOutputPath
        (engine (optimizeVideo_command videoFile tempOutputPath videoOptions))
        (fun _ => AwaitStatOutput originalSize) fs
  | AwaitStatOutput originalSize =>
      resume fileName tempOutputPath
        (await optimizedSize <- Fs.stat tempOutputPath ;;
         let sizes :=
           {| originalSize := originalSize; optimizedSize := optimizedSize |} in
         perform Console.log (Optimized fileName sizes) ;;
         ret sizes)%io
        AwaitUnlinkOriginal fs
  | AwaitUnlinkOriginal sizes =>
      resume fileName tempOutputPath (Fs.unlink videoFile)
        (fun _ => AwaitReadTemp sizes) fs
  | AwaitReadTemp sizes =>
      resume fileName tempOutputPath (Fs.readFile tempOutputPath)
        (AwaitWriteOriginal sizes) fs
  | AwaitWriteOriginal sizes data =>
      resume fileName tempOutputPath (Fs.writeFile videoFile data)
        (fun _ => AwaitUnlinkTemp sizes) fs
  | AwaitUnlinkTemp sizes =>
      resume fileName tempOutputPath (Fs.unlink tempOutputPath)
        (fun _ => Settled (Ok (Done sizes))) fs
  | AwaitUnlinkCatch error =>
      match Fs.unlink tempOutputPath fs with
      | (Ok _, fs') => (Settled (Ok (Failed error)), fs')
      | (Err e, fs') => (Settled (Err e), fs')
      end
  | Settled result => (Settled result, fs)
  end.

(** [n] steps of one file on its own. *)
Fixpoint processFile_steps (engine : Ffmpeg.Engine)
  (options : OptimizeVideosOptions.t) (videoFile : string) (n : nat)
  (stage : Stage) (fs : FileSystem) : Stage * FileSystem :=
  match n with
  | O => (stage, fs)
  | S n' =>
      let '(stage', fs') := processFile_step engine options videoFile stage fs in
      processFile_steps engine options videoFile n' stage' fs'
  end.

Definition is_settled (stage : Stage) : bool :=
  match stage with
  | Settled _ => true
  | _ => false
  end.

(** The promise of the unit is fulfilled. *)
Definition is_fulfilled (stage : Stage) : bool :=
  match stage with
  | Settled (Ok _) => true
  | _ => false
  end.


(** The number of operations a unit may still perform. *)
Definition remaining (stage : Stage) : nat :=
  match stage with
  | AwaitStatInput => 8
  | AwaitEngine _ => 7
  | AwaitStatOutput _ => 6
  | AwaitUnlinkOriginal _ => 5
  | AwaitReadTemp _ => 4
  | AwaitWriteOriginal _ _ => 3
  | AwaitUnlinkTemp _ => 2
  | AwaitUnlinkCatch _ => 1
  | Settled _ => 0
  end.

(** *** The scheduler of [closeBundle] *)

(** What an observer of the batch sees: [Started g k] when
    [processFile] is called on file [k] of chunk [g], [Finished g k r]
    when its promise settles. *)
Inductive Event : Type :=
| Started (group index : nat)
| Finished (group index : nat) (result : Result Outcome).

(** The loop [for (const chunk of chunks) await Promise.all(...)]:
    [launched] chunks have been taken, [running] are the calls of the
    last one, [pending] are the chunks not yet taken. *)
Record Batch := {
  store : FileSystem;
  launched : nat;
  running : list Unit;
  pending : list (list string);
  trace : list Event
}.

(** [chunk.map((file) => processFile(file))]: every call runs up to its
    first [await], which is after the line that announces the file. *)
Definition launch (chunk : list string) : list Unit :=
  map (fun file => {| videoFile := file; stage := AwaitStatInput |}) chunk.

Definition called (chunk : list string) (fs : FileSystem) : FileSystem :=
  fold_left
    (fun fs file => Console.write (Optimizing (NodePath.basename file)) fs)
    chunk fs.

Definition finished_event (group index : nat) (stage : Stage) : list Event :=
  match stage with
  | Settled result => [Finished group index result]
  | _ => []
  end.

Definition initial (fs : FileSystem) (chunks : list (list string)) : Batch :=
  {| store := fs; launched := 0; running := []; pending := chunks; trace := [] |}.

(** The batch after the next chunk is taken. *)
Definition launch_next (b : Batch) (chunk : list string) (rest : list (list string))
  : Batch :=
  {| store := called chunk (store b);
     launched := S (launched b);
     running := launch chunk;
     pending := rest;
     trace := trace b ++ map (Started (launched b)) (seq 0 (length chunk)) |}.

(** The batch after unit [k], which is [u], performs one step. *)
Definition advance (engine : Ffmpeg.Engine) (options : OptimizeVideosOptions.t)
  (b : Batch) (k : nat) (u : Unit) : Batch :=
  let '(stage', fs') :=
    processFile_step engine options (videoFile u) (stage u) (store b) in
  {| store := fs';
     launched := launched b;
     running := <[k := {| videoFile := videoFile u; stage := stage' |}]> (running b);
     pending := pending b;
     trace := trace b ++ finished_event (pred (launched b)) k stage' |}.

(** The moves of the batch. Any unit of the running chunk that has not
    settled may perform its next step; the next chunk is taken once
    [Promise.all] is fulfilled, that is once every promise of the
    running chunk is. When a promise of the running chunk is rejected,
    [Promise.all] is, and the loop over the chunks is left: no chunk is
    taken any more, while the other calls of the running chunk go on. *)
Inductive batch_step (engine : Ffmpeg.Engine) (options : OptimizeVideosOptions.t)
  : Batch -> Batch -> Prop :=
| step_launch (b : Batch) (chunk : list string) (rest : list (list string)) :
    forallb (fun u => is_fulfilled (stage u)) (running b) = true ->
    pending b = chunk :: rest ->
    batch_step engine options b (launch_next b chunk rest)
| step_advance (b : Batch) (k : nat) (u : Unit) :
    running b !! k = Some u ->
    is_settled (stage u) = false ->
    batch_step engine options b (advance engine options b k u).

(** The batches that [closeBundle] can reach. *)
Inductive reachable (engine : Ffmpeg.Engine) (options : OptimizeVideosOptions.t)
  (b0 : Batch) : Batch -> Prop :=
| reachable_refl : reachable engine options b0 b0
| reachable_step (b b' : Batch) :
    reachable engine options b0 b ->
    batch_step engine options b b' ->
    reachable engine options b0 b'.

(** [closeBundle] returns: nothing is pending and every promise of the
    last chunk is fulfilled. *)
Definition completed (b : Batch) : bool :=
  match pending b with
  | [] => forallb (fun u => is_fulfilled (stage u)) (running b)
  | _ :: _ => false
  end.



(** One schedule among the possible ones: the first unit of the running
    chunk that has not settled moves. *)
Fixpoint first_unsettled (units : list Unit) (k : nat) : option (nat * Unit) :=
  match units with
  | [] => None
  | u :: rest =>
      if is_settled (stage u) then first_unsettled rest (S k)
      else Some (k, u)
  end.

Definition schedule_first (engine : Ffmpeg.Engine)
  (options : OptimizeVideosOptions.t) (b : Batch) : option Batch :=
  match first_unsettled (running b) 0 with
  | Some (k, u) => Some (advance engine options b k u)
  | None =>
      if forallb (fun u => is_fulfilled (stage u)) (running b) then
        match pending b with
        | chunk :: rest => Some (launch_next b chunk rest)
        | [] => None
        end
      else None
  end.

Fixpoint run_first (engine : Ffmpeg.Engine) (options : OptimizeVideosOptions.t)
  (fuel : nat) (b : Batch) : Batch :=
  match fuel with
  | O => b
  | S fuel' =>
      match schedule_first engine options b with
      | Some b' => run_first engine options fuel' b'
      | None => b
      end
  end.



End Batched.

(** ** Notions of the specification *)

(** Strict precedence: the override when it is defined, otherwise the
    global value when it is defined, otherwise the built-in default. *)
Definition precedence {A : Type} (override global : option A) (builtin : A) : A :=
  match override, global with
  | Some x, _ => x
  | None, Some y => y
  | None, None => builtin
  end.

(** The extension, compared without regard to case, is a supported one. *)
Definition supported (ext : string) : Prop :=
  In (Js.toLowerCase ext) VIDEO_EXTENSIONS.

(** The options of the scenario [{ quality: 20, ".mp4": { quality: 18 } }]. *)
Definition scenario_options : Batched.OptimizeVideosOptions.t :=
  {| Batched.OptimizeVideosOptions.exclude := None;
     Batched.OptimizeVideosOptions.quality := Some 20%Z;
     Batched.OptimizeVideosOptions.preset := None;
     Batched.OptimizeVideosOptions.mute := None;
     Batched.OptimizeVideosOptions.concurrency := None;
     Batched.OptimizeVideosOptions.dot_mp4 :=
       Some {| Batched.VideoFormatOptions.quality := Some 18%Z;
               Batched.VideoFormatOptions.preset := None;
               Batched.VideoFormatOptions.mute := None |};
     Batched.OptimizeVideosOptions.dot_webm := None;
     Batched.OptimizeVideosOptions.dot_mov := None;
     Batched.OptimizeVideosOptions.dot_avi := None |}.

(** The options [{}], in the variant with [mute] and in the two without. *)
Definition no_options : Batched.OptimizeVideosOptions.t :=
  {| Batched.OptimizeVideosOptions.exclude := None;
     Batched.OptimizeVideosOptions.quality := None;
     Batched.OptimizeVideosOptions.preset := None;
     Batched.OptimizeVideosOptions.mute := None;
     Batched.OptimizeVideosOptions.concurrency := None;
     Batched.OptimizeVideosOptions.dot_mp4 := None;
     Batched.OptimizeVideosOptions.dot_webm := None;
     Batched.OptimizeVideosOptions.dot_mov := None;
     Batched.OptimizeVideosOptions.dot_avi := None |}.

Definition no_options_DistSeq : DistSeq.OptimizeVideosOptions.t :=
  {| DistSeq.OptimizeVideosOptions.exclude := None;
     DistSeq.OptimizeVideosOptions.quality := None;
     DistSeq.OptimizeVideosOptions.preset := None;
     DistSeq.OptimizeVideosOptions.dot_mp4 := None;
     DistSeq.OptimizeVideosOptions.dot_webm := None;
     DistSeq.OptimizeVideosOptions.dot_mov := None;
     DistSeq.OptimizeVideosOptions.dot_avi := None |}.

Definition no_options_VideoDir : VideoDir.OptimizeVideosOptions.t :=
  {| VideoDir.OptimizeVideosOptions.exclude := None;
     VideoDir.OptimizeVideosOptions.quality := None;
     VideoDir.OptimizeVideosOptions.preset := None;
     VideoDir.OptimizeVideosOptions.videoDir := None;
     VideoDir.OptimizeVideosOptions.dot_mp4 := None;
     VideoDir.OptimizeVideosOptions.dot_webm := None;
     VideoDir.OptimizeVideosOptions.dot_mov := None;
     VideoDir.OptimizeVideosOptions.dot_avi := None |}.

(** The resolved options without [mute], as the two sequential variants
    have them. *)
Definition to_DistSeq (opts : Batched.VideoOptions.t) : DistSeq.VideoOptions.t :=
  {| DistSeq.VideoOptions.quality := Batched.VideoOptions.quality opts;
     DistSeq.VideoOptions.preset := Batched.VideoOptions.preset opts |}.

Definition to_VideoDir (opts : Batched.VideoOptions.t) : VideoDir.VideoOptions.t :=
  {| VideoDir.VideoOptions.quality := Batched.VideoOptions.quality opts;
     VideoDir.VideoOptions.preset := Batched.VideoOptions.preset opts |}.

(** The flags of the generic H.264 configuration. *)
Definition generic_flags (quality : Z) (preset : string) : list string :=
  ["-crf"; Js.String_of_number quality; "-preset"; preset;
   "-pix_fmt"; "yuv420p"; "-y"].

(** The flags that only the [.mp4] configuration has. *)
Definition mp4_only_flags : list string :=
  ["-profile:v"; "high"; "-level"; "4.0"; "-movflags"; "+faststart"].

(** [pattern] occurs in [s]: the characters of [pattern], in the same case,
    at consecutive positions of [s]. *)
Definition occurs_in (pattern s : string) : Prop :=
  exists before after : string, s = before +:+ pattern +:+ after.

(** The exclusion rule of the code: a pattern that starts with a dot is
    compared, as it is written, with the lower-cased extension of the file
    name; any other pattern has to occur in the file name. *)
Definition excludes (pattern fileName : string) : Prop :=
  if Js.startsWith pattern "." then
    pattern = Js.toLowerCase (NodePath.extname fileName)
  else occurs_in pattern fileName.

(** The exclusion rule in the words of the specification: a pattern that
    starts with a dot is compared with the extension without regard to
    case. *)
Definition excludes_as_specified (pattern fileName : string) : Prop :=
  if Js.startsWith pattern "." then
    Js.toLowerCase pattern = Js.toLowerCase (NodePath.extname fileName)
  else occurs_in pattern fileName.

(** The regular files of a directory tree, at any depth:
    [file_under dir entries path name] when a regular file called [name]
    lies at [path] in the directory [dir] whose entries are [entries]. *)
Inductive file_under : string -> list Dirent -> string -> string -> Prop :=
| file_here (dir : string) (entries : list Dirent) (name : string) :
    In (File name) entries ->
    file_under dir entries (NodePath.join dir name) name
| file_below (dir : string) (entries : list Dirent) (sub : string)
    (subentries : list Dirent) (path name : string) :
    In (Directory sub subentries) entries ->
    file_under (NodePath.join dir sub) subentries path name ->
    file_under dir entries path name.

(** The engine is a transcoder: a run reads its input and changes nothing
    of the state but the file at the output path of its command. *)
Definition engine_confined (engine : Ffmpeg.Engine) : Prop :=
  forall (cmd : Ffmpeg.Command) (fs fs' : FileSystem) (result : Result unit),
    engine cmd fs = (result, fs') ->
    (forall path, path <> Ffmpeg.output cmd -> fs' !! path = fs !! path)
    /\ refused fs' = refused fs
    /\ console fs' = console fs.


(** An engine for the examples: it fails on [/out/b.webm] after writing a
    part of the output, and it writes the five characters "small" for any
    other input. *)
Definition sample_engine : Ffmpeg.Engine :=
  fun cmd fs =>
    if String.eqb (Ffmpeg.input cmd) "/out/b.webm" then
      (Err "Conversion failed!", <[Ffmpeg.output cmd := "part"]> fs)
    else (Ok tt, <[Ffmpeg.output cmd := "small"]> fs).

(** A build output with three videos; the system refuses nothing. *)
Definition sample_store : FileSystem :=
  <["/out/a.mp4" := "original a"]>
    (<["/out/b.webm" := "original b"]>
       (<["/out/c.mov" := "original c"]> ∅)).

(** The same build output, on a system that refuses the removal of the
    temporary file of [/out/b.webm]. *)
Definition guarded_store : FileSystem :=
  {| files := files sample_store;
     refused :=
       fun op =>
         match op with
         | Unlink path =>
             if String.eqb path "/out/b.webm.tmp.webm"
             then Some "EPERM: operation not permitted"
             else None
         | _ => None
         end;
     console := [] |}.



(** The number of groups of at most [c] elements that [n] elements fill. *)
Definition ceil_div (n c : nat) : nat := (n + c - 1) / c.

(** File [k] of chunk [g] has reached a terminal state, success or
    failure, before position [i] of the trace. *)
Definition finished_before (t : list Batched.Event) (i g k : nat) : Prop :=
  exists (j : nat) (outcome : Batched.Outcome),
    j < i /\ t !! j = Some (Batched.Finished g k (Ok outcome)).

(** The chunks are processed strictly one after the other: when a file of
    a chunk is started, every file of every earlier chunk has reached a
    terminal state. *)
Definition sequential (chunks : list (list string)) (t : list Batched.Event) : Prop :=
  forall (i g k : nat),
    t !! i = Some (Batched.Started g k) ->
    forall (g' : nat) (chunk' : list string) (k' : nat) (file : string),
      g' < g ->
      chunks !! g' = Some chunk' ->
      chunk' !! k' = Some file ->
      finished_before t i g' k'.


(** What holds of every batch that [closeBundle] reaches on [chunks]. *)
Record batch_inv (chunks : list (list string)) (b : Batched.Batch) : Prop := {
  inv_pending :
    Batched.pending b = skipn (Batched.launched b) chunks;
  inv_running :
    match Batched.launched b with
    | O => Batched.running b = []
    | S g => chunks !! g = Some (map Batched.videoFile (Batched.running b))
    end;
  inv_current :
    forall k u result,
      Batched.running b !! k = Some u ->
      Batched.stage u = Batched.Settled result ->
      exists j,
        Batched.trace b !! j
        = Some (Batched.Finished (pred (Batched.launched b)) k result);
  inv_earlier :
    forall g chunk k file,
      S g < Batched.launched b ->
      chunks !! g = Some chunk ->
      chunk !! k = Some file ->
      exists j outcome,
        Batched.trace b !! j = Some (Batched.Finished g k (Ok outcome));
  inv_sequential : sequential chunks (Batched.trace b);
  inv_started :
    forall g chunk k file,
      g < Batched.launched b ->
      chunks !! g = Some chunk ->
      chunk !! k = Some file ->
      exists i, Batched.trace b !! i = Some (Batched.Started g k)
}.

(** The options [{ concurrency: 2 }]. *)
Definition two_at_a_time : Batched.OptimizeVideosOptions.t :=
  {| Batched.OptimizeVideosOptions.exclude := None;
     Batched.OptimizeVideosOptions.quality := None;
     Batched.OptimizeVideosOptions.preset := None;
     Batched.OptimizeVideosOptions.mute := None;
     Batched.OptimizeVideosOptions.concurrency := Some 2;
     Batched.OptimizeVideosOptions.dot_mp4 := None;
     Batched.OptimizeVideosOptions.dot_webm := None;
     Batched.OptimizeVideosOptions.dot_mov := None;
     Batched.OptimizeVideosOptions.dot_avi := None |}.

(** The candidates of [sample_store], and five candidates. *)
Definition three_files : list string :=
  ["/out/a.mp4"; "/out/b.webm"; "/out/c.mov"].

Definition five_files : list string :=
  ["/out/a.mp4"; "/out/b.webm"; "/out/c.mov"; "/out/d.avi"; "/out/e.mp4"].

(** The command that the processing of [videoFile] builds in the variant
    with [mute]. *)
Definition command_for (options : Batched.OptimizeVideosOptions.t) (videoFile : string)
  : Ffmpeg.Command :=
  Batched.optimizeVideo_command videoFile (Batched.tempOutputPath_of videoFile)
    (Batched.getVideoOptions (Js.toLowerCase (NodePath.extname videoFile)) options).


(** [fs'] differs from [fs] at most in the files at [paths] and in lines
    added to the console. *)
Definition changes_at_most (paths : list string) (fs fs' : FileSystem) : Prop :=
  (forall path, ~ In path paths -> fs' !! path = fs !! path)
  /\ refused fs' = refused fs
  /\ exists lines, console fs' = console fs ++ lines.

(** An [async] computation that changes at most the files at [paths]. *)
Definition confined_io {A : Type} (paths : list string) (m : IO A) : Prop :=
  forall fs result fs', m fs = (result, fs') -> changes_at_most paths fs fs'.





(** ** Further notions *)

(** The engine writes at most the output path of its command. *)
Definition engine_frame (engine : Ffmpeg.Engine) : Prop :=
  forall (cmd : Ffmpeg.Command) (fs fs' : FileSystem) (result : Result unit),
    engine cmd fs = (result, fs') ->
    forall path, path <> Ffmpeg.output cmd -> fs' !! path = fs !! path.

(** The sizes on the success line of a call that has written it and has
    not failed since. *)
Definition logged_sizes (stage : Batched.Stage) : option Sizes :=
  match stage with
  | Batched.AwaitUnlinkOriginal sizes
  | Batched.AwaitReadTemp sizes
  | Batched.AwaitWriteOriginal sizes _
  | Batched.AwaitUnlinkTemp sizes
  | Batched.Settled (Ok (Batched.Done sizes)) => Some sizes
  | _ => None
  end.

(** The units of the running chunk that have not settled. *)
Definition in_flight (b : Batched.Batch) : nat :=
  length (List.filter (fun u => negb (Batched.is_settled (Batched.stage u)))
                      (Batched.running b)).

(** The options of the variant with [mute], read by a variant without
    it: the fields [mute] and [concurrency] are not looked at. *)
Definition override_without_mute_DistSeq (o : Batched.VideoFormatOptions.t)
  : DistSeq.VideoFormatOptions.t :=
  {| DistSeq.VideoFormatOptions.quality := Batched.VideoFormatOptions.quality o;
     DistSeq.VideoFormatOptions.preset := Batched.VideoFormatOptions.preset o |}.

Definition without_mute_DistSeq (options : Batched.OptimizeVideosOptions.t)
  : DistSeq.OptimizeVideosOptions.t :=
  {| DistSeq.OptimizeVideosOptions.exclude := Batched.OptimizeVideosOptions.exclude options;
     DistSeq.OptimizeVideosOptions.quality := Batched.OptimizeVideosOptions.quality options;
     DistSeq.OptimizeVideosOptions.preset := Batched.OptimizeVideosOptions.preset options;
     DistSeq.OptimizeVideosOptions.dot_mp4 :=
       override_without_mute_DistSeq <$> Batched.OptimizeVideosOptions.dot_mp4 options;
     DistSeq.OptimizeVideosOptions.dot_webm :=
       override_without_mute_DistSeq <$> Batched.OptimizeVideosOptions.dot_webm options;
     DistSeq.OptimizeVideosOptions.dot_mov :=
       override_without_mute_DistSeq <$> Batched.OptimizeVideosOptions.dot_mov options;
     DistSeq.OptimizeVideosOptions.dot_avi :=
       override_without_mute_DistSeq <$> Batched.OptimizeVideosOptions.dot_avi options |}.

Definition override_without_mute_VideoDir (o : Batched.VideoFormatOptions.t)
  : VideoDir.VideoFormatOptions.t :=
  {| VideoDir.VideoFormatOptions.quality := Batched.VideoFormatOptions.quality o;
     VideoDir.VideoFormatOptions.preset := Batched.VideoFormatOptions.preset o |}.

Definition without_mute_VideoDir (videoDir : option string)
  (options : Batched.OptimizeVideosOptions.t) : VideoDir.OptimizeVideosOptions.t :=
  {| VideoDir.OptimizeVideosOptions.exclude := Batched.OptimizeVideosOptions.exclude options;
     VideoDir.OptimizeVideosOptions.quality := Batched.OptimizeVideosOptions.quality options;
     VideoDir.OptimizeVideosOptions.preset := Batched.OptimizeVideosOptions.preset options;
     VideoDir.OptimizeVideosOptions.videoDir := videoDir;
     VideoDir.OptimizeVideosOptions.dot_mp4 :=
       override_without_mute_VideoDir <$> Batched.OptimizeVideosOptions.dot_mp4 options;
     VideoDir.OptimizeVideosOptions.dot_webm :=
       override_without_mute_VideoDir <$> Batched.OptimizeVideosOptions.dot_webm options;
     VideoDir.OptimizeVideosOptions.dot_mov :=
       override_without_mute_VideoDir <$> Batched.OptimizeVideosOptions.dot_mov options;
     VideoDir.OptimizeVideosOptions.dot_avi :=
       override_without_mute_VideoDir <$> Batched.OptimizeVideosOptions.dot_avi options |}.

(** [flag value] are two consecutive tokens of [tokens]. *)
Definition has_flag (flag value : string) (tokens : list string) : Prop :=
  exists before after : list string, tokens = before ++ flag :: value :: after.

(** [path] is a candidate of the batch or the temporary path of one. *)
Definition owned_by (chunks : list (list string)) (path : string) : Prop :=
  exists chunk file,
    In chunk chunks /\ In file chunk
    /\ (path = file \/ path = Batched.tempOutputPath_of file).

(** The regular files of a directory tree in the order of a depth-first
    walk that follows the order of the entries, each with its path and its
    name. *)
Fixpoint entry_files (currentDir : string) (entry : Dirent) : list (string * string) :=
  let fullPath := NodePath.join currentDir (dirent_name entry) in
  match entry with
  | File name => [(fullPath, name)]
  | Directory _ entries => flat_map (entry_files fullPath) entries
  | Other _ => []
  end.

Definition files_of (dir : string) (entries : list Dirent) : list (string * string) :=
  flat_map (entry_files dir) entries.

(** A character that is neither the separator nor a dot, and the strings
    made of such characters. *)
Definition plain (c : ascii) : bool :=
  negb (Ascii.eqb c "/") && negb (Ascii.eqb c ".").

Fixpoint all_plain (s : string) : bool :=
  match s with
  | EmptyString => true
  | String c s' => plain c && all_plain s'
  end.

(** The names that [readdir] lists: not empty, and without separator. *)
Fixpoint no_separator (s : string) : bool :=
  match s with
  | EmptyString => true
  | String c s' => negb (Ascii.eqb c "/") && no_separator s'
  end.

Definition entry_name (name : string) : bool :=
  negb (String.eqb name EmptyString) && no_separator name.

(** Every entry of the tree, at any depth, has such a name. *)
Fixpoint well_named (entry : Dirent) : bool :=
  entry_name (dirent_name entry)
  && match entry with
     | Directory _ entries => forallb well_named entries
     | _ => true
     end.

(** An index of a name, seen in a path that has [off] characters before
    the name; [-1] stands for "not seen yet" in the loop of [extname]. *)
Definition shift (off : nat) (x : Z) : Z :=
  if (x =? -1)%Z then (-1)%Z else (x + Z.of_nat off)%Z.

(** The state of the loop of [extname] on a name, and its state on a path
    that ends with the name, at the same character. *)
Definition shifted (off : nat) (st st' : NodePath.ExtnameState) : Prop :=
  (-1 <= NodePath.startDot st)%Z
  /\ (-1 <= NodePath.end_ st)%Z
  /\ NodePath.startDot st' = shift off (NodePath.startDot st)
  /\ NodePath.end_ st' = shift off (NodePath.end_ st)
  /\ NodePath.matchedSlash st' = NodePath.matchedSlash st
  /\ NodePath.preDotState st' = NodePath.preDotState st
  /\ NodePath.startPart st = 0%Z
  /\ NodePath.startPart st' = 0%Z
  /\ (NodePath.end_ st = (-1)%Z \/ NodePath.matchedSlash st = false).

(** The lines of the loop of one sequential variant, read as lines of
    the other. *)
Definition outcome_VideoDir (outcome : DistSeq.Outcome) : VideoDir.Outcome :=
  match outcome with
  | DistSeq.Done sizes => VideoDir.Done sizes
  | DistSeq.Failed message => VideoDir.Failed message
  end.

(** The same for the result of an [async] computation. *)
Definition result_map {A B : Type} (f : A -> B) (r : Result A * FileSystem)
  : Result B * FileSystem :=
  match r with
  | (Ok a, fs) => (Ok (f a), fs)
  | (Err e, fs) => (Err e, fs)
  end.

(** The files processed one after the other by [processFile], each on the
    store that the one before left: the results, and the last store. *)
Fixpoint process_in_order (engine : Ffmpeg.Engine)
  (options : Batched.OptimizeVideosOptions.t) (files : list string) (fs : FileSystem)
  : list (Result Batched.Outcome) * FileSystem :=
  match files with
  | [] => ([], fs)
  | file :: rest =>
      let '(result, fs1) := Batched.processFile engine options file fs in
      let '(results, fs2) := process_in_order engine options rest fs1 in
      (result :: results, fs2)
  end.

(** What holds of the one running call when the chunks are single files:
    it is some number of steps into [processFile], the file announced, on
    the store that the files before it left. *)
Definition one_at_a_time_inv (engine : Ffmpeg.Engine)
  (options : Batched.OptimizeVideosOptions.t) (files : list string) (fs : FileSystem)
  (b : Batched.Batch) : Prop :=
  match Batched.launched b with
  | O => Batched.store b = fs
  | S g =>
      forall u,
        Batched.running b = [u] ->
        exists k,
          Batched.processFile_steps engine options (Batched.videoFile u) k
            Batched.AwaitStatInput
            (Batched.called [Batched.videoFile u]
               (snd (process_in_order engine options (firstn g files) fs)))
          = (Batched.stage u, Batched.store b)
  end.

(** The options [{ concurrency: 1 }]. *)
Definition one_at_a_time : Batched.OptimizeVideosOptions.t :=
  {| Batched.OptimizeVideosOptions.exclude := None;
     Batched.OptimizeVideosOptions.quality := None;
     Batched.OptimizeVideosOptions.preset := None;
     Batched.OptimizeVideosOptions.mute := None;
     Batched.OptimizeVideosOptions.concurrency := Some 1;
     Batched.OptimizeVideosOptions.dot_mp4 := None;
     Batched.OptimizeVideosOptions.dot_webm := None;
     Batched.OptimizeVideosOptions.dot_mov := None;
     Batched.OptimizeVideosOptions.dot_avi := None |}.

(** * Properties *)

(** ** Option resolution and format configuration *)

Lemma supported_cases (ext : string) :
  supported ext ->
  Js.toLowerCase ext = ".mp4" \/ Js.toLowerCase ext = ".webm"
  \/ Js.toLowerCase ext = ".mov" \/ Js.toLowerCase ext = ".avi".
Proof.
  unfold supported, VIDEO_EXTENSIONS. simpl. intuition auto.
Qed.

Lemma toLowerCase_idempotent (s : string) :
  Js.toLowerCase (Js.toLowerCase s) = Js.toLowerCase s.
Proof.
  induction s as [|c s IH]; simpl; [reflexivity|].
  rewrite IH. f_equal.
  unfold Js.lower_ascii.
  destruct ((65 <=? nat_of_ascii c)%nat && (nat_of_ascii c <=? 90)%nat) eqn:E.
  - apply andb_prop in E as [E1 E2].
    apply Nat.leb_le in E1. apply Nat.leb_le in E2.
    rewrite nat_ascii_embedding by lia.
    replace ((65 <=? nat_of_ascii c + 32)%nat && (nat_of_ascii c + 32 <=? 90)%nat)
      with false; [reflexivity|].
    symmetry. apply andb_false_iff. right. apply Nat.leb_gt. lia.
  - rewrite E. reflexivity.
Qed.

Lemma precedence_nullish {A : Type} (override global : option A) (builtin : A) :
  Js.nullish (Js.nullish_opt override global) builtin
  = precedence override global builtin.
Proof. destruct override, global; reflexivity. Qed.

(** C3. For a supported extension, quality, preset and mute are each the
    field of the per-extension override when it is defined, otherwise the
    global field when it is defined, otherwise 18, "medium" and false; the
    override consulted is the one stored under the lower-cased extension.
    With [{ quality: 20, ".mp4": { quality: 18 } }], [a.mp4] resolves
    quality 18 and [b.webm] resolves quality 20. *)
Theorem C3_override_precedence (ext : string) (options : Batched.OptimizeVideosOptions.t) :
  supported ext ->
  let override := Batched.format_options options (Js.toLowerCase ext) in
  let resolved := Batched.getVideoOptions ext options in
  Batched.VideoOptions.quality resolved
  = precedence (override ≫= Batched.VideoFormatOptions.quality)
               (Batched.OptimizeVideosOptions.quality options) 18%Z
  /\ Batched.VideoOptions.preset resolved
     = precedence (override ≫= Batched.VideoFormatOptions.preset)
                  (Batched.OptimizeVideosOptions.preset options) "medium"
  /\ Batched.VideoOptions.mute resolved
     = precedence (override ≫= Batched.VideoFormatOptions.mute)
                  (Batched.OptimizeVideosOptions.mute options) false
  /\ (Js.toLowerCase ext = ".mp4"
      -> override = Batched.OptimizeVideosOptions.dot_mp4 options)
  /\ (Js.toLowerCase ext = ".webm"
      -> override = Batched.OptimizeVideosOptions.dot_webm options)
  /\ (Js.toLowerCase ext = ".mov"
      -> override = Batched.OptimizeVideosOptions.dot_mov options)
  /\ (Js.toLowerCase ext = ".avi"
      -> override = Batched.OptimizeVideosOptions.dot_avi options)
  /\ Batched.VideoOptions.quality
       (Batched.getVideoOptions (Js.toLowerCase (NodePath.extname "a.mp4"))
                                scenario_options) = 18%Z
  /\ Batched.VideoOptions.quality
       (Batched.getVideoOptions (Js.toLowerCase (NodePath.extname "b.webm"))
                                scenario_options) = 20%Z.
Proof.
  intros Hsup override resolved. subst override resolved.
  unfold Batched.getVideoOptions. cbn [Batched.VideoOptions.quality
    Batched.VideoOptions.preset Batched.VideoOptions.mute].
  rewrite !precedence_nullish.
  repeat split; try reflexivity;
    intros E; unfold Batched.format_options; rewrite E; reflexivity.
Qed.

Lemma C3_override_precedence_witness :
  supported ".MP4"
  /\ Batched.VideoOptions.quality (Batched.getVideoOptions ".MP4" scenario_options)
     = 18%Z.
Proof.
  assert (H : supported ".MP4") by (unfold supported; simpl; auto).
  split; [exact H|].
  destruct (C3_override_precedence ".MP4" scenario_options H) as [Hq _].
  rewrite Hq. reflexivity.
Defined.

(** C8. For [.webm], whatever the quality and the preset, every variant
    returns the codec libvpx-vp9 and the container webm with the flags
    [-crf quality -b:v 0 -pix_fmt yuv420p -cpu-used n -y], where n is 0
    for the preset "slow", 2 for "medium", 4 for "fast" and 4 for every
    other preset. *)
Theorem C8_webm_configuration (ext : string) (opts : Batched.VideoOptions.t) :
  Js.toLowerCase ext = ".webm" ->
  exists cpuUsed : string,
    let expected :=
      {| FormatConfig.codec := "libvpx-vp9";
         FormatConfig.format := "webm";
         FormatConfig.options :=
           ["-crf"; Js.String_of_number (Batched.VideoOptions.quality opts);
            "-b:v"; "0"; "-pix_fmt"; "yuv420p"; "-cpu-used"; cpuUsed; "-y"] |} in
    Batched.getFormatConfig ext opts = expected
    /\ DistSeq.getFormatConfig ext (to_DistSeq opts) = expected
    /\ VideoDir.getFormatConfig ext (to_VideoDir opts) = expected
    /\ (Batched.VideoOptions.preset opts = "slow" -> cpuUsed = "0")
    /\ (Batched.VideoOptions.preset opts = "medium" -> cpuUsed = "2")
    /\ (Batched.VideoOptions.preset opts = "fast" -> cpuUsed = "4")
    /\ (Batched.VideoOptions.preset opts <> "slow"
        -> Batched.VideoOptions.preset opts <> "medium" -> cpuUsed = "4").
Proof.
  intros E.
  exists (if String.eqb (Batched.VideoOptions.preset opts) "slow" then "0"
          else if String.eqb (Batched.VideoOptions.preset opts) "medium" then "2"
          else "4").
  unfold Batched.getFormatConfig, DistSeq.getFormatConfig, VideoDir.getFormatConfig.
  rewrite E. cbn -[Js.String_of_number].
  repeat split.
  - intros ->. reflexivity.
  - intros ->. reflexivity.
  - intros ->. reflexivity.
  - intros H1 H2.
    apply String.eqb_neq in H1. apply String.eqb_neq in H2.
    rewrite H1, H2. reflexivity.
Qed.

Lemma C8_webm_configuration_witness :
  exists cpuUsed : string,
    FormatConfig.options
      (Batched.getFormatConfig ".webm"
         {| Batched.VideoOptions.quality := 30;
            Batched.VideoOptions.preset := "veryslow";
            Batched.VideoOptions.mute := false |})
    = ["-crf"; "30"; "-b:v"; "0"; "-pix_fmt"; "yuv420p"; "-cpu-used"; cpuUsed; "-y"]
    /\ cpuUsed = "4".
Proof.
  destruct (C8_webm_configuration ".webm"
              {| Batched.VideoOptions.quality := 30;
                 Batched.VideoOptions.preset := "veryslow";
                 Batched.VideoOptions.mute := false |} eq_refl)
    as (cpuUsed & Hcfg & _ & _ & _ & _ & _ & Hother).
  exists cpuUsed. split.
  - rewrite Hcfg. reflexivity.
  - apply Hother; discriminate.
Defined.

Lemma not_supported_eqb (ext : string) :
  ~ supported ext ->
  String.eqb (Js.toLowerCase ext) ".mp4" = false
  /\ String.eqb (Js.toLowerCase ext) ".webm" = false
  /\ String.eqb (Js.toLowerCase ext) ".mov" = false
  /\ String.eqb (Js.toLowerCase ext) ".avi" = false.
Proof.
  intros H. unfold supported, VIDEO_EXTENSIONS in H. simpl in H.
  repeat split; apply String.eqb_neq; intros E; apply H; rewrite E; auto.
Qed.

(** C9 as amended. [getFormatConfig] is a total function in the three
    variants. For an extension outside the supported set, the two variants
    with one return per format give the generic H.264 configuration of
    [.avi] (container avi, codec libx264, the flags
    [-crf quality -preset preset -pix_fmt yuv420p -y]); the variant with
    [mute] and [concurrency] keeps its initial container mp4 and adds the
    flags of [.mp4] to the generic ones. *)
Theorem C9_fallback_for_other_extensions (ext : string) (opts : Batched.VideoOptions.t) :
  ~ supported ext ->
  let quality := Batched.VideoOptions.quality opts in
  let preset := Batched.VideoOptions.preset opts in
  DistSeq.getFormatConfig ext (to_DistSeq opts)
  = {| FormatConfig.codec := "libx264";
       FormatConfig.format := "avi";
       FormatConfig.options := generic_flags quality preset |}
  /\ VideoDir.getFormatConfig ext (to_VideoDir opts)
     = {| FormatConfig.codec := "libx264";
          FormatConfig.format := "avi";
          FormatConfig.options := generic_flags quality preset |}
  /\ Batched.getFormatConfig ext opts
     = {| FormatConfig.codec := "libx264";
          FormatConfig.format := "mp4";
          FormatConfig.options := generic_flags quality preset ++ mp4_only_flags |}.
Proof.
  intros H quality preset.
  destruct (not_supported_eqb ext H) as (E1 & E2 & E3 & E4).
  unfold Batched.getFormatConfig, DistSeq.getFormatConfig, VideoDir.getFormatConfig.
  rewrite E1, E2, E3, E4. repeat split; reflexivity.
Qed.

Lemma C9_fallback_for_other_extensions_witness :
  ~ supported ".gif"
  /\ FormatConfig.format
       (DistSeq.getFormatConfig ".gif"
          (to_DistSeq (Batched.getVideoOptions ".gif" no_options))) = "avi"
  /\ FormatConfig.format
       (Batched.getFormatConfig ".gif" (Batched.getVideoOptions ".gif" no_options))
     = "mp4".
Proof.
  assert (H : ~ supported ".gif").
  { unfold supported. simpl. intros [E|[E|[E|[E|[]]]]]; discriminate E. }
  split; [exact H|].
  destruct (C9_fallback_for_other_extensions ".gif"
              (Batched.getVideoOptions ".gif" no_options) H) as (H1 & _ & H3).
  rewrite H1, H3. split; reflexivity.
Defined.

(** C9 as stated fails in the variant with [mute] and [concurrency]: for
    [.gif], which is not supported, it returns the container mp4 and the
    profile flag, not the configuration of [.avi]. *)
Lemma C9_counterexample :
  ~ supported ".gif"
  /\ FormatConfig.format
       (Batched.getFormatConfig ".gif" (Batched.getVideoOptions ".gif" no_options))
     <> "avi"
  /\ In "-profile:v"
        (FormatConfig.options
           (Batched.getFormatConfig ".gif" (Batched.getVideoOptions ".gif" no_options))).
Proof.
  split; [|split].
  - unfold supported. simpl. intros [E|[E|[E|[E|[]]]]]; discriminate E.
  - discriminate.
  - simpl. auto 10.
Qed.

(** Search for the head of the left list in the right list. *)
Ltac perm_find a l k :=
  match l with
  | a :: ?t => k (@nil string) t
  | ?b :: ?t => perm_find a t ltac:(fun l1 l2 => k (b :: l1) l2)
  end.

Ltac perm_solve :=
  repeat match goal with
    | |- Permutation [] [] => constructor
    | |- Permutation (?a :: _) ?r =>
        perm_find a r ltac:(fun l1 l2 => apply (Permutation_cons_app l1 l2 a); simpl)
    end.

(** C10. For a supported extension and every quality and preset, the three
    variants of [getFormatConfig] return the same codec, the same
    container and the same flags up to their order. *)
Theorem C10_variants_agree (ext : string) (opts : Batched.VideoOptions.t) :
  supported ext ->
  let batched := Batched.getFormatConfig ext opts in
  let distSeq := DistSeq.getFormatConfig ext (to_DistSeq opts) in
  let videoDir := VideoDir.getFormatConfig ext (to_VideoDir opts) in
  FormatConfig.codec batched = FormatConfig.codec distSeq
  /\ FormatConfig.codec distSeq = FormatConfig.codec videoDir
  /\ FormatConfig.format batched = FormatConfig.format distSeq
  /\ FormatConfig.format distSeq = FormatConfig.format videoDir
  /\ Permutation (FormatConfig.options batched) (FormatConfig.options distSeq)
  /\ Permutation (FormatConfig.options distSeq) (FormatConfig.options videoDir).
Proof.
  intros H batched distSeq videoDir. subst batched distSeq videoDir.
  unfold Batched.getFormatConfig, DistSeq.getFormatConfig, VideoDir.getFormatConfig.
  destruct (supported_cases ext H) as [E|[E|[E|E]]]; rewrite E;
    cbn -[Js.String_of_number];
    repeat split; try reflexivity; perm_solve.
Qed.

Lemma C10_variants_agree_witness :
  supported ".MP4"
  /\ Permutation
       (FormatConfig.options
          (Batched.getFormatConfig ".MP4" (Batched.getVideoOptions ".MP4" scenario_options)))
       (FormatConfig.options
          (DistSeq.getFormatConfig ".MP4"
             (to_DistSeq (Batched.getVideoOptions ".MP4" scenario_options)))).
Proof.
  assert (H : supported ".MP4") by (unfold supported; simpl; auto).
  split; [exact H|].
  exact (proj1 (proj2 (proj2 (proj2 (proj2
    (C10_variants_agree ".MP4" (Batched.getVideoOptions ".MP4" scenario_options) H)))))).
Defined.

(** ** The command handed to the engine *)

Lemma processFile_engine_agree (engine1 engine2 : Ffmpeg.Engine)
  (options : Batched.OptimizeVideosOptions.t) (videoFile : string) (fs : FileSystem) :
  (forall fs', engine1 (command_for options videoFile) fs'
               = engine2 (command_for options videoFile) fs') ->
  Batched.processFile engine1 options videoFile fs
  = Batched.processFile engine2 options videoFile fs.
Proof.
  intros Hagree.
  unfold Batched.processFile, try_catch, Batched.processFile_try,
    Batched.optimizeVideo, bind, Console.log.
  destruct (Fs.stat videoFile _) as [[n|e] fs1]; [|reflexivity].
  unfold command_for, Batched.tempOutputPath_of in Hagree.
  rewrite Hagree. reflexivity.
Qed.

Lemma format_options_no_options (lower : string) :
  Batched.format_options no_options lower = None.
Proof.
  unfold Batched.format_options.
  repeat match goal with |- context [String.eqb ?a ?b] => destruct (String.eqb a b) end;
    reflexivity.
Qed.

(** C7 as amended. In the variant with the [mute] option, the command
    handed to the engine has the audio removed exactly when the resolved
    mute flag is true, the processing of a file depends on the engine only
    through its run on that command, and without any [mute] option the flag
    resolves to false, so the audio is kept. The two other variants have no
    [mute] option and always hand over a command with the audio removed. *)
Theorem C7_audio_removed_iff_mute :
  (forall (inputPath outputPath : string) (opts : Batched.VideoOptions.t),
      Ffmpeg.noAudio (Batched.optimizeVideo_command inputPath outputPath opts) = true
      <-> Batched.VideoOptions.mute opts = true)
  /\ (forall (options : Batched.OptimizeVideosOptions.t) (videoFile : string),
         Ffmpeg.noAudio (command_for options videoFile)
         = Batched.VideoOptions.mute
             (Batched.getVideoOptions (Js.toLowerCase (NodePath.extname videoFile))
                                      options))
  /\ (forall (engine1 engine2 : Ffmpeg.Engine)
             (options : Batched.OptimizeVideosOptions.t) (videoFile : string)
             (fs : FileSystem),
         (forall fs', engine1 (command_for options videoFile) fs'
                      = engine2 (command_for options videoFile) fs') ->
         Batched.processFile engine1 options videoFile fs
         = Batched.processFile engine2 options videoFile fs)
  /\ (forall (videoFile : string),
         Ffmpeg.noAudio (command_for no_options videoFile) = false)
  /\ (forall (inputPath outputPath : string) (opts : DistSeq.VideoOptions.t),
         Ffmpeg.noAudio (DistSeq.optimizeVideo_command inputPath outputPath opts) = true)
  /\ (forall (inputPath outputPath : string) (opts : VideoDir.VideoOptions.t),
         Ffmpeg.noAudio (VideoDir.optimizeVideo_command inputPath outputPath opts) = true).
Proof.
  repeat split.
  - cbn. destruct (Batched.VideoOptions.mute opts); auto.
  - cbn. destruct (Batched.VideoOptions.mute opts); auto.
  - intros options videoFile. unfold command_for. cbn.
    match goal with |- (if ?b then _ else _) = _ => destruct b; reflexivity end.
  - intros. apply processFile_engine_agree; assumption.
  - intros videoFile. unfold command_for. cbn.
    rewrite format_options_no_options. reflexivity.
Qed.

(** C7 as stated fails in the two variants without the [mute] option:
    with no option at all the mute flag resolves to false, and the command
    is built with the audio removed. *)
Lemma C7_counterexample :
  Batched.VideoOptions.mute (Batched.getVideoOptions ".mp4" no_options) = false
  /\ Ffmpeg.noAudio
       (DistSeq.optimizeVideo_command "/out/a.mp4" "/out/a.mp4.tmp.mp4"
          (DistSeq.getVideoOptions ".mp4" no_options_DistSeq)) = true
  /\ Ffmpeg.noAudio
       (VideoDir.optimizeVideo_command "/out/a.mp4" "/out/a.mp4.tmp.mp4"
          (VideoDir.getVideoOptions ".mp4" no_options_VideoDir)) = true.
Proof. repeat split. Qed.

(** ** Discovery *)

Lemma prefix_app_iff (p s : string) :
  String.prefix p s = true <-> exists rest : string, s = p +:+ rest.
Proof.
  revert s. induction p as [|c p IH]; intros s; simpl.
  - split; [intros _; exists s; reflexivity | intros _; destruct s; reflexivity].
  - destruct s as [|d s]; simpl.
    + split; [discriminate | intros [rest E]; discriminate E].
    + destruct (ascii_dec c d) as [->|Hne].
      * rewrite IH. split; intros [rest E]; exists rest.
        -- rewrite E. reflexivity.
        -- injection E as E. exact E.
      * split; [discriminate|].
        intros [rest E]. injection E as E1 E2. congruence.
Qed.

Lemma includes_occurs_in (s pattern : string) :
  Js.includes s pattern = true <-> occurs_in pattern s.
Proof.
  unfold occurs_in. split.
  - induction s as [|c s IH]; cbn [Js.includes]; rewrite orb_true_iff; intros [H|H].
    + apply prefix_app_iff in H as [rest E]. exists EmptyString, rest. exact E.
    + discriminate H.
    + apply prefix_app_iff in H as [rest E]. exists EmptyString, rest. exact E.
    + destruct (IH H) as (before & after & E).
      exists (String c before), after. simpl. rewrite E. reflexivity.
  - intros (before & after & E). revert s E.
    induction before as [|c before IH]; intros s E.
    + simpl in E.
      assert (Hp : String.prefix pattern s = true)
        by (apply prefix_app_iff; exists after; exact E).
      destruct s; cbn [Js.includes]; rewrite Hp; reflexivity.
    + destruct s as [|d s]; [discriminate E|].
      simpl in E. injection E as E1 E2.
      cbn [Js.includes]. rewrite (IH s E2). apply orb_true_r.
Qed.

Lemma is_video_extension_supported (fileName : string) :
  is_video_extension (Js.toLowerCase (NodePath.extname fileName)) = true
  <-> supported (NodePath.extname fileName).
Proof.
  unfold is_video_extension, supported. rewrite existsb_exists.
  split.
  - intros (x & Hin & E). apply String.eqb_eq in E. subst x. exact Hin.
  - intros Hin. eexists. split; [exact Hin|]. apply String.eqb_refl.
Qed.

Lemma exclude_matches_excludes (fileName pattern : string) :
  exclude_matches (Js.toLowerCase (NodePath.extname fileName)) fileName pattern = true
  <-> excludes pattern fileName.
Proof.
  unfold exclude_matches, excludes.
  destruct (Js.startsWith pattern ".").
  - rewrite String.eqb_eq. split; congruence.
  - apply includes_occurs_in.
Qed.

Lemma isVideoFile_iff (fileName : string) (exclude : list string) :
  isVideoFile fileName exclude = true
  <-> supported (NodePath.extname fileName)
      /\ forall pattern, In pattern exclude -> ~ excludes pattern fileName.
Proof.
  unfold isVideoFile.
  rewrite <- is_video_extension_supported.
  destruct (is_video_extension (Js.toLowerCase (NodePath.extname fileName))); simpl.
  - rewrite negb_true_iff. split.
    + intros Hnone. split; [reflexivity|].
      intros pattern Hin Hex. apply exclude_matches_excludes in Hex.
      assert (Hsome : existsb
                (exclude_matches (Js.toLowerCase (NodePath.extname fileName)) fileName)
                exclude = true)
        by (apply existsb_exists; exists pattern; auto).
      congruence.
    + intros [_ Hall]. apply not_true_is_false. intros Hsome.
      apply existsb_exists in Hsome as (pattern & Hin & Hm).
      apply (Hall pattern Hin). apply exclude_matches_excludes. exact Hm.
  - split; [discriminate | intros [H _]; discriminate H].
Qed.

(** C4 as amended. A pattern that starts with "." excludes the file
    exactly when it is equal, character for character, to the lower-cased
    extension of the file name (the case of the file name does not matter,
    the case of the pattern does); any other pattern excludes the file
    exactly when it occurs, in the same case, in the file name that
    [isVideoFile] receives; a file is a candidate exactly when its
    extension is supported and no pattern excludes it. *)
Theorem C4_exclusion_rule (fileName : string) (exclude : list string) :
  (forall pattern : string,
      exclude_matches (Js.toLowerCase (NodePath.extname fileName)) fileName pattern = true
      <-> excludes pattern fileName)
  /\ (forall pattern : string,
         Js.startsWith pattern "." = true ->
         (excludes pattern fileName
          <-> pattern = Js.toLowerCase (NodePath.extname fileName)))
  /\ (forall pattern : string,
         Js.startsWith pattern "." = false ->
         (excludes pattern fileName <-> occurs_in pattern fileName))
  /\ (isVideoFile fileName exclude = true
      <-> supported (NodePath.extname fileName)
          /\ forall pattern, In pattern exclude -> ~ excludes pattern fileName).
Proof.
  split; [|split; [|split]].
  - intros pattern. apply exclude_matches_excludes.
  - intros pattern H. unfold excludes. rewrite H. reflexivity.
  - intros pattern H. unfold excludes. rewrite H. reflexivity.
  - apply isVideoFile_iff.
Qed.

(** C4 as stated fails: the pattern ".MP4" is equal to the extension of
    [clip.mp4] when case is disregarded, and [clip.mp4] is a candidate all
    the same. *)
Lemma C4_counterexample :
  excludes_as_specified ".MP4" "clip.mp4"
  /\ In ".MP4" [".MP4"]
  /\ isVideoFile "clip.mp4" [".MP4"] = true.
Proof.
  split; [reflexivity|]. split; [left; reflexivity | reflexivity].
Qed.

(** Induction on a directory entry, with the property for every entry of
    a directory. *)
Lemma Dirent_nested_ind (P : Dirent -> Prop) :
  (forall name, P (File name)) ->
  (forall name entries, Forall P entries -> P (Directory name entries)) ->
  (forall name, P (Other name)) ->
  forall entry, P entry.
Proof.
  intros Hfile Hdir Hother.
  fix IH 1. intros [name|name entries|name].
  - apply Hfile.
  - apply Hdir. induction entries as [|e entries IHentries].
    + constructor.
    + constructor; [apply IH | exact IHentries].
  - apply Hother.
Qed.

(** The loop over the entries of a directory pushes, entry by entry, what
    each entry contributes. *)
Lemma scan_loop_flat_map (f : Dirent -> list string -> list string)
  (entries : list Dirent) :
  Forall (fun e => forall acc, f e acc = acc ++ f e []) entries ->
  forall acc,
    fold_left (fun acc e => f e acc) entries acc
    = acc ++ flat_map (fun e => f e []) entries.
Proof.
  induction 1 as [|e entries He _ IH]; intros acc; simpl.
  - symmetry. apply app_nil_r.
  - rewrite IH, He. rewrite <- app_assoc. reflexivity.
Qed.

Lemma scanEntry_pushes (exclude : list string) (entry : Dirent) :
  forall currentDir videoFiles,
    scanEntry exclude currentDir entry videoFiles
    = videoFiles ++ scanEntry exclude currentDir entry [].
Proof.
  induction entry as [name|name entries IH|name] using Dirent_nested_ind;
    intros currentDir videoFiles; simpl.
  - destruct (isVideoFile name exclude); [reflexivity|].
    symmetry. apply app_nil_r.
  - set (f := fun e acc => scanEntry exclude (NodePath.join currentDir name) e acc).
    assert (Hf : Forall (fun e => forall acc, f e acc = acc ++ f e []) entries).
    { eapply List.Forall_impl; [|exact IH]. intros e He acc. apply He. }
    rewrite (scan_loop_flat_map f entries Hf videoFiles).
    rewrite (scan_loop_flat_map f entries Hf []). reflexivity.
  - symmetry. apply app_nil_r.
Qed.

Lemma scan_loop_contents (exclude : list string) (currentDir : string)
  (entries : list Dirent) (videoFiles : list string) :
  fold_left (fun acc e => scanEntry exclude currentDir e acc) entries videoFiles
  = videoFiles ++ flat_map (fun e => scanEntry exclude currentDir e []) entries.
Proof.
  apply (scan_loop_flat_map (fun e acc => scanEntry exclude currentDir e acc)).
  apply List.Forall_forall. intros e _ acc. apply scanEntry_pushes.
Qed.

Lemma file_under_entry (dir : string) (entries : list Dirent) (path name : string) :
  file_under dir entries path name
  <-> exists entry, In entry entries /\ file_under dir [entry] path name.
Proof.
  split.
  - intros H. inversion H as [? ? ? Hin|? ? ? ? ? ? Hin Hsub]; subst.
    + exists (File name). split; [exact Hin|]. apply file_here. left. reflexivity.
    + exists (Directory sub subentries). split; [exact Hin|].
      eapply file_below; [left; reflexivity | exact Hsub].
  - intros (entry & Hin & H).
    inversion H as [? ? ? Hin'|? ? ? ? ? ? Hin' Hsub]; subst;
      destruct Hin' as [->|[]].
    + apply file_here. exact Hin.
    + eapply file_below; eassumption.
Qed.

(** What one entry contributes to the scan. *)
Lemma scanEntry_files (exclude : list string) (entry : Dirent) :
  forall currentDir path,
    In path (scanEntry exclude currentDir entry [])
    <-> exists name,
          isVideoFile name exclude = true
          /\ file_under currentDir [entry] path name.
Proof.
  induction entry as [name|name entries IH|name] using Dirent_nested_ind;
    intros currentDir path; simpl.
  - split.
    + destruct (isVideoFile name exclude) eqn:E; simpl; [|tauto].
      intros [<-|[]]. exists name. split; [exact E|].
      apply file_here. left. reflexivity.
    + intros (name' & Hvideo & Hunder).
      inversion Hunder as [? ? ? Hin|? ? ? ? ? ? Hin _]; subst.
      * destruct Hin as [Hin|[]]. injection Hin as <-.
        rewrite Hvideo. left. reflexivity.
      * destruct Hin as [Hin|[]]. discriminate Hin.
  - rewrite scan_loop_contents. simpl. rewrite in_flat_map.
    rewrite List.Forall_forall in IH. split.
    + intros (e & Hin & Hpath).
      apply (IH e Hin) in Hpath as (name' & Hvideo & Hunder).
      exists name'. split; [exact Hvideo|].
      eapply file_below; [left; reflexivity|].
      apply file_under_entry. exists e. auto.
    + intros (name' & Hvideo & Hunder).
      inversion Hunder as [? ? ? Hin|? ? ? ? ? ? Hin Hsub]; subst;
        destruct Hin as [Hin|[]]; [discriminate Hin|].
      injection Hin as <- <-.
      apply file_under_entry in Hsub as (e & Hin & Hunder_e).
      exists e. split; [exact Hin|].
      apply (IH e Hin). exists name'. auto.
  - split; [intros []|].
    intros (name' & _ & Hunder).
    inversion Hunder as [? ? ? Hin|? ? ? ? ? ? Hin _]; subst;
      destruct Hin as [Hin|[]]; discriminate Hin.
Qed.

Lemma findVideoFiles_files (dir : string) (entries : list Dirent)
  (exclude : list string) (path : string) :
  In path (findVideoFiles dir (Some entries) exclude)
  <-> exists name,
        isVideoFile name exclude = true /\ file_under dir entries path name.
Proof.
  unfold findVideoFiles, scanDirectory.
  rewrite scan_loop_contents. simpl. rewrite in_flat_map. split.
  - intros (e & Hin & Hpath).
    apply scanEntry_files in Hpath as (name & Hvideo & Hunder).
    exists name. split; [exact Hvideo|].
    apply file_under_entry. exists e. auto.
  - intros (name & Hvideo & Hunder).
    apply file_under_entry in Hunder as (e & Hin & Hunder).
    exists e. split; [exact Hin|].
    apply scanEntry_files. exists name. auto.
Qed.

(** C5 as amended. The scan of an existing directory returns exactly the
    paths of the regular files of the tree, at any depth, whose extension
    is one of .mp4, .webm, .mov and .avi without regard to case and that no
    pattern excludes by the rule of the code: a pattern that starts with a
    dot excludes the file when it is equal, as it is written, to the
    lower-cased extension, any other pattern when it occurs in the name.
    The scan of a directory that does not exist returns the empty list. *)
Theorem C5_scan_returns_the_candidates (dir : string) (exclude : list string) :
  (forall (entries : list Dirent) (path : string),
      In path (findVideoFiles dir (Some entries) exclude)
      <-> exists name,
            file_under dir entries path name
            /\ In (Js.toLowerCase (NodePath.extname name))
                  [".mp4"; ".webm"; ".mov"; ".avi"]
            /\ forall pattern, In pattern exclude -> ~ excludes pattern name)
  /\ findVideoFiles dir None exclude = [].
Proof.
  split; [|reflexivity].
  intros entries path. rewrite findVideoFiles_files.
  split; intros (name & H1 & H2); exists name.
  - apply isVideoFile_iff in H1. tauto.
  - split; [apply isVideoFile_iff|]; tauto.
Qed.

(** C5 as stated fails: by the rule of the specification the pattern
    ".MP4" excludes [clip.mp4], whose extension is equal to it when case is
    disregarded, and the scan returns [/out/clip.mp4] all the same. *)
Lemma C5_counterexample :
  file_under "/out" [File "clip.mp4"] "/out/clip.mp4" "clip.mp4"
  /\ In (Js.toLowerCase (NodePath.extname "clip.mp4"))
        [".mp4"; ".webm"; ".mov"; ".avi"]
  /\ In ".MP4" [".MP4"]
  /\ excludes_as_specified ".MP4" "clip.mp4"
  /\ In "/out/clip.mp4" (findVideoFiles "/out" (Some [File "clip.mp4"]) [".MP4"]).
Proof.
  split; [|split; [|split; [|split]]].
  - apply (file_here "/out" [File "clip.mp4"] "clip.mp4"). left. reflexivity.
  - vm_compute. left. reflexivity.
  - left. reflexivity.
  - vm_compute. reflexivity.
  - vm_compute. left. reflexivity.
Qed.

(** ** The state and the operations on files *)


Lemma fs_lookup_insert_ne (fs : FileSystem) (path other data : string) :
  path <> other -> <[path := data]> fs !! other = fs !! other.
Proof. apply (lookup_insert_ne (files fs)). Qed.

Lemma fs_lookup_delete_eq (fs : FileSystem) (path : string) :
  delete path fs !! path = None.
Proof. apply (lookup_delete_eq (files fs)). Qed.

Lemma fs_lookup_delete_ne (fs : FileSystem) (path other : string) :
  path <> other -> delete path fs !! other = fs !! other.
Proof. apply (lookup_delete_ne (files fs)). Qed.

Lemma fs_lookup_write (line : Line) (fs : FileSystem) (path : string) :
  Console.write line fs !! path = fs !! path.
Proof. reflexivity. Qed.

Lemma called_lookup (chunk : list string) :
  forall (fs : FileSystem) (path : string),
    Batched.called chunk fs !! path = fs !! path.
Proof.
  unfold Batched.called.
  induction chunk as [|file chunk IH]; intros fs path; simpl; [reflexivity|].
  rewrite IH. reflexivity.
Qed.



Lemma string_length_app (s1 s2 : string) :
  String.length (s1 +:+ s2) = String.length s1 + String.length s2.
Proof. induction s1 as [|c s1 IH]; simpl; [reflexivity | rewrite IH; reflexivity]. Qed.





(** The ways an operation ends. *)
Lemma stat_cases (path : string) (fs fs' : FileSystem) (result : Result nat) :
  Fs.stat path fs = (result, fs') ->
  fs' = fs
  /\ ((exists data, fs !! path = Some data /\ result = Ok (String.length data))
      \/ (fs !! path = None /\ result = Err Fs.ENOENT)).
Proof.
  unfold Fs.stat. destruct (fs !! path) as [data|];
    intros H; injection H as <- <-; split; eauto.
Qed.

Lemma unlink_cases (path : string) (fs fs' : FileSystem) (result : Result unit) :
  Fs.unlink path fs = (result, fs') ->
  (result = Ok tt /\ fs' = delete path fs
   /\ is_Some (fs !! path) /\ refused fs (Unlink path) = None)
  \/ ((exists e, result = Err e) /\ fs' = fs
      /\ (fs !! path = None \/ is_Some (refused fs (Unlink path)))).
Proof.
  unfold Fs.unlink. destruct (fs !! path) as [data|].
  - destruct (refused fs (Unlink path)) as [e|] eqn:Hr;
      intros H; injection H as <- <-; [right|left]; eauto 10.
  - intros H; injection H as <- <-. right. eauto.
Qed.

Lemma readFile_cases (path : string) (fs fs' : FileSystem) (result : Result string) :
  Fs.readFile path fs = (result, fs') ->
  fs' = fs
  /\ ((exists data, fs !! path = Some data /\ result = Ok data)
      \/ (exists e, result = Err e)).
Proof.
  unfold Fs.readFile. destruct (fs !! path) as [data|].
  - destruct (refused fs (ReadFile path)) as [e|];
      intros H; injection H as <- <-; split; eauto.
  - intros H; injection H as <- <-. split; eauto.
Qed.

Lemma writeFile_cases (path data : string) (fs fs' : FileSystem) (result : Result unit) :
  Fs.writeFile path data fs = (result, fs') ->
  (result = Ok tt /\ fs' = <[path := data]> fs)
  \/ ((exists e, result = Err e) /\ fs' = fs).
Proof.
  unfold Fs.writeFile. destruct (refused fs (WriteFile path data)) as [e|];
    intros H; injection H as <- <-; [right|left]; eauto.
Qed.

(** ** One file, step by step *)

(** A step of the [try] block either goes on to the next operation or,
    when the operation fails, enters the [catch] block: the error line is
    written, and the call returns at once when there is no temporary
    file, or waits for its removal. *)
Lemma resume_cases {A : Type} (fileName tempOutputPath : string) (op : IO A)
  (next : A -> Batched.Stage) (fs fs' : FileSystem) (stage' : Batched.Stage) :
  Batched.resume fileName tempOutputPath op next fs = (stage', fs') ->
  (exists a, op fs = (Ok a, fs') /\ stage' = next a)
  \/ (exists e fs1,
         op fs = (Err e, fs1)
         /\ fs' = Console.write (ErrorOptimizing fileName e) fs1
         /\ ((is_Some (fs1 !! tempOutputPath)
              /\ stage' = Batched.AwaitUnlinkCatch e)
             \/ (fs1 !! tempOutputPath = None
                 /\ stage' = Batched.Settled (Ok (Batched.Failed e))))).
Proof.
  unfold Batched.resume, Batched.caught. destruct (op fs) as [[a|e] fs1].
  - intros H. injection H as <- <-. left. eauto.
  - change (Console.write (ErrorOptimizing fileName e) fs1 !! tempOutputPath)
      with (fs1 !! tempOutputPath).
    destruct (fs1 !! tempOutputPath) as [data|] eqn:E.
    + rewrite bool_decide_eq_true_2 by eauto.
      intros H. injection H as <- <-. right. exists e, fs1. eauto 10.
    + rewrite bool_decide_eq_false_2 by (intros [x Hx]; discriminate Hx).
      intros H. injection H as <- <-. right. exists e, fs1. eauto 10.
Qed.

(** The success line is written by the step that completes the [stat] of
    the output. *)
Lemma stat_output_cases (fileName path : string) (originalSize : nat)
  (fs fs' : FileSystem) (result : Result Sizes) :
  (await optimizedSize <- Fs.stat path ;;
   let sizes := {| originalSize := originalSize; optimizedSize := optimizedSize |} in
   perform Console.log (Optimized fileName sizes) ;;
   ret sizes)%io fs = (result, fs') ->
  (exists data,
      fs !! path = Some data
      /\ result = Ok {| originalSize := originalSize;
                        optimizedSize := String.length data |}
      /\ fs' = Console.write
                 (Optimized fileName
                    {| originalSize := originalSize;
                       optimizedSize := String.length data |}) fs)
  \/ (fs !! path = None /\ result = Err Fs.ENOENT /\ fs' = fs).
Proof.
  unfold bind, Fs.stat, Console.log, ret.
  destruct (fs !! path) as [data|]; intros H; injection H as <- <-; eauto 10.
Qed.

(** Every step of a unit that has not settled brings it closer to its
    end. *)
Lemma step_remaining (engine : Ffmpeg.Engine)
  (options : Batched.OptimizeVideosOptions.t) (videoFile : string)
  (stage stage' : Batched.Stage) (fs fs' : FileSystem) :
  Batched.processFile_step engine options videoFile stage fs = (stage', fs') ->
  Batched.is_settled stage = false ->
  Batched.remaining stage' < Batched.remaining stage.
Proof.
  intros H Hstage. unfold Batched.processFile_step in H.
  destruct stage; try discriminate Hstage;
    try (apply resume_cases in H
           as [(? & ? & ->)|(? & ? & ? & ? & [[? ->]|[? ->]])]; simpl; lia).
  destruct (Fs.unlink _ fs) as [[[]|e] fs1]; injection H as <- <-; simpl; lia.
Qed.


Lemma processFile_steps_settled (engine : Ffmpeg.Engine)
  (options : Batched.OptimizeVideosOptions.t) (videoFile : string) (n : nat)
  (result : Result Batched.Outcome) (fs : FileSystem) :
  Batched.processFile_steps engine options videoFile n (Batched.Settled result) fs
  = (Batched.Settled result, fs).
Proof. induction n as [|n IH]; simpl; [reflexivity | exact IH]. Qed.

(** The [catch] block, step by step and in one go. *)
Lemma steps_caught (engine : Ffmpeg.Engine)
  (options : Batched.OptimizeVideosOptions.t) (videoFile : string) (n : nat)
  (e : string) (fs1 : FileSystem) :
  (let '(stage, fs2) :=
     Batched.caught (NodePath.basename videoFile)
       (Batched.tempOutputPath_of videoFile) e fs1 in
   Batched.processFile_steps engine options videoFile (S n) stage fs2)
  = (let '(result, fs') :=
       Batched.processFile_catch (NodePath.basename videoFile)
         (Batched.tempOutputPath_of videoFile) e fs1 in
     (Batched.Settled result, fs')).
Proof.
  unfold Batched.caught, Batched.processFile_catch, bind, ret, Console.error,
    Fs.existsSync.
  destruct (bool_decide _).
  - cbn [Batched.processFile_steps Batched.processFile_step].
    fold (Batched.tempOutputPath_of videoFile).
    destruct (Fs.unlink _ _) as [[[]|e0] fs2]; apply processFile_steps_settled.
  - apply processFile_steps_settled.
Qed.

Ltac one_step :=
  match goal with
  | |- Batched.processFile_steps ?e ?o ?v (S ?n) ?st ?fs = _ =>
      change (Batched.processFile_steps e o v (S n) st fs)
        with (let '(st', fs') := Batched.processFile_step e o v st fs in
              Batched.processFile_steps e o v n st' fs');
      cbn [Batched.processFile_step]; unfold Batched.resume;
      fold (Batched.tempOutputPath_of v)
  end.

(** Eight steps of a unit on its own, from the line that announces the
    file on, are [processFile]. *)
Lemma processFile_steps_processFile (engine : Ffmpeg.Engine)
  (options : Batched.OptimizeVideosOptions.t) (videoFile : string) (fs : FileSystem) :
  Batched.processFile_steps engine options videoFile 8 Batched.AwaitStatInput
    (Batched.called [videoFile] fs)
  = let '(result, fs') := Batched.processFile engine options videoFile fs in
    (Batched.Settled result, fs').
Proof.
  unfold Batched.processFile, try_catch, Batched.processFile_try,
    Batched.optimizeVideo, Batched.called.
  fold (Batched.tempOutputPath_of videoFile).
  cbn [fold_left]. unfold bind, ret, Console.log.
  set (fs0 := Console.write (Optimizing (NodePath.basename videoFile)) fs).
  one_step.
  destruct (Fs.stat videoFile fs0) as [[originalSize|e] fs1];
    cbv beta iota zeta; [|apply steps_caught].
  one_step.
  destruct (engine _ fs1) as [[[]|e] fs2];
    cbv beta iota zeta; [|apply steps_caught].
  one_step. unfold bind, ret, Console.log.
  destruct (Fs.stat _ fs2) as [[optimizedSize|e] fs3];
    cbv beta iota zeta; [|apply steps_caught].
  one_step.
  destruct (Fs.unlink videoFile _) as [[[]|e] fs4];
    cbv beta iota zeta; [|apply steps_caught].
  one_step.
  destruct (Fs.readFile _ fs4) as [[data|e] fs5];
    cbv beta iota zeta; [|apply steps_caught].
  one_step.
  destruct (Fs.writeFile videoFile data fs5) as [[[]|e] fs6];
    cbv beta iota zeta; [|apply steps_caught].
  one_step.
  destruct (Fs.unlink _ fs6) as [[[]|e] fs7];
    cbv beta iota zeta; [|apply (steps_caught engine options videoFile 0)].
  reflexivity.
Qed.

(** ** The chunks *)

Lemma ceil_div_zero (c : nat) : 1 <= c -> ceil_div 0 c = 0.
Proof. intros Hc. unfold ceil_div. apply Nat.div_small. lia. Qed.

Lemma ceil_div_step (m c : nat) :
  0 < m -> 1 <= c -> ceil_div m c = S (ceil_div (m - c) c).
Proof.
  intros Hm Hc. unfold ceil_div.
  destruct (le_lt_dec m c) as [Hle|Hlt].
  - replace (m - c + c - 1) with (c - 1) by lia.
    rewrite (Nat.div_small (c - 1) c) by lia.
    symmetry. apply (Nat.div_unique (m + c - 1) c 1 (m - 1)); lia.
  - replace (m + c - 1) with ((m - c + c - 1) + 1 * c) by lia.
    rewrite Nat.div_add by lia. lia.
Qed.

Lemma ceil_div_positive (m c : nat) : 1 <= c -> 0 < ceil_div m c -> 0 < m.
Proof.
  intros Hc H. destruct m; [|lia].
  rewrite ceil_div_zero in H by exact Hc. lia.
Qed.

(** With enough fuel the loop returns, and what it has pushed is a
    partition in order of the rest of the list into full chunks and
    possibly a shorter last one. *)
Lemma chunk_loop_spec (videoFiles : list string) (c : nat) :
  1 <= c ->
  forall (fuel i : nat) (acc : list (list string)),
    length videoFiles - i < fuel ->
    exists rest : list (list string),
      Batched.chunk_loop fuel videoFiles c i acc = Some (acc ++ rest)
      /\ concat rest = skipn i videoFiles
      /\ length rest = ceil_div (length videoFiles - i) c
      /\ forall g chunk,
           rest !! g = Some chunk ->
           0 < length chunk <= c /\ (S g < length rest -> length chunk = c).
Proof.
  intros Hc. induction fuel as [|fuel IH]; intros i acc Hfuel; [lia|].
  simpl. destruct (i <? length videoFiles)%nat eqn:E.
  - apply Nat.ltb_lt in E.
    destruct (IH (i + c) (acc ++ [Js.slice videoFiles i (i + c)]) ltac:(lia))
      as (rest & Hloop & Hconcat & Hlength & Hchunks).
    assert (Hslice : Js.slice videoFiles i (i + c) = firstn c (skipn i videoFiles)).
    { unfold Js.slice. f_equal. lia. }
    assert (Hlen : length (Js.slice videoFiles i (i + c))
                   = Nat.min c (length videoFiles - i)).
    { rewrite Hslice. rewrite length_take, length_drop. reflexivity. }
    exists (Js.slice videoFiles i (i + c) :: rest). repeat split.
    + rewrite Hloop. rewrite <- app_assoc. reflexivity.
    + simpl. rewrite Hconcat, Hslice.
      replace (i + c) with (c + i) by lia.
      rewrite <- List.skipn_skipn. apply List.firstn_skipn.
    + simpl. rewrite Hlength.
      rewrite (ceil_div_step (length videoFiles - i) c) by lia.
      do 2 f_equal. lia.
    + destruct g as [|g]; simpl in H.
      * injection H as <-. rewrite Hlen. lia.
      * apply Hchunks in H. lia.
    + destruct g as [|g]; simpl in H.
      * injection H as <-. rewrite Hlen. lia.
      * apply Hchunks in H. lia.
    + destruct g as [|g]; simpl in H; simpl; intros Hlast.
      * injection H as <-. rewrite Hlen.
        assert (0 < length videoFiles - (i + c)).
        { apply (ceil_div_positive _ c Hc). lia. }
        lia.
      * apply Hchunks in H. apply H. lia.
  - apply Nat.ltb_ge in E. exists []. repeat split.
    + rewrite app_nil_r. reflexivity.
    + simpl. symmetry. apply drop_ge. exact E.
    + simpl. replace (length videoFiles - i) with 0 by lia.
      symmetry. apply ceil_div_zero. exact Hc.
    + rewrite lookup_nil in H. discriminate H.
    + rewrite lookup_nil in H. discriminate H.
    + rewrite lookup_nil in H. discriminate H.
Qed.

(** More fuel does not change what the loop returns. *)
Lemma chunk_loop_more_fuel (videoFiles : list string) (c : nat) :
  forall (fuel fuel' i : nat) (acc chunks : list (list string)),
    Batched.chunk_loop fuel videoFiles c i acc = Some chunks ->
    fuel <= fuel' ->
    Batched.chunk_loop fuel' videoFiles c i acc = Some chunks.
Proof.
  induction fuel as [|fuel IH]; intros fuel' i acc chunks H Hle; [discriminate H|].
  destruct fuel' as [|fuel']; [lia|].
  simpl in *. destruct (i <? length videoFiles)%nat; [|exact H].
  apply (IH fuel'); [exact H | lia].
Qed.

(** The chunks of [closeBundle]: for a concurrency of at least 1 the loop
    returns with [length videoFiles + 1] tests of its condition. *)
Lemma chunks_of_spec (videoFiles : list string) (c : nat) :
  1 <= c ->
  exists chunks : list (list string),
    (forall fuel, length videoFiles < fuel ->
                  Batched.chunks_of fuel videoFiles c = Some chunks)
    /\ concat chunks = videoFiles
    /\ length chunks = ceil_div (length videoFiles) c
    /\ forall g chunk,
         chunks !! g = Some chunk ->
         0 < length chunk <= c /\ (S g < length chunks -> length chunk = c).
Proof.
  intros Hc.
  destruct (chunk_loop_spec videoFiles c Hc (S (length videoFiles)) 0 [] ltac:(lia))
    as (chunks & Hloop & Hconcat & Hlength & Hchunks).
  exists chunks. repeat split.
  - intros fuel Hfuel. unfold Batched.chunks_of.
    apply (chunk_loop_more_fuel videoFiles c (S (length videoFiles)));
      [exact Hloop | lia].
  - exact Hconcat.
  - rewrite Hlength. f_equal. lia.
  - apply Hchunks in H. lia.
  - apply Hchunks in H. lia.
  - apply Hchunks in H. tauto.
Qed.

(** ** The scheduler *)

Lemma lookup_map_Some {A B : Type} (f : A -> B) (l : list A) (k : nat) (y : B) :
  map f l !! k = Some y -> exists x, l !! k = Some x /\ y = f x.
Proof.
  revert k. induction l as [|a l IH]; intros [|k] H; simpl in H; try discriminate H.
  - injection H as <-. exists a. auto.
  - apply IH. exact H.
Qed.

Lemma map_insert_same {A B : Type} (f : A -> B) (l : list A) (k : nat) (x y : A) :
  l !! k = Some x -> f y = f x -> map f (<[k := y]> l) = map f l.
Proof.
  revert k. induction l as [|a l IH]; intros [|k] H Hf; simpl in *; try discriminate H.
  - injection H as ->. rewrite Hf. reflexivity.
  - f_equal. apply IH; assumption.
Qed.

Lemma skipn_cons_lookup {A : Type} (n : nat) (l : list A) (x : A) (rest : list A) :
  skipn n l = x :: rest -> l !! n = Some x /\ skipn (S n) l = rest.
Proof.
  revert l. induction n as [|n IH]; intros [|a l] H; simpl in H; try discriminate H.
  - injection H as -> ->. auto.
  - apply IH in H. exact H.
Qed.

Lemma fulfilled_lookup (units : list Batched.Unit) (k : nat) (u : Batched.Unit) :
  forallb (fun u => Batched.is_fulfilled (Batched.stage u)) units = true ->
  units !! k = Some u ->
  exists outcome, Batched.stage u = Batched.Settled (Ok outcome).
Proof.
  revert k. induction units as [|a units IH]; intros [|k] Hall H;
    simpl in *; try discriminate H; apply andb_prop in Hall as [Ha Hall].
  - injection H as <-. destruct (Batched.stage a) as [| | | | | | | |[o|e]];
      try discriminate Ha. eauto.
  - eapply IH; eassumption.
Qed.

Lemma launch_videoFile (chunk : list string) :
  map Batched.videoFile (Batched.launch chunk) = chunk.
Proof.
  unfold Batched.launch. rewrite map_map. simpl. apply map_id.
Qed.

Lemma launch_stage (chunk : list string) (k : nat) (u : Batched.Unit) :
  Batched.launch chunk !! k = Some u -> Batched.stage u = Batched.AwaitStatInput.
Proof.
  unfold Batched.launch. intros H.
  apply lookup_map_Some in H as (file & _ & ->). reflexivity.
Qed.

Lemma started_events_group (g n i g' k : nat) :
  map (Batched.Started g) (seq 0 n) !! i = Some (Batched.Started g' k) -> g' = g.
Proof.
  intros H. apply lookup_map_Some in H as (x & _ & E). congruence.
Qed.

Lemma started_events_lookup (g n k : nat) :
  k < n -> map (Batched.Started g) (seq 0 n) !! k = Some (Batched.Started g k).
Proof.
  intros Hk. change (map (Batched.Started g) (seq 0 n))
    with (Batched.Started g <$> seq 0 n).
  rewrite list_lookup_fmap. rewrite lookup_seq_lt by exact Hk. reflexivity.
Qed.

Lemma finished_event_not_started (g k i g' k' : nat) (stage : Batched.Stage) :
  Batched.finished_event g k stage !! i <> Some (Batched.Started g' k').
Proof.
  destruct stage; simpl; try (rewrite lookup_nil; discriminate).
  destruct i; simpl; [discriminate | rewrite lookup_nil; discriminate].
Qed.

Lemma finished_before_app (t extra : list Batched.Event) (i g k : nat) :
  finished_before t i g k -> finished_before (t ++ extra) i g k.
Proof.
  intros (j & outcome & Hj & H). exists j, outcome.
  split; [exact Hj|]. apply lookup_app_l_Some. exact H.
Qed.

(** Once [Promise.all] is fulfilled, every file of every chunk taken so
    far has reached a terminal state. *)
Lemma finished_up_to_current (chunks : list (list string)) (b : Batched.Batch) :
  batch_inv chunks b ->
  forallb (fun u => Batched.is_fulfilled (Batched.stage u)) (Batched.running b) = true ->
  forall g chunk k file,
    g < Batched.launched b ->
    chunks !! g = Some chunk ->
    chunk !! k = Some file ->
    exists j outcome,
      Batched.trace b !! j = Some (Batched.Finished g k (Ok outcome)).
Proof.
  intros [Hp Hr Hc He Hs Hst] Hall g chunk k file Hg Hchunk Hfile.
  destruct (decide (S g < Batched.launched b)) as [Hlt|Hge].
  - eapply He; eassumption.
  - assert (Hcur : Batched.launched b = S g) by lia.
    rewrite Hcur in Hr. rewrite Hr in Hchunk. injection Hchunk as <-.
    apply lookup_map_Some in Hfile as (u & Hu & _).
    destruct (fulfilled_lookup _ _ _ Hall Hu) as [outcome Hstage].
    destruct (Hc k u _ Hu Hstage) as [j Hj].
    rewrite Hcur in Hj. simpl in Hj. eauto.
Qed.

Lemma batch_inv_initial (chunks : list (list string)) (fs : FileSystem) :
  batch_inv chunks (Batched.initial fs chunks).
Proof.
  constructor; simpl.
  - reflexivity.
  - reflexivity.
  - intros k u result H. rewrite lookup_nil in H. discriminate H.
  - intros g chunk k file H. lia.
  - intros i g k H. rewrite lookup_nil in H. discriminate H.
  - intros g chunk k file H. lia.
Qed.

Lemma batch_inv_launch (chunks : list (list string)) (b : Batched.Batch)
  (chunk : list string) (rest : list (list string)) :
  batch_inv chunks b ->
  forallb (fun u => Batched.is_fulfilled (Batched.stage u)) (Batched.running b) = true ->
  Batched.pending b = chunk :: rest ->
  batch_inv chunks (Batched.launch_next b chunk rest).
Proof.
  intros Hinv Hall Hpending.
  pose proof (finished_up_to_current chunks b Hinv Hall) as Hdone.
  destruct Hinv as [Hp Hr Hc He Hs Hst].
  rewrite Hp in Hpending. apply skipn_cons_lookup in Hpending as [Hchunk Hrest].
  constructor; simpl.
  - symmetry. exact Hrest.
  - rewrite launch_videoFile. exact Hchunk.
  - intros k u result H Hstage. rewrite (launch_stage _ _ _ H) in Hstage.
    discriminate Hstage.
  - intros g chunk' k file Hg Hchunk' Hfile.
    destruct (Hdone g chunk' k file ltac:(lia) Hchunk' Hfile) as (j & outcome & Hj).
    exists j, outcome. apply lookup_app_l_Some. exact Hj.
  - intros i g k Hi g' chunk' k' file Hg' Hchunk' Hfile.
    apply lookup_app_Some in Hi as [Hi|[Hlen Hi]].
    + apply finished_before_app. eapply Hs; eassumption.
    + apply started_events_group in Hi. subst g.
      destruct (Hdone g' chunk' k' file Hg' Hchunk' Hfile) as (j & outcome & Hj).
      exists j, outcome. split.
      * apply lookup_lt_Some in Hj. lia.
      * apply lookup_app_l_Some. exact Hj.
  - intros g chunk' k file Hg Hchunk' Hfile.
    destruct (decide (g < Batched.launched b)) as [Hlt|Hge].
    + destruct (Hst g chunk' k file Hlt Hchunk' Hfile) as [i Hi].
      exists i. apply lookup_app_l_Some. exact Hi.
    + assert (g = Batched.launched b) by lia. subst g.
      rewrite Hchunk in Hchunk'. injection Hchunk' as <-.
      exists (length (Batched.trace b) + k).
      rewrite lookup_app_r by lia.
      replace (length (Batched.trace b) + k - length (Batched.trace b)) with k by lia.
      apply started_events_lookup. eapply lookup_lt_Some. exact Hfile.
Qed.

Lemma batch_inv_advance (engine : Ffmpeg.Engine)
  (options : Batched.OptimizeVideosOptions.t) (chunks : list (list string))
  (b : Batched.Batch) (k : nat) (u : Batched.Unit) :
  batch_inv chunks b ->
  Batched.running b !! k = Some u ->
  Batched.is_settled (Batched.stage u) = false ->
  batch_inv chunks (Batched.advance engine options b k u).
Proof.
  intros [Hp Hr Hc He Hs Hst] Hu Hsettled. unfold Batched.advance.
  destruct (Batched.processFile_step engine options (Batched.videoFile u)
              (Batched.stage u) (Batched.store b)) as [stage' fs'] eqn:Hstep.
  pose proof (lookup_lt_Some _ _ _ Hu) as Hk.
  constructor; simpl.
  - exact Hp.
  - destruct (Batched.launched b) as [|g].
    + rewrite Hr in Hu. rewrite lookup_nil in Hu. discriminate Hu.
    + rewrite (map_insert_same Batched.videoFile _ k u); [exact Hr | exact Hu | reflexivity].
  - intros k0 u0 result H Hstage.
    destruct (decide (k = k0)) as [->|Hne].
    + rewrite list_lookup_insert_eq in H by exact Hk. injection H as <-.
      simpl in Hstage. subst stage'. simpl.
      exists (length (Batched.trace b)).
      rewrite lookup_app_r by lia. rewrite Nat.sub_diag. reflexivity.
    + rewrite list_lookup_insert_ne in H by exact Hne.
      destruct (Hc k0 u0 result H Hstage) as [j Hj].
      exists j. apply lookup_app_l_Some. exact Hj.
  - intros g chunk k0 file Hg Hchunk Hfile.
    destruct (He g chunk k0 file Hg Hchunk Hfile) as (j & outcome & Hj).
    exists j, outcome. apply lookup_app_l_Some. exact Hj.
  - intros i g k0 Hi g' chunk' k' file Hg' Hchunk' Hfile.
    apply lookup_app_Some in Hi as [Hi|[_ Hi]].
    + apply finished_before_app. eapply Hs; eassumption.
    + exfalso. eapply finished_event_not_started. exact Hi.
  - intros g chunk k0 file Hg Hchunk Hfile.
    destruct (Hst g chunk k0 file Hg Hchunk Hfile) as [i Hi].
    exists i. apply lookup_app_l_Some. exact Hi.
Qed.

Lemma batch_inv_step (engine : Ffmpeg.Engine)
  (options : Batched.OptimizeVideosOptions.t) (chunks : list (list string))
  (b b' : Batched.Batch) :
  batch_inv chunks b ->
  Batched.batch_step engine options b b' ->
  batch_inv chunks b'.
Proof.
  intros Hinv Hstep. destruct Hstep as [b chunk rest Hall Hpending|b k u Hu Hsettled].
  - apply batch_inv_launch; assumption.
  - apply batch_inv_advance; assumption.
Qed.

Lemma batch_inv_reachable (engine : Ffmpeg.Engine)
  (options : Batched.OptimizeVideosOptions.t) (chunks : list (list string))
  (fs : FileSystem) (b : Batched.Batch) :
  Batched.reachable engine options (Batched.initial fs chunks) b ->
  batch_inv chunks b.
Proof.
  induction 1 as [|b b' _ IH Hstep].
  - apply batch_inv_initial.
  - eapply batch_inv_step; eassumption.
Qed.

(** *** Every schedule ends, and ends with the batch completed *)





Lemma first_unsettled_Some (units : list Batched.Unit) (k0 k : nat) (u : Batched.Unit) :
  Batched.first_unsettled units k0 = Some (k, u) ->
  k0 <= k /\ units !! (k - k0) = Some u /\ Batched.is_settled (Batched.stage u) = false.
Proof.
  revert k0. induction units as [|a units IH]; intros k0 H; simpl in H; [discriminate H|].
  destruct (Batched.is_settled (Batched.stage a)) eqn:E.
  - apply IH in H as (Hle & Hu & Hs). split; [lia|]. split; [|exact Hs].
    replace (k - k0) with (S (k - S k0)) by lia. exact Hu.
  - injection H as <- <-. rewrite Nat.sub_diag. auto.
Qed.




(** The move that the first-unit schedule picks is a move of the batch. *)
Lemma schedule_first_step (engine : Ffmpeg.Engine)
  (options : Batched.OptimizeVideosOptions.t) (b b' : Batched.Batch) :
  Batched.schedule_first engine options b = Some b' ->
  Batched.batch_step engine options b b'.
Proof.
  unfold Batched.schedule_first.
  destruct (Batched.first_unsettled (Batched.running b) 0) as [[k u]|] eqn:E.
  - intros H. injection H as <-.
    apply first_unsettled_Some in E as (_ & Hu & Hs).
    rewrite Nat.sub_0_r in Hu. apply Batched.step_advance; assumption.
  - destruct (forallb _ (Batched.running b)) eqn:Hall; [|discriminate].
    destruct (Batched.pending b) as [|chunk rest] eqn:Hp; [discriminate|].
    intros H. injection H as <-. apply Batched.step_launch; assumption.
Qed.



Lemma run_first_reachable (engine : Ffmpeg.Engine)
  (options : Batched.OptimizeVideosOptions.t) (b0 : Batched.Batch) (n : nat) :
  forall b,
    Batched.reachable engine options b0 b ->
    Batched.reachable engine options b0 (Batched.run_first engine options n b).
Proof.
  induction n as [|n IH]; intros b Hb; simpl; [exact Hb|].
  destruct (Batched.schedule_first engine options b) as [b'|] eqn:E; [|exact Hb].
  apply IH. eapply Batched.reachable_step; [exact Hb|].
  apply schedule_first_step. exact E.
Qed.



(** C1. For a concurrency of at least 1 the loop of [closeBundle] returns
    the chunks: their concatenation is the list of candidates, there are
    ceil(n/c) of them, each has at most c files and only the last one may
    have fewer. The chunks are processed strictly in sequence: in every
    batch that [closeBundle] can reach, under every interleaving of the
    files of a chunk, a file of a chunk is started only after every file
    of every earlier chunk has reached a terminal state, and in a completed
    batch every file has been started. Five candidates with concurrency 2
    give chunks of sizes 2, 2 and 1. *)
Theorem C1_chunks_processed_in_sequence (engine : Ffmpeg.Engine)
  (options : Batched.OptimizeVideosOptions.t) (videoFiles : list string)
  (fs : FileSystem) :
  1 <= Batched.concurrency_of options ->
  exists chunks : list (list string),
    (forall fuel,
        length videoFiles < fuel ->
        Batched.chunks_of fuel videoFiles (Batched.concurrency_of options)
        = Some chunks)
    /\ concat chunks = videoFiles
    /\ length chunks = ceil_div (length videoFiles) (Batched.concurrency_of options)
    /\ (forall g chunk,
           chunks !! g = Some chunk ->
           0 < length chunk <= Batched.concurrency_of options
           /\ (S g < length chunks ->
               length chunk = Batched.concurrency_of options))
    /\ (forall b,
           Batched.reachable engine options (Batched.initial fs chunks) b ->
           sequential chunks (Batched.trace b))
    /\ (forall b,
           Batched.reachable engine options (Batched.initial fs chunks) b ->
           Batched.completed b = true ->
           forall g chunk k file,
             chunks !! g = Some chunk ->
             chunk !! k = Some file ->
             exists i, Batched.trace b !! i = Some (Batched.Started g k))
    /\ (length videoFiles = 5 ->
        Batched.concurrency_of options = 2 ->
        map (@length string) chunks = [2; 2; 1]).
Proof.
  intros Hc.
  destruct (chunks_of_spec videoFiles (Batched.concurrency_of options) Hc)
    as (chunks & Hfuel & Hconcat & Hlength & Hchunks).
  exists chunks.
  split; [exact Hfuel|]. split; [exact Hconcat|]. split; [exact Hlength|].
  split; [exact Hchunks|]. split; [|split].
  - intros b Hb. apply (inv_sequential chunks b).
    eapply batch_inv_reachable. exact Hb.
  - intros b Hb Hdone g chunk k file Hchunk Hfile.
    pose proof (batch_inv_reachable _ _ _ _ _ Hb) as Hinv.
    eapply (inv_started chunks b Hinv); [|eassumption|eassumption].
    unfold Batched.completed in Hdone.
    destruct (Batched.pending b) as [|c rest] eqn:Hp; [|discriminate Hdone].
    rewrite (inv_pending _ _ Hinv) in Hp.
    apply (f_equal (@length _)) in Hp. rewrite length_drop in Hp. simpl in Hp.
    apply lookup_lt_Some in Hchunk. lia.
  - intros Hfive Htwo.
    specialize (Hfuel 6 ltac:(lia)). rewrite Htwo in Hfuel.
    destruct videoFiles as [|f1 [|f2 [|f3 [|f4 [|f5 [|f6 rest]]]]]];
      try discriminate Hfive.
    injection Hfuel as <-. reflexivity.
Qed.

Lemma C1_chunks_processed_in_sequence_witness :
  exists chunks : list (list string),
    Batched.chunks_of 6 five_files 2 = Some chunks
    /\ map (@length string) chunks = [2; 2; 1]
    /\ sequential chunks
         (Batched.trace
            (Batched.run_first sample_engine two_at_a_time 40
               (Batched.initial sample_store chunks))).
Proof.
  assert (Hc : 1 <= Batched.concurrency_of two_at_a_time)
    by (unfold Batched.concurrency_of; simpl; lia).
  destruct (C1_chunks_processed_in_sequence sample_engine two_at_a_time
              five_files sample_store Hc)
    as (chunks & Hfuel & _ & _ & _ & Hseq & _ & Hsizes).
  exists chunks. split; [|split].
  - apply (Hfuel 6). simpl. lia.
  - apply Hsizes; reflexivity.
  - apply Hseq. apply run_first_reachable. apply Batched.reachable_refl.
Defined.

Lemma running_is_a_chunk (chunks : list (list string)) (b : Batched.Batch) :
  batch_inv chunks b ->
  Batched.running b = []
  \/ exists g, chunks !! g = Some (map Batched.videoFile (Batched.running b)).
Proof.
  intros Hinv. pose proof (inv_running _ _ Hinv) as H.
  destruct (Batched.launched b) as [|g]; [left; exact H | right; eauto].
Qed.

Lemma running_owned (chunks : list (list string)) (b : Batched.Batch)
  (k : nat) (u : Batched.Unit) :
  batch_inv chunks b ->
  Batched.running b !! k = Some u ->
  exists chunk, In chunk chunks /\ In (Batched.videoFile u) chunk.
Proof.
  intros Hinv Hu.
  destruct (running_is_a_chunk chunks b Hinv) as [Hnil|[g Hg]].
  - rewrite Hnil in Hu. rewrite lookup_nil in Hu. discriminate Hu.
  - exists (map Batched.videoFile (Batched.running b)). split.
    + apply list_elem_of_In. eapply list_elem_of_lookup_2. exact Hg.
    + apply in_map. apply list_elem_of_In. eapply list_elem_of_lookup_2. exact Hu.
Qed.

(** ** What a step changes *)

Lemma confined_frame (engine : Ffmpeg.Engine) :
  engine_confined engine -> engine_frame engine.
Proof.
  intros H cmd fs fs' result Hrun. destruct (H _ _ _ _ Hrun) as [Hframe _].
  exact Hframe.
Qed.

Lemma changes_refl (paths : list string) (fs : FileSystem) :
  changes_at_most paths fs fs.
Proof.
  split; [reflexivity|]. split; [reflexivity|].
  exists []. symmetry. apply app_nil_r.
Qed.

Lemma changes_trans (paths : list string) (fs fs1 fs2 : FileSystem) :
  changes_at_most paths fs fs1 ->
  changes_at_most paths fs1 fs2 ->
  changes_at_most paths fs fs2.
Proof.
  intros (H1 & R1 & l1 & C1) (H2 & R2 & l2 & C2). split; [|split].
  - intros path Hpath. rewrite (H2 path Hpath). apply H1. exact Hpath.
  - congruence.
  - exists (l1 ++ l2). rewrite C2, C1. symmetry. apply app_assoc.
Qed.

Lemma changes_write (paths : list string) (line : Line) (fs : FileSystem) :
  changes_at_most paths fs (Console.write line fs).
Proof.
  split; [reflexivity|]. split; [reflexivity|]. exists [line]. reflexivity.
Qed.

Lemma changes_delete (paths : list string) (path : string) (fs : FileSystem) :
  In path paths -> changes_at_most paths fs (delete path fs).
Proof.
  intros Hin. split; [|split; [reflexivity|]].
  - intros other Hother. apply fs_lookup_delete_ne. intros ->. exact (Hother Hin).
  - exists []. symmetry. apply app_nil_r.
Qed.

Lemma changes_insert (paths : list string) (path data : string) (fs : FileSystem) :
  In path paths -> changes_at_most paths fs (<[path := data]> fs).
Proof.
  intros Hin. split; [|split; [reflexivity|]].
  - intros other Hother. apply fs_lookup_insert_ne. intros ->. exact (Hother Hin).
  - exists []. symmetry. apply app_nil_r.
Qed.

Lemma unlink_changes (paths : list string) (path : string) (fs fs' : FileSystem)
  (result : Result unit) :
  In path paths ->
  Fs.unlink path fs = (result, fs') ->
  changes_at_most paths fs fs'.
Proof.
  intros Hin H.
  apply unlink_cases in H as [(_ & -> & _)|(_ & -> & _)];
    [apply changes_delete; exact Hin | apply changes_refl].
Qed.

Lemma writeFile_changes (paths : list string) (path data : string)
  (fs fs' : FileSystem) (result : Result unit) :
  In path paths ->
  Fs.writeFile path data fs = (result, fs') ->
  changes_at_most paths fs fs'.
Proof.
  intros Hin H.
  apply writeFile_cases in H as [(_ & ->)|(_ & ->)];
    [apply changes_insert; exact Hin | apply changes_refl].
Qed.

Lemma engine_changes (engine : Ffmpeg.Engine) (paths : list string)
  (cmd : Ffmpeg.Command) (fs fs' : FileSystem) (result : Result unit) :
  engine_confined engine ->
  In (Ffmpeg.output cmd) paths ->
  engine cmd fs = (result, fs') ->
  changes_at_most paths fs fs'.
Proof.
  intros Hconfined Hin H.
  destruct (Hconfined _ _ _ _ H) as (Hframe & Hrefused & Hconsole).
  split; [|split; [exact Hrefused|]].
  - intros path Hpath. apply Hframe. intros ->. exact (Hpath Hin).
  - exists []. rewrite Hconsole. symmetry. apply app_nil_r.
Qed.

Lemma resume_changes {A : Type} (paths : list string) (fileName tempOutputPath : string)
  (op : IO A) (next : A -> Batched.Stage) (fs fs' : FileSystem)
  (stage' : Batched.Stage) :
  (forall result fs1, op fs = (result, fs1) -> changes_at_most paths fs fs1) ->
  Batched.resume fileName tempOutputPath op next fs = (stage', fs') ->
  changes_at_most paths fs fs'.
Proof.
  intros Hop H.
  apply resume_cases in H as [(a & Ha & _)|(e & fs1 & He & -> & _)].
  - eapply Hop. exact Ha.
  - eapply changes_trans; [eapply Hop; exact He | apply changes_write].
Qed.

(** With a confined engine, a step of a call changes at most the file
    at its path and the file at its temporary path, refuses nothing new
    and only adds lines to the console. *)
Lemma step_confined (engine : Ffmpeg.Engine)
  (options : Batched.OptimizeVideosOptions.t) (videoFile : string)
  (stage stage' : Batched.Stage) (fs fs' : FileSystem) :
  engine_confined engine ->
  Batched.processFile_step engine options videoFile stage fs = (stage', fs') ->
  changes_at_most [videoFile; Batched.tempOutputPath_of videoFile] fs fs'.
Proof.
  intros Hconfined Hstep.
  unfold Batched.processFile_step in Hstep.
  fold (Batched.tempOutputPath_of videoFile) in Hstep.
  assert (Hfile : In videoFile [videoFile; Batched.tempOutputPath_of videoFile])
    by (left; reflexivity).
  assert (Htemp : In (Batched.tempOutputPath_of videoFile)
                     [videoFile; Batched.tempOutputPath_of videoFile])
    by (right; left; reflexivity).
  destruct stage;
    try (eapply resume_changes; [|exact Hstep]; clear Hstep; intros result fs1 Hop).
  - apply stat_cases in Hop as [-> _]. apply changes_refl.
  - eapply engine_changes; [exact Hconfined | | exact Hop]. exact Htemp.
  - apply stat_output_cases in Hop as [(data & _ & _ & ->)|(_ & _ & ->)];
      [apply changes_write | apply changes_refl].
  - eapply unlink_changes; [exact Hfile | exact Hop].
  - apply readFile_cases in Hop as [-> _]. apply changes_refl.
  - eapply writeFile_changes; [exact Hfile | exact Hop].
  - eapply unlink_changes; [exact Htemp | exact Hop].
  - destruct (Fs.unlink _ fs) as [[[]|e] fs1] eqn:Hop; injection Hstep as <- <-;
      (eapply unlink_changes; [exact Htemp | exact Hop]).
  - injection Hstep as <- <-. apply changes_refl.
Qed.



(** ** Files that own distinct paths *)





(** ** No call is rejected when its temporary file is its own *)





(** ** A rejected call stops the loop over the chunks *)



(** ** The error lines *)




(** ** Failures of one file *)




Lemma sample_engine_confined : engine_confined sample_engine.
Proof.
  intros cmd fs fs' result. unfold sample_engine.
  destruct (String.eqb (Ffmpeg.input cmd) "/out/b.webm");
    intros H; injection H as <- <-; (split; [|split; reflexivity]);
    intros path Hne; apply fs_lookup_insert_ne; congruence.
Qed.






(** ** The replacement *)











(** * Further properties *)

(** ** The chunk loop at its bounds *)

Lemma chunk_loop_zero (videoFiles : list string) :
  videoFiles <> [] ->
  forall (fuel : nat) (chunks : list (list string)),
    Batched.chunk_loop fuel videoFiles 0 0 chunks = None.
Proof.
  intros Hne. induction fuel as [|fuel IH]; intros chunks; simpl; [reflexivity|].
  destruct videoFiles as [|f rest]; [contradiction|]. simpl. apply IH.
Qed.

(** X1. With a concurrency of 0 and at least one candidate the chunk loop
    of [closeBundle] never returns: its counter does not advance, whatever
    the number of tests allowed. With no candidate it returns no chunk at
    its first test, whatever the concurrency. *)
Theorem chunk_loop_never_returns_for_zero (videoFiles : list string) :
  (videoFiles <> [] ->
   forall fuel, Batched.chunks_of fuel videoFiles 0 = None)
  /\ (forall fuel concurrency,
         Batched.chunks_of (S fuel) [] concurrency = Some []).
Proof.
  split.
  - intros Hne fuel. apply chunk_loop_zero. exact Hne.
  - intros fuel concurrency. reflexivity.
Qed.

Lemma chunk_loop_never_returns_for_zero_witness :
  Batched.chunks_of 1000 five_files 0 = None.
Proof.
  apply (proj1 (chunk_loop_never_returns_for_zero five_files)).
  discriminate.
Defined.

(** ** Bounded parallelism *)

Lemma filter_length_le {A : Type} (f : A -> bool) (l : list A) :
  length (List.filter f l) <= length l.
Proof.
  induction l as [|a l IH]; simpl; [lia|]. destruct (f a); simpl; lia.
Qed.

(** X2. In every batch that [closeBundle] can reach, under every
    interleaving, the calls of [processFile] that have not settled are at
    most [concurrency] many. *)
Theorem at_most_concurrency_in_flight (engine : Ffmpeg.Engine)
  (options : Batched.OptimizeVideosOptions.t) (videoFiles : list string)
  (fs : FileSystem) (chunks : list (list string)) (b : Batched.Batch) :
  1 <= Batched.concurrency_of options ->
  Batched.chunks_of (S (length videoFiles)) videoFiles (Batched.concurrency_of options)
  = Some chunks ->
  Batched.reachable engine options (Batched.initial fs chunks) b ->
  in_flight b <= length (Batched.running b)
  /\ length (Batched.running b) <= Batched.concurrency_of options.
Proof.
  intros Hc Hchunks Hb. split.
  - unfold in_flight. apply filter_length_le.
  - destruct (chunks_of_spec videoFiles (Batched.concurrency_of options) Hc)
      as (chunks0 & Hfuel & _ & _ & Hsizes).
    specialize (Hfuel (S (length videoFiles)) ltac:(lia)).
    assert (chunks0 = chunks) by congruence. subst chunks0.
    destruct (running_is_a_chunk chunks b (batch_inv_reachable _ _ _ _ _ Hb))
      as [Hnil|[g Hg]].
    + rewrite Hnil. simpl. lia.
    + apply Hsizes in Hg. rewrite length_map in Hg. lia.
Qed.

Lemma at_most_concurrency_in_flight_witness :
  in_flight
    (Batched.run_first sample_engine two_at_a_time 3
       (Batched.initial sample_store [["/out/a.mp4"; "/out/b.webm"]; ["/out/c.mov"]]))
  <= 2.
Proof.
  assert (Hc : 1 <= Batched.concurrency_of two_at_a_time)
    by (unfold Batched.concurrency_of; simpl; lia).
  assert (Hchunks :
    Batched.chunks_of (S (length three_files)) three_files
      (Batched.concurrency_of two_at_a_time)
    = Some [["/out/a.mp4"; "/out/b.webm"]; ["/out/c.mov"]]) by reflexivity.
  destruct (at_most_concurrency_in_flight sample_engine two_at_a_time three_files
              sample_store _
              (Batched.run_first sample_engine two_at_a_time 3
                 (Batched.initial sample_store
                    [["/out/a.mp4"; "/out/b.webm"]; ["/out/c.mov"]]))
              Hc Hchunks
              ltac:(apply run_first_reachable; apply Batched.reachable_refl))
    as [H1 H2].
  change (Batched.concurrency_of two_at_a_time) with 2 in H2.
  exact (Nat.le_trans _ _ _ H1 H2).
Defined.

(** ** Options and configurations across the variants *)

Lemma format_options_without_mute_DistSeq (options : Batched.OptimizeVideosOptions.t)
  (lower : string) :
  DistSeq.format_options (without_mute_DistSeq options) lower
  = override_without_mute_DistSeq <$> Batched.format_options options lower.
Proof.
  unfold DistSeq.format_options, Batched.format_options. simpl.
  repeat match goal with |- context [String.eqb ?a ?b] => destruct (String.eqb a b) end;
    reflexivity.
Qed.

Lemma format_options_without_mute_VideoDir (videoDir : option string)
  (options : Batched.OptimizeVideosOptions.t) (lower : string) :
  VideoDir.format_options (without_mute_VideoDir videoDir options) lower
  = override_without_mute_VideoDir <$> Batched.format_options options lower.
Proof.
  unfold VideoDir.format_options, Batched.format_options. simpl.
  repeat match goal with |- context [String.eqb ?a ?b] => destruct (String.eqb a b) end;
    reflexivity.
Qed.

(** X3. On the same options, the two variants without [mute] resolve the
    quality and the preset that the variant with [mute] resolves, for every
    extension, supported or not. *)
Theorem getVideoOptions_variants_agree (ext : string) (videoDir : option string)
  (options : Batched.OptimizeVideosOptions.t) :
  DistSeq.getVideoOptions ext (without_mute_DistSeq options)
  = to_DistSeq (Batched.getVideoOptions ext options)
  /\ VideoDir.getVideoOptions ext (without_mute_VideoDir videoDir options)
     = to_VideoDir (Batched.getVideoOptions ext options).
Proof.
  unfold DistSeq.getVideoOptions, VideoDir.getVideoOptions, Batched.getVideoOptions,
    to_DistSeq, to_VideoDir.
  rewrite format_options_without_mute_DistSeq, format_options_without_mute_VideoDir.
  destruct (Batched.format_options options (Js.toLowerCase ext)) as [override|];
    split; reflexivity.
Qed.

(** X4. For a supported extension, in any case, the container that
    [getFormatConfig] selects is the extension of the file itself, in
    lower case and without its dot, in the three variants: a file is
    re-encoded into the container it already has. *)
Theorem container_is_the_extension (ext : string) (opts : Batched.VideoOptions.t) :
  supported ext ->
  "." +:+ FormatConfig.format (Batched.getFormatConfig ext opts) = Js.toLowerCase ext
  /\ "." +:+ FormatConfig.format (DistSeq.getFormatConfig ext (to_DistSeq opts))
     = Js.toLowerCase ext
  /\ "." +:+ FormatConfig.format (VideoDir.getFormatConfig ext (to_VideoDir opts))
     = Js.toLowerCase ext.
Proof.
  intros H.
  unfold Batched.getFormatConfig, DistSeq.getFormatConfig, VideoDir.getFormatConfig.
  destruct (supported_cases ext H) as [E|[E|[E|E]]]; rewrite E;
    repeat split; reflexivity.
Qed.

Lemma container_is_the_extension_witness :
  "." +:+ FormatConfig.format
            (Batched.getFormatConfig ".MOV" (Batched.getVideoOptions ".MOV" no_options))
  = ".mov".
Proof.
  assert (H : supported ".MOV") by (unfold supported; simpl; auto).
  exact (proj1 (container_is_the_extension ".MOV"
                  (Batched.getVideoOptions ".MOV" no_options) H)).
Defined.

Ltac flag_at tokens k :=
  exists (firstn k tokens), (skipn (S (S k)) tokens); reflexivity.

Ltac solve_has_flag :=
  match goal with
  | |- has_flag _ _ ?tokens =>
      unfold has_flag;
      first [ flag_at tokens 0 | flag_at tokens 2 | flag_at tokens 4
            | flag_at tokens 6 | flag_at tokens 8 | flag_at tokens 10 ]
  end.

(** X5. Whatever the extension, supported or not, every variant of
    [getFormatConfig] asks for constant quality at the resolved quality
    ([-crf quality]), for the pixel format yuv420p and for the overwriting
    of the output ([-y]); the codec is libvpx-vp9 with [-b:v 0] exactly for
    [.webm], and libx264 with [-preset preset] for everything else. *)
Theorem flags_common_to_all_formats (ext : string) (opts : Batched.VideoOptions.t) :
  let configs :=
    [Batched.getFormatConfig ext opts;
     DistSeq.getFormatConfig ext (to_DistSeq opts);
     VideoDir.getFormatConfig ext (to_VideoDir opts)] in
  forall cfg, In cfg configs ->
    has_flag "-crf" (Js.String_of_number (Batched.VideoOptions.quality opts))
             (FormatConfig.options cfg)
    /\ has_flag "-pix_fmt" "yuv420p" (FormatConfig.options cfg)
    /\ In "-y" (FormatConfig.options cfg)
    /\ (Js.toLowerCase ext = ".webm" ->
        FormatConfig.codec cfg = "libvpx-vp9"
        /\ has_flag "-b:v" "0" (FormatConfig.options cfg))
    /\ (Js.toLowerCase ext <> ".webm" ->
        FormatConfig.codec cfg = "libx264"
        /\ has_flag "-preset" (Batched.VideoOptions.preset opts)
                    (FormatConfig.options cfg)).
Proof.
  intros configs cfg Hin. subst configs.
  unfold Batched.getFormatConfig, DistSeq.getFormatConfig, VideoDir.getFormatConfig in Hin.
  destruct (String.eqb_spec (Js.toLowerCase ext) ".webm") as [Hwebm|Hwebm].
  - rewrite Hwebm in Hin. cbn -[Js.String_of_number] in Hin.
    destruct Hin as [<-|[<-|[<-|[]]]]; cbn -[Js.String_of_number];
      (split; [solve_has_flag|]; split; [solve_has_flag|];
       split; [auto 20|]; split; [intros _; split; [reflexivity|solve_has_flag]|];
       intros Hne; contradiction).
  - assert (Hw : String.eqb (Js.toLowerCase ext) ".webm" = false)
      by (apply String.eqb_neq; exact Hwebm).
    rewrite ?Hw in Hin.
    destruct (String.eqb (Js.toLowerCase ext) ".mp4"),
             (String.eqb (Js.toLowerCase ext) ".mov"),
             (String.eqb (Js.toLowerCase ext) ".avi");
      cbn -[Js.String_of_number] in Hin;
      destruct Hin as [<-|[<-|[<-|[]]]]; cbn -[Js.String_of_number];
      (split; [solve_has_flag|]; split; [solve_has_flag|];
       split; [auto 20|]; split; [intros Heq; contradiction|];
       intros _; split; [reflexivity|solve_has_flag]).
Qed.

Lemma flags_common_to_all_formats_witness :
  has_flag "-crf" "18"
    (FormatConfig.options
       (Batched.getFormatConfig ".gif" (Batched.getVideoOptions ".gif" no_options)))
  /\ In "-y"
       (FormatConfig.options
          (Batched.getFormatConfig ".gif" (Batched.getVideoOptions ".gif" no_options))).
Proof.
  destruct (flags_common_to_all_formats ".gif"
              (Batched.getVideoOptions ".gif" no_options)
              (Batched.getFormatConfig ".gif" (Batched.getVideoOptions ".gif" no_options))
              (or_introl eq_refl)) as (H1 & _ & H3 & _).
  split; [exact H1 | exact H3].
Defined.

(** ** One file: what a run of [processFile] leaves behind *)

(** X6. The ways [optimizeVideo] ends. When the input is missing it fails
    with the error of [stat] and the engine is not run: the store is the one
    it started from, whatever the engine, in the three variants. Otherwise
    the engine runs once: its error is the error of [optimizeVideo]; when it
    ends without an output file the second [stat] fails; and when the
    output is there the sizes returned are the length of the input before
    the run and the length of the output after it. *)
Theorem optimizeVideo_outcomes (engine : Ffmpeg.Engine) (inputPath outputPath : string)
  (opts : Batched.VideoOptions.t) (fs : FileSystem) :
  let cmd := Batched.optimizeVideo_command inputPath outputPath opts in
  (fs !! inputPath = None ->
   Batched.optimizeVideo engine inputPath outputPath opts fs = (Err Fs.ENOENT, fs)
   /\ DistSeq.optimizeVideo engine inputPath outputPath (to_DistSeq opts) fs
      = (Err Fs.ENOENT, fs)
   /\ VideoDir.optimizeVideo engine inputPath outputPath (to_VideoDir opts) fs
      = (Err Fs.ENOENT, fs))
  /\ (forall original,
         fs !! inputPath = Some original ->
         (forall e fs1,
             engine cmd fs = (Err e, fs1) ->
             Batched.optimizeVideo engine inputPath outputPath opts fs = (Err e, fs1))
         /\ (forall fs1,
                engine cmd fs = (Ok tt, fs1) ->
                fs1 !! outputPath = None ->
                Batched.optimizeVideo engine inputPath outputPath opts fs
                = (Err Fs.ENOENT, fs1))
         /\ (forall fs1 data,
                engine cmd fs = (Ok tt, fs1) ->
                fs1 !! outputPath = Some data ->
                Batched.optimizeVideo engine inputPath outputPath opts fs
                = (Ok {| originalSize := String.length original;
                         optimizedSize := String.length data |}, fs1))).
Proof.
  intros cmd. subst cmd.
  unfold Batched.optimizeVideo, DistSeq.optimizeVideo, VideoDir.optimizeVideo,
    bind, Fs.stat, ret.
  split.
  - intros ->. repeat split; reflexivity.
  - intros original ->. repeat split.
    + intros e fs1 ->. reflexivity.
    + intros fs1 -> ->. reflexivity.
    + intros fs1 data -> ->. reflexivity.
Qed.


Lemma optimizeVideo_outcomes_witness :
  Batched.optimizeVideo sample_engine "/out/gone.mp4" "/out/gone.mp4.tmp.mp4"
    (Batched.getVideoOptions ".mp4" no_options) sample_store
  = (Err Fs.ENOENT, sample_store)
  /\ Batched.optimizeVideo sample_engine "/out/b.webm" "/out/b.webm.tmp.webm"
       (Batched.getVideoOptions ".webm" no_options) sample_store
     = (Err "Conversion failed!", <["/out/b.webm.tmp.webm" := "part"]> sample_store).
Proof.
  split.
  - pose proof (optimizeVideo_outcomes sample_engine "/out/gone.mp4"
                  "/out/gone.mp4.tmp.mp4" (Batched.getVideoOptions ".mp4" no_options)
                  sample_store) as H.
    cbv zeta in H. destruct H as [Hmissing _].
    apply Hmissing. vm_compute. reflexivity.
  - pose proof (optimizeVideo_outcomes sample_engine "/out/b.webm"
                  "/out/b.webm.tmp.webm" (Batched.getVideoOptions ".webm" no_options)
                  sample_store) as H.
    cbv zeta in H. destruct H as [_ Hpresent].
    assert (Hthere : sample_store !! "/out/b.webm" = Some "original b")
      by (vm_compute; reflexivity).
    destruct (Hpresent _ Hthere) as [Herr _].
    apply Herr. reflexivity.
Defined.

(** ** What the batch never touches *)

Lemma sample_engine_frame : engine_frame sample_engine.
Proof. apply confined_frame. apply sample_engine_confined. Qed.

Lemma resume_frame {A : Type} (videoFile fileName tempOutputPath : string) (op : IO A)
  (next : A -> Batched.Stage) (fs fs' : FileSystem) (stage' : Batched.Stage) :
  (forall result fs1,
      op fs = (result, fs1) ->
      forall path, path <> videoFile -> path <> tempOutputPath ->
                   fs1 !! path = fs !! path) ->
  Batched.resume fileName tempOutputPath op next fs = (stage', fs') ->
  forall path, path <> videoFile -> path <> tempOutputPath -> fs' !! path = fs !! path.
Proof.
  intros Hop H path H1 H2.
  apply resume_cases in H as [(a & Ha & _)|(e & fs1 & He & -> & _)].
  - eapply Hop; eassumption.
  - rewrite fs_lookup_write. eapply Hop; eassumption.
Qed.

Lemma unlink_frame (target : string) (fs fs1 : FileSystem) (result : Result unit) :
  Fs.unlink target fs = (result, fs1) ->
  forall path, path <> target -> fs1 !! path = fs !! path.
Proof.
  intros H path Hne.
  apply unlink_cases in H as [(_ & -> & _)|(_ & -> & _)]; [|reflexivity].
  apply fs_lookup_delete_ne. intros E; apply Hne; symmetry; exact E.
Qed.

(** A step of a unit changes at most the path of its file and its
    temporary path, when the engine writes at most its output path. *)
Lemma step_frame (engine : Ffmpeg.Engine)
  (options : Batched.OptimizeVideosOptions.t) (videoFile : string)
  (stage stage' : Batched.Stage) (fs fs' : FileSystem) :
  engine_frame engine ->
  Batched.processFile_step engine options videoFile stage fs = (stage', fs') ->
  forall path,
    path <> videoFile ->
    path <> Batched.tempOutputPath_of videoFile ->
    fs' !! path = fs !! path.
Proof.
  intros Hframe Hstep.
  unfold Batched.processFile_step in Hstep.
  fold (Batched.tempOutputPath_of videoFile) in Hstep.
  destruct stage;
    try (eapply resume_frame; [|exact Hstep]; clear Hstep;
         intros result fs1 Hop path H1 H2).
  - apply stat_cases in Hop as [-> _]. reflexivity.
  - apply (Hframe _ _ _ _ Hop). exact H2.
  - apply stat_output_cases in Hop as [(data & _ & _ & ->)|(_ & _ & ->)]; reflexivity.
  - eapply unlink_frame; eassumption.
  - apply readFile_cases in Hop as [-> _]. reflexivity.
  - apply writeFile_cases in Hop as [(_ & ->)|(_ & ->)]; [|reflexivity].
    apply fs_lookup_insert_ne. intros E; apply H1; symmetry; exact E.
  - eapply unlink_frame; eassumption.
  - intros path _ H2.
    destruct (Fs.unlink _ fs) as [[[]|e] fs1] eqn:Hop; injection Hstep as <- <-;
      (eapply unlink_frame; [exact Hop | exact H2]).
  - injection Hstep as <- <-. reflexivity.
Qed.

(** X9. With an engine that writes at most its output path, the batch
    touches nothing but the candidates and their temporary files: in every
    batch that [closeBundle] can reach, under every interleaving, every
    other path of the store holds what it held at the start. *)
Theorem batch_touches_only_its_files (engine : Ffmpeg.Engine)
  (options : Batched.OptimizeVideosOptions.t) (fs : FileSystem)
  (chunks : list (list string)) (b : Batched.Batch) :
  engine_frame engine ->
  Batched.reachable engine options (Batched.initial fs chunks) b ->
  forall path, ~ owned_by chunks path -> Batched.store b !! path = fs !! path.
Proof.
  intros Hframe Hb path Hpath.
  induction Hb as [|b b' Hb IH Hstep]; [reflexivity|].
  pose proof (batch_inv_reachable _ _ _ _ _ Hb) as Hinv.
  destruct Hstep as [b chunk rest Hall Hpending|b k u Hu Hsettled].
  { simpl. rewrite called_lookup. exact IH. }
  unfold Batched.advance.
  destruct (Batched.processFile_step engine options (Batched.videoFile u)
              (Batched.stage u) (Batched.store b)) as [stage' fs'] eqn:Hstep.
  simpl. rewrite <- IH.
  destruct (running_owned chunks b k u Hinv Hu) as (chunk & Hchunk & Hfile).
  eapply step_frame; [exact Hframe | exact Hstep | |];
    intros E; apply Hpath; exists chunk, (Batched.videoFile u); auto.
Qed.

Lemma batch_touches_only_its_files_witness :
  Batched.store
    (Batched.run_first sample_engine two_at_a_time 40
       (Batched.initial sample_store [["/out/a.mp4"; "/out/b.webm"]]))
    !! "/out/c.mov"
  = Some "original c".
Proof.
  assert (Hfree : ~ owned_by [["/out/a.mp4"; "/out/b.webm"]] "/out/c.mov").
  { intros (chunk & file & [<-|[]] & [<-|[<-|[]]] & [E|E]); discriminate E. }
  rewrite (batch_touches_only_its_files sample_engine two_at_a_time sample_store
             [["/out/a.mp4"; "/out/b.webm"]] _ sample_engine_frame
             (run_first_reachable _ _ _ 40 _ (Batched.reachable_refl _ _ _))
             "/out/c.mov" Hfree).
  reflexivity.
Defined.

(** ** The success line and the replacement *)

Lemma step_writes_success (engine : Ffmpeg.Engine)
  (options : Batched.OptimizeVideosOptions.t) (videoFile : string)
  (stage stage' : Batched.Stage) (fs fs' : FileSystem) (sizes : Sizes) :
  Batched.processFile_step engine options videoFile stage fs = (stage', fs') ->
  logged_sizes stage = None ->
  logged_sizes stage' = Some sizes ->
  exists data,
    stage = Batched.AwaitStatOutput (originalSize sizes)
    /\ stage' = Batched.AwaitUnlinkOriginal sizes
    /\ fs !! Batched.tempOutputPath_of videoFile = Some data
    /\ optimizedSize sizes = String.length data
    /\ fs' = Console.write (Optimized (NodePath.basename videoFile) sizes) fs.
Proof.
  intros H Hbefore Hafter. unfold Batched.processFile_step in H.
  fold (Batched.tempOutputPath_of videoFile) in H.
  destruct stage; try discriminate Hbefore.
  - apply resume_cases in H as [(a & _ & ->)|(e & fs1 & _ & _ & [[_ ->]|[_ ->]])];
      discriminate Hafter.
  - apply resume_cases in H as [(a & _ & ->)|(e & fs1 & _ & _ & [[_ ->]|[_ ->]])];
      discriminate Hafter.
  - apply resume_cases in H as [(a & Hop & ->)|(e & fs1 & _ & _ & [[_ ->]|[_ ->]])];
      try discriminate Hafter.
    injection Hafter as ->.
    apply stat_output_cases in Hop as [(data & Hin & E & ->)|(_ & E & _)];
      [|discriminate E].
    injection E as ->. exists data. simpl. auto.
  - destruct (Fs.unlink _ fs) as [[[]|e] fs1]; injection H as <- <-;
      discriminate Hafter.
  - injection H as <- <-. rewrite Hbefore in Hafter. discriminate Hafter.
Qed.

Lemma step_keeps_success (engine : Ffmpeg.Engine)
  (options : Batched.OptimizeVideosOptions.t) (videoFile : string)
  (stage stage' : Batched.Stage) (fs fs' : FileSystem) (sizes : Sizes) :
  Batched.processFile_step engine options videoFile stage fs = (stage', fs') ->
  logged_sizes stage = Some sizes ->
  (logged_sizes stage' = Some sizes /\ console fs' = console fs)
  \/ (exists e,
         logged_sizes stage' = None
         /\ console fs' = console fs ++ [ErrorOptimizing (NodePath.basename videoFile) e]
         /\ (stage' = Batched.AwaitUnlinkCatch e
             \/ stage' = Batched.Settled (Ok (Batched.Failed e)))).
Proof.
  intros H Hbefore. unfold Batched.processFile_step in H.
  fold (Batched.tempOutputPath_of videoFile) in H.
  destruct stage as [| | |sizes0|sizes0|sizes0 data0|sizes0| |[[sizes0|]|]];
    try discriminate Hbefore; injection Hbefore as ->.
  - apply resume_cases in H
      as [([] & Hop & ->)|(e & fs1 & Hop & -> & Hstage)].
    + apply unlink_cases in Hop as [(_ & -> & _)|([e E] & _)]; [|discriminate E].
      left. auto.
    + apply unlink_cases in Hop as [(E & _)|(_ & -> & _)]; [discriminate E|].
      right. exists e. destruct Hstage as [[_ ->]|[_ ->]]; auto.
  - apply resume_cases in H
      as [(data & Hop & ->)|(e & fs1 & Hop & -> & Hstage)].
    + apply readFile_cases in Hop as [-> _]. left. auto.
    + apply readFile_cases in Hop as [-> _].
      right. exists e. destruct Hstage as [[_ ->]|[_ ->]]; auto.
  - apply resume_cases in H
      as [([] & Hop & ->)|(e & fs1 & Hop & -> & Hstage)].
    + apply writeFile_cases in Hop as [(_ & ->)|([e E] & _)]; [|discriminate E].
      left. auto.
    + apply writeFile_cases in Hop as [(E & _)|(_ & ->)]; [discriminate E|].
      right. exists e. destruct Hstage as [[_ ->]|[_ ->]]; auto.
  - apply resume_cases in H
      as [([] & Hop & ->)|(e & fs1 & Hop & -> & Hstage)].
    + apply unlink_cases in Hop as [(_ & -> & _)|([e E] & _)]; [|discriminate E].
      left. auto.
    + apply unlink_cases in Hop as [(E & _)|(_ & -> & _)]; [discriminate E|].
      right. exists e. destruct Hstage as [[_ ->]|[_ ->]]; auto.
  - injection H as <- <-. left. auto.
Qed.

(** X7. The success line of a call is written before the replacement
    and says nothing of it. A call comes to have logged sizes by one step
    only, the one that completes the [stat] of the temporary file: the
    optimised size on the line is the length of that file, and the step
    changes no file. Each later step of the call either keeps the console
    as it is, or is a failure of the awaited operation, which adds the
    error line of the same file under its success line and sends the call
    to its [catch] block. With a confined engine, in every batch that
    [closeBundle] reaches, whatever the interleaving, the success line of
    every call that is replacing its file or has completed is on the
    console. *)
Theorem success_line_precedes_replacement (engine : Ffmpeg.Engine)
  (options : Batched.OptimizeVideosOptions.t) :
  engine_confined engine ->
  (forall videoFile stage fs stage' fs' sizes,
      Batched.processFile_step engine options videoFile stage fs = (stage', fs') ->
      logged_sizes stage = None ->
      logged_sizes stage' = Some sizes ->
      exists data,
        stage = Batched.AwaitStatOutput (originalSize sizes)
        /\ stage' = Batched.AwaitUnlinkOriginal sizes
        /\ fs !! (videoFile +:+ ".tmp" +:+ Js.toLowerCase (NodePath.extname videoFile))
           = Some data
        /\ optimizedSize sizes = String.length data
        /\ fs' = Console.write (Optimized (NodePath.basename videoFile) sizes) fs)
  /\ (forall videoFile stage fs stage' fs' sizes,
         Batched.processFile_step engine options videoFile stage fs = (stage', fs') ->
         logged_sizes stage = Some sizes ->
         (logged_sizes stage' = Some sizes /\ console fs' = console fs)
         \/ (exists e,
                logged_sizes stage' = None
                /\ console fs'
                   = console fs ++ [ErrorOptimizing (NodePath.basename videoFile) e]
                /\ (stage' = Batched.AwaitUnlinkCatch e
                    \/ stage' = Batched.Settled (Ok (Batched.Failed e)))))
  /\ (forall fs chunks b k u sizes,
         Batched.reachable engine options (Batched.initial fs chunks) b ->
         Batched.running b !! k = Some u ->
         logged_sizes (Batched.stage u) = Some sizes ->
         In (Optimized (NodePath.basename (Batched.videoFile u)) sizes)
            (console (Batched.store b))).
Proof.
  intros Hconfined. split; [|split].
  - intros videoFile stage fs stage' fs' sizes. apply step_writes_success.
  - intros videoFile stage fs stage' fs' sizes. apply step_keeps_success.
  - intros fs chunks b k u sizes Hreach. revert k u sizes.
    induction Hreach as [|b b' Hb IH Hstep]; intros k0 u0 sizes Hu0 Hsizes.
    + simpl in Hu0. rewrite lookup_nil in Hu0. discriminate Hu0.
    + destruct Hstep as [b chunk rest Hall Hrest|b k u Hu Hsettled].
      * simpl in Hu0. rewrite (launch_stage _ _ _ Hu0) in Hsizes.
        discriminate Hsizes.
      * revert Hu0. unfold Batched.advance.
        destruct (Batched.processFile_step engine options (Batched.videoFile u)
                    (Batched.stage u) (Batched.store b)) as [stage' fs'] eqn:Hstep.
        simpl. intros Hu0.
        pose proof (lookup_lt_Some _ _ _ Hu) as Hk.
        destruct (step_confined _ _ _ _ _ _ _ Hconfined Hstep)
          as (_ & _ & lines & Hlines).
        destruct (decide (k = k0)) as [->|Hne].
        -- rewrite list_lookup_insert_eq in Hu0 by exact Hk.
           injection Hu0 as <-. simpl in *.
           destruct (logged_sizes (Batched.stage u)) as [sizes0|] eqn:Hbefore.
           ++ destruct (step_keeps_success _ _ _ _ _ _ _ _ Hstep Hbefore)
                as [[Hsame Hconsole]|(e & Hnone & _)].
              ** rewrite Hsame in Hsizes. injection Hsizes as ->.
                 rewrite Hconsole. eapply IH; eassumption.
              ** rewrite Hnone in Hsizes. discriminate Hsizes.
           ++ destruct (step_writes_success _ _ _ _ _ _ _ _ Hstep Hbefore Hsizes)
                as (data & _ & _ & _ & _ & ->).
              simpl. apply in_or_app. right. left. reflexivity.
        -- rewrite list_lookup_insert_ne in Hu0 by exact Hne.
           rewrite Hlines. apply in_or_app. left. eapply IH; eassumption.
Qed.

Lemma success_line_precedes_replacement_witness :
  In (Optimized "a.mp4" {| originalSize := 10; optimizedSize := 5 |})
     (console
        (Batched.store
           (Batched.run_first sample_engine two_at_a_time 9
              (Batched.initial sample_store [["/out/a.mp4"; "/out/b.webm"]])))).
Proof.
  destruct (success_line_precedes_replacement sample_engine two_at_a_time
              sample_engine_confined) as (_ & _ & Hlogged).
  apply (Hlogged sample_store [["/out/a.mp4"; "/out/b.webm"]] _ 0
           {| Batched.videoFile := "/out/a.mp4";
              Batched.stage :=
                Batched.Settled
                  (Ok (Batched.Done {| originalSize := 10; optimizedSize := 5 |})) |}).
  - apply run_first_reachable. apply Batched.reachable_refl.
  - vm_compute. reflexivity.
  - reflexivity.
Defined.



(** ** The scan as a filter of the walk *)

Lemma map_filter_flat_map {A B C : Type} (f : B -> C) (P : B -> bool)
  (g : A -> list B) (l : list A) :
  map f (List.filter P (flat_map g l))
  = flat_map (fun x => map f (List.filter P (g x))) l.
Proof.
  induction l as [|a l IH]; simpl; [reflexivity|].
  rewrite List.filter_app, map_app, IH. reflexivity.
Qed.

Lemma flat_map_ext_Forall {A B : Type} (f g : A -> list B) (l : list A) :
  Forall (fun x => f x = g x) l -> flat_map f l = flat_map g l.
Proof.
  induction 1 as [|a l Ha _ IH]; simpl; [reflexivity|]. rewrite Ha, IH. reflexivity.
Qed.

Lemma scanEntry_walk (exclude : list string) (entry : Dirent) :
  forall currentDir,
    scanEntry exclude currentDir entry []
    = map fst (List.filter (fun pn => isVideoFile (snd pn) exclude)
                           (entry_files currentDir entry)).
Proof.
  induction entry as [name|name entries IH|name] using Dirent_nested_ind;
    intros currentDir; simpl.
  - destruct (isVideoFile name exclude); reflexivity.
  - rewrite scan_loop_contents. simpl. rewrite map_filter_flat_map.
    apply flat_map_ext_Forall.
    eapply List.Forall_impl; [|exact IH]. intros e He. apply He.
  - reflexivity.
Qed.

Lemma scan_is_the_filtered_walk_lemma (dir : string) (entries : list Dirent)
  (exclude : list string) :
  findVideoFiles dir (Some entries) exclude
  = map fst (List.filter (fun pn => isVideoFile (snd pn) exclude)
                         (files_of dir entries)).
Proof.
  unfold findVideoFiles, scanDirectory, files_of.
  rewrite scan_loop_contents. simpl. rewrite map_filter_flat_map.
  apply flat_map_ext_Forall. apply List.Forall_forall.
  intros e _. apply scanEntry_walk.
Qed.

(** X10. The scan of an existing directory returns the candidates in the
    order of a depth-first walk that follows the order in which [readdir]
    lists the entries, each regular file that [isVideoFile] accepts once
    per listing: it is the walk, filtered by [isVideoFile] on the names.
    In particular it has no more elements than the tree has regular
    files. *)
Theorem scan_is_the_filtered_walk (dir : string) (entries : list Dirent)
  (exclude : list string) :
  findVideoFiles dir (Some entries) exclude
  = map fst (List.filter (fun pn => isVideoFile (snd pn) exclude)
                         (files_of dir entries))
  /\ length (findVideoFiles dir (Some entries) exclude)
     <= length (files_of dir entries).
Proof.
  rewrite scan_is_the_filtered_walk_lemma. split; [reflexivity|].
  rewrite length_map. apply filter_length_le.
Qed.

Lemma isVideoFile_app (fileName : string) (exclude more : list string) :
  isVideoFile fileName (exclude ++ more)
  = isVideoFile fileName exclude && isVideoFile fileName more.
Proof.
  unfold isVideoFile.
  destruct (is_video_extension (Js.toLowerCase (NodePath.extname fileName)));
    simpl; [|reflexivity].
  rewrite existsb_app. apply negb_orb.
Qed.

Lemma filter_and_sublist {A B : Type} (f : A -> B) (P Q : A -> bool) (l : list A) :
  sublist (map f (List.filter (fun x => P x && Q x) l)) (map f (List.filter P l)).
Proof.
  induction l as [|a l IH]; simpl; [constructor|].
  destruct (P a), (Q a); simpl.
  - apply sublist_skip. exact IH.
  - apply sublist_cons. exact IH.
  - exact IH.
  - exact IH.
Qed.

Lemma isVideoFile_empty_pattern (fileName : string) (exclude : list string) :
  In EmptyString exclude -> isVideoFile fileName exclude = false.
Proof.
  intros Hin. unfold isVideoFile.
  destruct (is_video_extension (Js.toLowerCase (NodePath.extname fileName)));
    simpl; [|reflexivity].
  apply negb_false_iff. apply existsb_exists. exists EmptyString.
  split; [exact Hin|]. unfold exclude_matches. simpl.
  destruct fileName; reflexivity.
Qed.

Lemma filter_none {A : Type} (P : A -> bool) (l : list A) :
  (forall x, P x = false) -> List.filter P l = [].
Proof.
  intros H. induction l as [|a l IH]; simpl; [reflexivity|]. rewrite H. exact IH.
Qed.

(** X11. Patterns only take candidates away. The scan with more exclude
    patterns returns a sublist, in the same order, of the scan with fewer;
    and an exclude list that contains the empty string excludes every file,
    because the empty string occurs in every name. *)
Theorem more_patterns_fewer_candidates (dir : string) (tree : option (list Dirent))
  (exclude more : list string) :
  sublist (findVideoFiles dir tree (exclude ++ more)) (findVideoFiles dir tree exclude)
  /\ (In EmptyString exclude -> findVideoFiles dir tree exclude = []).
Proof.
  destruct tree as [entries|]; [|split; [constructor | reflexivity]].
  rewrite !scan_is_the_filtered_walk_lemma. split.
  - rewrite (List.filter_ext
               (fun pn : string * string => isVideoFile (snd pn) (exclude ++ more))
               (fun pn => isVideoFile (snd pn) exclude && isVideoFile (snd pn) more))
      by (intros [path name]; apply isVideoFile_app).
    apply (filter_and_sublist fst
             (fun pn : string * string => isVideoFile (snd pn) exclude)
             (fun pn => isVideoFile (snd pn) more)).
  - intros Hin. rewrite filter_none; [reflexivity|].
    intros [path name]. apply isVideoFile_empty_pattern. exact Hin.
Qed.

Lemma more_patterns_fewer_candidates_witness :
  findVideoFiles "/out" (Some [File "a.mp4"; Directory "sub" [File "b.webm"]]) [".gif"; ""]
  = [].
Proof.
  apply (proj2 (more_patterns_fewer_candidates "/out"
                  (Some [File "a.mp4"; Directory "sub" [File "b.webm"]])
                  [".gif"; ""] [])).
  right. left. reflexivity.
Defined.

(** ** Extensions of paths *)

Lemma extname_loop_S (path : string) (i : nat) (st : NodePath.ExtnameState) :
  NodePath.extname_loop path (S i) st
  = match String.get i path with
    | None => st
    | Some code =>
        if Ascii.eqb code "/" then
          if negb (NodePath.matchedSlash st) then
            {| NodePath.startDot := NodePath.startDot st;
               NodePath.startPart := Z.of_nat i + 1;
               NodePath.end_ := NodePath.end_ st;
               NodePath.matchedSlash := NodePath.matchedSlash st;
               NodePath.preDotState := NodePath.preDotState st |}
          else NodePath.extname_loop path i st
        else
          let st1 :=
            if (NodePath.end_ st =? -1)%Z then
              {| NodePath.startDot := NodePath.startDot st;
                 NodePath.startPart := NodePath.startPart st;
                 NodePath.end_ := Z.of_nat i + 1;
                 NodePath.matchedSlash := false;
                 NodePath.preDotState := NodePath.preDotState st |}
            else st in
          let st2 :=
            if Ascii.eqb code "." then
              if (NodePath.startDot st1 =? -1)%Z then
                {| NodePath.startDot := Z.of_nat i;
                   NodePath.startPart := NodePath.startPart st1;
                   NodePath.end_ := NodePath.end_ st1;
                   NodePath.matchedSlash := NodePath.matchedSlash st1;
                   NodePath.preDotState := NodePath.preDotState st1 |}
              else if negb (NodePath.preDotState st1 =? 1)%Z then
                {| NodePath.startDot := NodePath.startDot st1;
                   NodePath.startPart := NodePath.startPart st1;
                   NodePath.end_ := NodePath.end_ st1;
                   NodePath.matchedSlash := NodePath.matchedSlash st1;
                   NodePath.preDotState := 1 |}
              else st1
            else if negb (NodePath.startDot st1 =? -1)%Z then
              {| NodePath.startDot := NodePath.startDot st1;
                 NodePath.startPart := NodePath.startPart st1;
                 NodePath.end_ := NodePath.end_ st1;
                 NodePath.matchedSlash := NodePath.matchedSlash st1;
                 NodePath.preDotState := -1 |}
            else st1 in
          NodePath.extname_loop path i st2
    end.
Proof. reflexivity. Qed.

(** Once the dot and a character before it have been seen, the rest of
    the loop changes neither the start nor the end of the extension. *)
Lemma extname_loop_settled (path : string) :
  forall (n : nat) (st : NodePath.ExtnameState),
    NodePath.startDot st <> (-1)%Z ->
    NodePath.end_ st <> (-1)%Z ->
    NodePath.preDotState st <> 0%Z ->
    NodePath.startDot (NodePath.extname_loop path n st) = NodePath.startDot st
    /\ NodePath.end_ (NodePath.extname_loop path n st) = NodePath.end_ st
    /\ NodePath.preDotState (NodePath.extname_loop path n st) <> 0%Z.
Proof.
  induction n as [|n IH]; intros st Hdot Hend Hpre; [simpl; auto|].
  rewrite extname_loop_S.
  destruct (String.get n path) as [code|]; [|auto].
  destruct (Ascii.eqb code "/").
  - destruct (negb (NodePath.matchedSlash st)); [simpl; auto | apply IH; assumption].
  - cbv zeta.
    apply Z.eqb_neq in Hend. rewrite Hend.
    apply Z.eqb_neq in Hdot. rewrite Hdot.
    apply Z.eqb_neq in Hend. apply Z.eqb_neq in Hdot.
    destruct (Ascii.eqb code ".").
    + destruct (negb (NodePath.preDotState st =? 1)%Z).
      * destruct (IH {| NodePath.startDot := NodePath.startDot st;
                        NodePath.startPart := NodePath.startPart st;
                        NodePath.end_ := NodePath.end_ st;
                        NodePath.matchedSlash := NodePath.matchedSlash st;
                        NodePath.preDotState := 1 |})
          as (H1 & H2 & H3); simpl; auto; discriminate.
      * apply IH; assumption.
    + simpl.
      destruct (IH {| NodePath.startDot := NodePath.startDot st;
                      NodePath.startPart := NodePath.startPart st;
                      NodePath.end_ := NodePath.end_ st;
                      NodePath.matchedSlash := NodePath.matchedSlash st;
                      NodePath.preDotState := -1 |})
        as (H1 & H2 & H3); simpl; auto; discriminate.
Qed.

(** Over plain characters, before any dot, the loop only records where
    the last segment ends. *)
Lemma extname_loop_plain (path : string) (m : nat) :
  forall (k : nat) (st : NodePath.ExtnameState),
    NodePath.startDot st = (-1)%Z ->
    (forall i, m <= i < m + k ->
               exists c, String.get i path = Some c /\ plain c = true) ->
    NodePath.extname_loop path (m + k) st
    = NodePath.extname_loop path m
        (match k with
         | O => st
         | S _ =>
             if (NodePath.end_ st =? -1)%Z then
               {| NodePath.startDot := NodePath.startDot st;
                  NodePath.startPart := NodePath.startPart st;
                  NodePath.end_ := Z.of_nat (m + k);
                  NodePath.matchedSlash := false;
                  NodePath.preDotState := NodePath.preDotState st |}
             else st
         end).
Proof.
  induction k as [|k IH]; intros st Hdot Hplain.
  - rewrite Nat.add_0_r. reflexivity.
  - replace (m + S k) with (S (m + k)) by lia.
    rewrite extname_loop_S.
    destruct (Hplain (m + k) ltac:(lia)) as (c & -> & Hc).
    unfold plain in Hc. apply andb_prop in Hc as [Hslash Hpoint].
    apply negb_true_iff in Hslash. apply negb_true_iff in Hpoint.
    rewrite Hslash, Hpoint. cbv zeta.
    destruct (NodePath.end_ st =? -1)%Z eqn:Hend.
    + simpl NodePath.startDot. rewrite Hdot. simpl negb. cbv iota.
      rewrite IH; [|reflexivity|intros i Hi; apply Hplain; lia].
      simpl NodePath.end_.
      replace (Z.of_nat (m + k) + 1)%Z with (Z.of_nat (S (m + k))) by lia.
      assert (Hne : (Z.of_nat (S (m + k)) =? -1)%Z = false) by (apply Z.eqb_neq; lia).
      rewrite Hne. destruct k; reflexivity.
    + rewrite Hdot. simpl negb. cbv iota.
      rewrite IH; [|exact Hdot|intros i Hi; apply Hplain; lia].
      rewrite Hend. destruct k; reflexivity.
Qed.

Lemma all_plain_get (letters : string) :
  all_plain letters = true ->
  forall j, j < String.length letters ->
            exists c, String.get j letters = Some c /\ plain c = true.
Proof.
  induction letters as [|a letters IH]; simpl; intros H j Hj; [lia|].
  apply andb_prop in H as [Ha H].
  destruct j as [|j]; [eauto|]. apply IH; [exact H | lia].
Qed.

Lemma string_app_cons (c : ascii) (a b : string) :
  String c a +:+ b = String c (a +:+ b).
Proof. reflexivity. Qed.

Lemma string_app_assoc (a b c : string) : (a +:+ b) +:+ c = a +:+ (b +:+ c).
Proof.
  induction a as [|x a IH]; [reflexivity|].
  rewrite !string_app_cons, IH. reflexivity.
Qed.

Lemma substring_whole (b : string) : substring 0 (String.length b) b = b.
Proof. induction b as [|c b IH]; simpl; [reflexivity | rewrite IH; reflexivity]. Qed.

Lemma substring_app_right (a b : string) :
  substring (String.length a) (String.length b) (a +:+ b) = b.
Proof.
  induction a as [|c a IH]; simpl; [apply substring_whole | exact IH].
Qed.

Lemma extname_loop_first_dot (path : string) (i : nat) (st : NodePath.ExtnameState) :
  String.get i path = Some "."%char ->
  NodePath.end_ st <> (-1)%Z ->
  NodePath.startDot st = (-1)%Z ->
  NodePath.extname_loop path (S i) st
  = NodePath.extname_loop path i
      {| NodePath.startDot := Z.of_nat i;
         NodePath.startPart := NodePath.startPart st;
         NodePath.end_ := NodePath.end_ st;
         NodePath.matchedSlash := NodePath.matchedSlash st;
         NodePath.preDotState := NodePath.preDotState st |}.
Proof.
  intros Hget Hend Hdot. rewrite extname_loop_S, Hget.
  apply Z.eqb_neq in Hend. simpl Ascii.eqb. cbv iota zeta.
  rewrite Hend, Hdot. reflexivity.
Qed.

Lemma extname_loop_before_dot (path : string) (i : nat) (c : ascii)
  (st : NodePath.ExtnameState) :
  String.get i path = Some c ->
  Ascii.eqb c "/" = false ->
  NodePath.end_ st <> (-1)%Z ->
  NodePath.startDot st <> (-1)%Z ->
  exists pre : Z,
    pre <> 0%Z
    /\ NodePath.extname_loop path (S i) st
       = NodePath.extname_loop path i
           {| NodePath.startDot := NodePath.startDot st;
              NodePath.startPart := NodePath.startPart st;
              NodePath.end_ := NodePath.end_ st;
              NodePath.matchedSlash := NodePath.matchedSlash st;
              NodePath.preDotState := pre |}.
Proof.
  intros Hget Hc Hend Hdot. rewrite extname_loop_S, Hget, Hc.
  apply Z.eqb_neq in Hend. apply Z.eqb_neq in Hdot. cbv zeta.
  rewrite Hend, Hdot. simpl negb.
  destruct (Ascii.eqb c ".").
  - destruct (NodePath.preDotState st =? 1)%Z eqn:E; simpl negb; cbv iota.
    + apply Z.eqb_eq in E. exists 1%Z. split; [discriminate|].
      rewrite <- E. destruct st; reflexivity.
    + exists 1%Z. split; [discriminate | reflexivity].
  - exists (-1)%Z. split; [discriminate | reflexivity].
Qed.

(** After a character that is not the separator, a dot followed by plain
    characters, at least one, is the extension. *)
Lemma extname_of_suffix (p : string) (c : ascii) (letters : string) :
  Ascii.eqb c "/" = false ->
  letters <> EmptyString ->
  all_plain letters = true ->
  NodePath.extname (p +:+ String c (String "." letters)) = String "." letters.
Proof.
  intros Hc Hne Hplain.
  set (path := p +:+ String c (String "." letters)).
  set (d := S (String.length p)).
  assert (Hk : exists k, String.length letters = S k).
  { destruct letters; [contradiction | simpl; eauto]. }
  destruct Hk as [k Hk].
  set (len := S d + S k).
  assert (Hlen : String.length path = len).
  { unfold path, d, len. rewrite string_length_app. simpl. lia. }
  assert (Hget_c : String.get (String.length p) path = Some c).
  { exact (eq_sym (append_correct2 p (String c (String "." letters)) 0)). }
  assert (Hget_dot : String.get d path = Some "."%char).
  { exact (eq_sym (append_correct2 p (String c (String "." letters)) 1)). }
  assert (Hget_letters : forall i, S d <= i < S d + S k ->
            exists ch, String.get i path = Some ch /\ plain ch = true).
  { intros i Hi.
    destruct (all_plain_get letters Hplain (i - S d) ltac:(lia)) as (ch & Hch & Hp).
    exists ch. split; [|exact Hp].
    unfold path.
    replace i with ((i - S d + 2) + String.length p) by (unfold d; lia).
    rewrite <- (append_correct2 p (String c (String "." letters)) (i - S d + 2)).
    replace (i - S d + 2) with (S (S (i - S d))) by lia. exact Hch. }
  pose (stA := {| NodePath.startDot := -1; NodePath.startPart := 0;
                  NodePath.end_ := Z.of_nat len; NodePath.matchedSlash := false;
                  NodePath.preDotState := 0 |}).
  assert (H1 : NodePath.extname_loop path len NodePath.extname_init
               = NodePath.extname_loop path (S d) stA).
  { unfold len.
    rewrite (extname_loop_plain path (S d) (S k) NodePath.extname_init
               eq_refl Hget_letters).
    reflexivity. }
  assert (H2 : NodePath.extname_loop path (S d) stA
               = NodePath.extname_loop path d
                   {| NodePath.startDot := Z.of_nat d; NodePath.startPart := 0;
                      NodePath.end_ := Z.of_nat len; NodePath.matchedSlash := false;
                      NodePath.preDotState := 0 |}).
  { apply extname_loop_first_dot; [exact Hget_dot | simpl; lia | reflexivity]. }
  destruct (extname_loop_before_dot path (String.length p) c
              {| NodePath.startDot := Z.of_nat d; NodePath.startPart := 0;
                 NodePath.end_ := Z.of_nat len; NodePath.matchedSlash := false;
                 NodePath.preDotState := 0 |} Hget_c Hc)
    as (pre & Hpre & H3); [simpl; lia | simpl; lia |].
  assert (H123 : NodePath.extname_loop path len NodePath.extname_init
                 = NodePath.extname_loop path (String.length p)
                     {| NodePath.startDot := Z.of_nat d; NodePath.startPart := 0;
                        NodePath.end_ := Z.of_nat len; NodePath.matchedSlash := false;
                        NodePath.preDotState := pre |}).
  { rewrite H1, H2. exact H3. }
  clear H1 H2 H3.
  destruct (extname_loop_settled path (String.length p)
              {| NodePath.startDot := Z.of_nat d; NodePath.startPart := 0;
                 NodePath.end_ := Z.of_nat len; NodePath.matchedSlash := false;
                 NodePath.preDotState := pre |})
    as (Hsd & Hse & Hsp); [simpl; lia | simpl; lia | exact Hpre |].
  simpl in Hsd, Hse.
  unfold NodePath.extname. rewrite Hlen, H123.
  set (final := NodePath.extname_loop path (String.length p) _) in *.
  rewrite Hsd, Hse. apply Z.eqb_neq in Hsp. rewrite Hsp.
  replace (Z.of_nat d =? -1)%Z with false by (symmetry; apply Z.eqb_neq; lia).
  replace (Z.of_nat len =? -1)%Z with false by (symmetry; apply Z.eqb_neq; lia).
  replace (Z.of_nat d =? Z.of_nat len - 1)%Z with false
    by (symmetry; apply Z.eqb_neq; unfold len; lia).
  rewrite andb_false_r. simpl orb. cbv iota.
  rewrite Nat2Z.id.
  replace (Z.to_nat (Z.of_nat len - Z.of_nat d)) with (S (S k)) by (unfold len; lia).
  unfold path.
  replace (p +:+ String c (String "." letters))
    with ((p +:+ String c EmptyString) +:+ String "." letters).
  2:{ apply string_app_assoc. }
  replace d with (String.length (p +:+ String c EmptyString))
    by (rewrite string_length_app; simpl; unfold d; lia).
  replace (S (S k)) with (String.length (String "." letters)) by (simpl; lia).
  apply substring_app_right.
Qed.

Lemma shift_eqb (off : nat) (x : Z) :
  (-1 <= x)%Z -> (shift off x =? -1)%Z = (x =? -1)%Z.
Proof.
  intros Hx. unfold shift. destruct (x =? -1)%Z eqn:E; [reflexivity|].
  apply Z.eqb_neq in E. apply Z.eqb_neq. lia.
Qed.

Lemma no_separator_get (name : string) :
  no_separator name = true ->
  forall k, k < String.length name ->
            exists c, String.get k name = Some c /\ Ascii.eqb c "/" = false.
Proof.
  induction name as [|a name IH]; simpl; intros H k Hk; [lia|].
  apply andb_prop in H as [Ha H]. apply negb_true_iff in Ha.
  destruct k as [|k]; [eauto|]. apply IH; [exact H | lia].
Qed.

(** Over the characters of the name, the loop on the path and the loop on
    the name go through the same states, up to the shift of the indices. *)
Lemma extname_loop_shifted (pre name : string) :
  no_separator name = true ->
  forall (k : nat) (st st' : NodePath.ExtnameState),
    k <= String.length name ->
    shifted (String.length pre) st st' ->
    exists st2' : NodePath.ExtnameState,
      NodePath.extname_loop (pre +:+ name) (String.length pre + k) st'
      = NodePath.extname_loop (pre +:+ name) (String.length pre) st2'
      /\ shifted (String.length pre) (NodePath.extname_loop name k st) st2'.
Proof.
  intros Hname. set (off := String.length pre).
  induction k as [|k IH]; intros st st' Hk Hs.
  - exists st'. rewrite Nat.add_0_r. split; [reflexivity | exact Hs].
  - replace (off + S k) with (S (off + k)) by lia.
    rewrite !extname_loop_S.
    destruct (no_separator_get name Hname k ltac:(lia)) as (c & Hget & Hc).
    assert (Hget' : String.get (off + k) (pre +:+ name) = Some c).
    { rewrite <- Hget. rewrite (Nat.add_comm off k).
      symmetry. apply append_correct2. }
    rewrite Hget', Hget, Hc. cbv zeta.
    destruct Hs as (Hd & He & Hsd & Hse & Hm & Hp & Hsp & Hsp' & Hseen).
    rewrite Hse, (shift_eqb off _ He).
    set (st1 := if (NodePath.end_ st =? -1)%Z then _ else st).
    set (st1' := if (NodePath.end_ st =? -1)%Z then _ else st').
    assert (Hs1 : shifted off st1 st1'
                  /\ NodePath.end_ st1 <> (-1)%Z).
    { subst st1 st1'. destruct (NodePath.end_ st =? -1)%Z eqn:E.
      - split; [|simpl; lia].
        unfold shifted, shift. simpl.
        replace (Z.of_nat k + 1 =? -1)%Z with false by (symmetry; apply Z.eqb_neq; lia).
        repeat split; try assumption; try lia; try (right; reflexivity).
      - apply Z.eqb_neq in E. split; [|exact E].
        unfold shifted. repeat split; assumption. }
    destruct Hs1 as [(Hd1 & He1 & Hsd1 & Hse1 & Hm1 & Hp1 & Hsp1 & Hsp1' & Hseen1) Hend1].
    apply IH; [lia|].
    rewrite Hsd1, (shift_eqb off _ Hd1), Hp1.
    destruct (Ascii.eqb c ".").
    + destruct (NodePath.startDot st1 =? -1)%Z eqn:E.
      * unfold shifted, shift. simpl.
        replace (Z.of_nat k =? -1)%Z with false by (symmetry; apply Z.eqb_neq; lia).
        repeat split; try assumption; try lia.
      * destruct (negb (NodePath.preDotState st1 =? 1)%Z).
        -- unfold shifted. simpl. repeat split; assumption.
        -- unfold shifted. repeat split; assumption.
    + destruct (negb (NodePath.startDot st1 =? -1)%Z).
      * unfold shifted. simpl. repeat split; assumption.
      * unfold shifted. repeat split; assumption.
Qed.

Lemma substring_app_skip (a b : string) (n m : nat) :
  substring (String.length a + n) m (a +:+ b) = substring n m b.
Proof.
  induction a as [|c a IH]; [reflexivity|]. rewrite string_app_cons. exact IH.
Qed.

(** The extension of a path is the extension of its last name. *)
Lemma extname_join (dir name : string) :
  entry_name name = true ->
  NodePath.extname (NodePath.join dir name) = NodePath.extname name.
Proof.
  intros Hname. unfold entry_name in Hname.
  apply andb_prop in Hname as [Hne Hsep].
  apply negb_true_iff, String.eqb_neq in Hne.
  unfold NodePath.join.
  set (pre := dir +:+ "/").
  replace (dir +:+ "/" +:+ name) with (pre +:+ name)
    by (unfold pre; apply string_app_assoc).
  assert (Hpre : String.length pre = S (String.length dir)).
  { unfold pre. rewrite string_length_app. simpl. lia. }
  assert (Hslash : String.get (String.length dir) (pre +:+ name) = Some "/"%char).
  { unfold pre. rewrite string_app_assoc.
    exact (eq_sym (append_correct2 dir ("/" +:+ name) 0)). }
  assert (Hinit : shifted (String.length pre) NodePath.extname_init NodePath.extname_init).
  { unfold shifted, shift. simpl. repeat split; try lia; auto. }
  destruct (extname_loop_shifted pre name Hsep (String.length name)
              NodePath.extname_init NodePath.extname_init (Nat.le_refl _) Hinit)
    as (st' & Hloop & Hs).
  set (final := NodePath.extname_loop name (String.length name) NodePath.extname_init) in *.
  destruct Hs as (Hd & He & Hsd & Hse & Hm & Hp & Hsp & Hsp' & Hseen).
  assert (Hfinal : NodePath.end_ final <> (-1)%Z /\ NodePath.matchedSlash final = false).
  { subst final. destruct name as [|a name]; [contradiction|].
    simpl String.length. rewrite extname_loop_S.
    destruct (no_separator_get (String a name) Hsep (String.length name))
      as (c & Hget & Hc); [simpl; lia|].
    rewrite Hget, Hc. cbv zeta. simpl (NodePath.end_ NodePath.extname_init =? -1)%Z.
    cbv iota.
    match goal with
    | |- context [NodePath.extname_loop _ _ ?st] =>
        assert (Hinv : NodePath.end_ st <> (-1)%Z /\ NodePath.matchedSlash st = false)
          by (destruct (Ascii.eqb c "."); simpl; split; (lia || reflexivity));
        generalize dependent st
    end.
    assert (Hbound : String.length name <= String.length (String a name)) by (simpl; lia).
    revert Hbound. generalize (String.length name) as k.
    induction k as [|k IHk]; intros Hk st [Hend Hms]; [simpl; auto|].
    rewrite extname_loop_S.
    destruct (no_separator_get (String a name) Hsep k ltac:(lia)) as (c' & Hget' & Hc').
    rewrite Hget', Hc'. cbv zeta.
    apply Z.eqb_neq in Hend. rewrite Hend. apply Z.eqb_neq in Hend.
    apply IHk; [lia|].
    destruct (Ascii.eqb c' ".");
      repeat match goal with |- context [if ?b then _ else _] => destruct b end;
      simpl; auto. }
  destruct Hfinal as [Hend Hms].
  unfold NodePath.extname.
  rewrite string_length_app, Hloop. fold final.
  rewrite Hpre, extname_loop_S, Hslash. simpl Ascii.eqb. cbv iota.
  rewrite Hm, Hms. simpl negb. cbv iota.
  simpl NodePath.startDot. simpl NodePath.end_. simpl NodePath.preDotState.
  simpl NodePath.startPart.
  rewrite Hsd, Hse, Hp, Hsp.
  rewrite (shift_eqb _ _ Hd), (shift_eqb _ _ He).
  destruct (NodePath.startDot final =? -1)%Z eqn:E1; [reflexivity|].
  destruct (NodePath.end_ final =? -1)%Z eqn:E2; [reflexivity|].
  simpl orb.
  apply Z.eqb_neq in E1. apply Z.eqb_neq in E2.
  unfold shift.
  replace (NodePath.startDot final =? -1)%Z with false by (symmetry; apply Z.eqb_neq; lia).
  replace (NodePath.end_ final =? -1)%Z with false by (symmetry; apply Z.eqb_neq; lia).
  replace (NodePath.startDot final + Z.of_nat (String.length pre)
           =? NodePath.end_ final + Z.of_nat (String.length pre) - 1)%Z
    with (NodePath.startDot final =? NodePath.end_ final - 1)%Z.
  2:{ destruct (NodePath.startDot final =? NodePath.end_ final - 1)%Z eqn:E;
      symmetry; [apply Z.eqb_eq in E; apply Z.eqb_eq | apply Z.eqb_neq in E; apply Z.eqb_neq];
      lia. }
  replace (NodePath.startDot final + Z.of_nat (String.length pre)
           =? Z.of_nat (String.length dir) + 1 + 1)%Z
    with (NodePath.startDot final =? 0 + 1)%Z.
  2:{ destruct (NodePath.startDot final =? 0 + 1)%Z eqn:E;
      symmetry; [apply Z.eqb_eq in E; apply Z.eqb_eq | apply Z.eqb_neq in E; apply Z.eqb_neq];
      lia. }
  match goal with |- (if ?b then _ else _) = _ => destruct b; [reflexivity|] end.
  replace (Z.to_nat (NodePath.startDot final + Z.of_nat (String.length pre)))
    with (String.length pre + Z.to_nat (NodePath.startDot final)) by lia.
  replace (NodePath.end_ final + Z.of_nat (String.length pre)
           - (NodePath.startDot final + Z.of_nat (String.length pre)))%Z
    with (NodePath.end_ final - NodePath.startDot final)%Z by lia.
  apply substring_app_skip.
Qed.

(** X12. The temporary path of a file with a supported extension has
    that extension too, in lower case: [path.extname] of
    [<path>.tmp<ext>] is [<ext>]. A temporary file is therefore itself a
    file that [isVideoFile] accepts, unless a pattern excludes it. *)
Theorem temp_file_has_the_extension (videoFile : string) :
  supported (NodePath.extname videoFile) ->
  NodePath.extname (Batched.tempOutputPath_of videoFile)
  = Js.toLowerCase (NodePath.extname videoFile)
  /\ isVideoFile (Batched.tempOutputPath_of videoFile) [] = true.
Proof.
  intros Hsup.
  assert (Hext : NodePath.extname (Batched.tempOutputPath_of videoFile)
                 = Js.toLowerCase (NodePath.extname videoFile)).
  { unfold Batched.tempOutputPath_of.
    destruct (supported_cases _ Hsup) as [E|[E|[E|E]]]; rewrite E;
      match goal with
      | |- NodePath.extname (_ +:+ ".tmp" +:+ String "." ?letters) = _ =>
          replace (videoFile +:+ ".tmp" +:+ String "." letters)
            with ((videoFile +:+ ".tm") +:+ String "p" (String "." letters))
            by (rewrite string_app_assoc; reflexivity);
          apply extname_of_suffix; [reflexivity | discriminate | reflexivity]
      end. }
  split; [exact Hext|].
  unfold isVideoFile. rewrite Hext, toLowerCase_idempotent.
  apply is_video_extension_supported in Hsup. rewrite Hsup. reflexivity.
Qed.

Lemma temp_file_has_the_extension_witness :
  NodePath.extname (Batched.tempOutputPath_of "/out/Clip.MP4") = ".mp4"
  /\ isVideoFile (Batched.tempOutputPath_of "/out/Clip.MP4") [] = true.
Proof.
  assert (H : supported (NodePath.extname "/out/Clip.MP4"))
    by (unfold supported; vm_compute; auto).
  exact (temp_file_has_the_extension "/out/Clip.MP4" H).
Defined.

Lemma file_under_well_named (dir : string) (entries : list Dirent) (path name : string) :
  file_under dir entries path name ->
  forallb well_named entries = true ->
  exists parent, path = NodePath.join parent name /\ entry_name name = true.
Proof.
  induction 1 as [dir entries name Hin|dir entries sub subentries path name Hin _ IH];
    intros Hwell; rewrite forallb_forall in Hwell.
  - exists dir. split; [reflexivity|].
    specialize (Hwell _ Hin). simpl in Hwell. rewrite andb_true_r in Hwell. exact Hwell.
  - apply IH. specialize (Hwell _ Hin). simpl in Hwell.
    apply andb_prop in Hwell as [_ Hwell]. exact Hwell.
Qed.

(** X13. In a tree whose entries have the names that [readdir] gives
    (not empty, without separator), every path that the scan returns has,
    when [processFile] computes it again from the path, the extension that
    [isVideoFile] saw on the name, and it is a supported one: the format
    configuration never takes its fallback for a scanned file. *)
Theorem scanned_paths_have_supported_extensions (dir : string)
  (entries : list Dirent) (exclude : list string) (path : string) :
  forallb well_named entries = true ->
  In path (findVideoFiles dir (Some entries) exclude) ->
  exists name,
    file_under dir entries path name
    /\ NodePath.extname path = NodePath.extname name
    /\ supported (NodePath.extname path)
    /\ is_video_extension (Js.toLowerCase (NodePath.extname path)) = true.
Proof.
  intros Hwell Hin.
  apply findVideoFiles_files in Hin as (name & Hvideo & Hunder).
  destruct (file_under_well_named _ _ _ _ Hunder Hwell) as (parent & -> & Hname).
  apply isVideoFile_iff in Hvideo as [Hsup _].
  exists name. rewrite (extname_join parent name Hname).
  split; [exact Hunder|]. split; [reflexivity|]. split; [exact Hsup|].
  apply is_video_extension_supported. exact Hsup.
Qed.

Lemma scanned_paths_have_supported_extensions_witness :
  supported (NodePath.extname "/out/sub.d/Clip.MOV").
Proof.
  assert (Hwell : forallb well_named [File "a.txt"; Directory "sub.d" [File "Clip.MOV"]]
                  = true) by (vm_compute; reflexivity).
  assert (Hin : In "/out/sub.d/Clip.MOV"
                   (findVideoFiles "/out"
                      (Some [File "a.txt"; Directory "sub.d" [File "Clip.MOV"]]) []))
    by (vm_compute; auto).
  destruct (scanned_paths_have_supported_extensions "/out"
              [File "a.txt"; Directory "sub.d" [File "Clip.MOV"]] [] "/out/sub.d/Clip.MOV"
              Hwell Hin) as (name & _ & _ & H & _).
  exact H.
Defined.

(** ** The sequential variants *)

Lemma confined_ret {A : Type} (paths : list string) (a : A) :
  confined_io paths (ret a).
Proof. intros fs result fs' H. injection H as <- <-. apply changes_refl. Qed.

Lemma confined_bind {A B : Type} (paths : list string) (m : IO A) (k : A -> IO B) :
  confined_io paths m ->
  (forall a, confined_io paths (k a)) ->
  confined_io paths (bind m k).
Proof.
  intros Hm Hk fs result fs'. unfold bind.
  destruct (m fs) as [[a|e] fs1] eqn:E; intros H.
  - eapply changes_trans; [eapply Hm; exact E | eapply Hk; exact H].
  - injection H as <- <-. eapply Hm. exact E.
Qed.

Lemma confined_try_catch {A : Type} (paths : list string) (body : IO A)
  (handler : string -> IO A) :
  confined_io paths body ->
  (forall e, confined_io paths (handler e)) ->
  confined_io paths (try_catch body handler).
Proof.
  intros Hbody Hhandler fs result fs'. unfold try_catch.
  destruct (body fs) as [[a|e] fs1] eqn:E; intros H.
  - injection H as <- <-. eapply Hbody. exact E.
  - eapply changes_trans; [eapply Hbody; exact E | eapply Hhandler; exact H].
Qed.

Lemma confined_log (paths : list string) (line : Line) :
  confined_io paths (Console.log line).
Proof. intros fs result fs' H. injection H as <- <-. apply changes_write. Qed.

Lemma confined_error (paths : list string) (line : Line) :
  confined_io paths (Console.error line).
Proof. intros fs result fs' H. injection H as <- <-. apply changes_write. Qed.

Lemma confined_stat (paths : list string) (path : string) :
  confined_io paths (Fs.stat path).
Proof.
  intros fs result fs' H. apply stat_cases in H as [-> _]. apply changes_refl.
Qed.

Lemma confined_readFile (paths : list string) (path : string) :
  confined_io paths (Fs.readFile path).
Proof.
  intros fs result fs' H. apply readFile_cases in H as [-> _]. apply changes_refl.
Qed.

Lemma confined_existsSync (paths : list string) (path : string) :
  confined_io paths (Fs.existsSync path).
Proof. intros fs result fs' H. injection H as <- <-. apply changes_refl. Qed.

Lemma confined_unlink (paths : list string) (path : string) :
  In path paths -> confined_io paths (Fs.unlink path).
Proof. intros Hin fs result fs' H. eapply unlink_changes; eassumption. Qed.

Lemma confined_writeFile (paths : list string) (path data : string) :
  In path paths -> confined_io paths (Fs.writeFile path data).
Proof. intros Hin fs result fs' H. eapply writeFile_changes; eassumption. Qed.

Lemma confined_engine (engine : Ffmpeg.Engine) (paths : list string)
  (cmd : Ffmpeg.Command) :
  engine_confined engine ->
  In (Ffmpeg.output cmd) paths ->
  confined_io paths (engine cmd).
Proof. intros Hc Hin fs result fs' H. eapply engine_changes; eassumption. Qed.

Create HintDb confined.

#[local] Hint Resolve confined_ret confined_log confined_error confined_stat
  confined_readFile confined_existsSync confined_unlink confined_writeFile
  confined_engine : confined.

Ltac confined :=
  repeat first
    [ apply confined_try_catch; [|intros ?]
    | apply confined_bind; [|intros ?]
    | match goal with |- confined_io _ (if ?b then _ else _) => destruct b end
    | solve [eauto with confined] ].

(** One iteration of the sequential loop changes at most the file and its
    temporary file. *)
Lemma DistSeq_file_confined (engine : Ffmpeg.Engine)
  (options : DistSeq.OptimizeVideosOptions.t) (videoFile : string) :
  engine_confined engine ->
  confined_io [videoFile; Batched.tempOutputPath_of videoFile]
    (DistSeq.closeBundle_file engine options videoFile).
Proof.
  intros Hconfined.
  assert (Hfile : In videoFile [videoFile; Batched.tempOutputPath_of videoFile])
    by (left; reflexivity).
  assert (Htemp : In (Batched.tempOutputPath_of videoFile)
                     [videoFile; Batched.tempOutputPath_of videoFile])
    by (right; left; reflexivity).
  unfold DistSeq.closeBundle_file, DistSeq.closeBundle_try, DistSeq.closeBundle_catch,
    DistSeq.optimizeVideo.
  fold (Batched.tempOutputPath_of videoFile).
  confined.
Qed.

(** The [catch] block of the sequential loop. *)
Lemma DistSeq_catch_cases (fileName tempOutputPath e : string)
  (fs fs' : FileSystem) (result : Result DistSeq.Outcome) :
  DistSeq.closeBundle_catch fileName tempOutputPath e fs = (result, fs') ->
  let logged := Console.write (ErrorOptimizing fileName e) fs in
  (result = Ok (DistSeq.Failed e)
   /\ fs' !! tempOutputPath = None
   /\ (fs' = logged \/ fs' = delete tempOutputPath logged))
  \/ (exists e',
         result = Err e'
         /\ fs' = logged
         /\ is_Some (fs !! tempOutputPath)
         /\ refused fs (Unlink tempOutputPath) = Some e').
Proof.
  intros H logged.
  assert (Hlookup : logged !! tempOutputPath = fs !! tempOutputPath) by reflexivity.
  assert (Hrefused : refused logged = refused fs) by reflexivity.
  unfold DistSeq.closeBundle_catch, bind, ret, Console.error, Fs.existsSync,
    Fs.unlink in H.
  cbv beta iota in H. fold logged in H.
  rewrite ?Hlookup in H.
  destruct (fs !! tempOutputPath) as [data|] eqn:E.
  - rewrite bool_decide_eq_true_2 in H by eauto.
    rewrite ?Hlookup, ?E, ?Hrefused in H.
    destruct (refused fs (Unlink tempOutputPath)) as [e'|] eqn:Hr;
      injection H as <- <-.
    + right. exists e'. eauto.
    + left. split; [reflexivity|]. split; [apply fs_lookup_delete_eq | auto].
  - rewrite bool_decide_eq_false_2 in H by (intros [x Hx]; discriminate Hx).
    injection H as <- <-. left. auto.
Qed.

(** The [try] block of the sequential loop never returns through the
    [catch] block. *)
Lemma DistSeq_try_done (engine : Ffmpeg.Engine)
  (options : DistSeq.OptimizeVideosOptions.t)
  (videoFile fileName ext tempOutputPath : string) (fs fs' : FileSystem)
  (outcome : DistSeq.Outcome) :
  DistSeq.closeBundle_try engine options videoFile fileName ext tempOutputPath fs
  = (Ok outcome, fs') ->
  exists sizes, outcome = DistSeq.Done sizes.
Proof.
  unfold DistSeq.closeBundle_try, bind, ret.
  repeat match goal with
         | |- context [match ?x with _ => _ end] =>
             lazymatch x with
             | context [match _ with _ => _ end] => fail
             | _ => destruct x
             end
         end; intros H; try discriminate H.
  injection H as <- <-. eauto.
Qed.

Lemma DistSeq_file_fulfils (engine : Ffmpeg.Engine)
  (options : DistSeq.OptimizeVideosOptions.t) (videoFile : string) (fs : FileSystem) :
  engine_confined engine ->
  refused fs (Unlink (Batched.tempOutputPath_of videoFile)) = None ->
  exists outcome fs',
    DistSeq.closeBundle_file engine options videoFile fs = (Ok outcome, fs')
    /\ refused fs' = refused fs.
Proof.
  intros Hconfined Hallowed.
  destruct (DistSeq.closeBundle_file engine options videoFile fs)
    as [[outcome|e'] fs'] eqn:Hrun.
  - exists outcome, fs'. split; [reflexivity|].
    apply (DistSeq_file_confined engine options videoFile Hconfined _ _ _ Hrun).
  - exfalso. revert Hrun. unfold DistSeq.closeBundle_file, try_catch.
    fold (Batched.tempOutputPath_of videoFile).
    destruct (DistSeq.closeBundle_try engine options videoFile _ _ _ fs)
      as [[outcome|e] fs1] eqn:Htry; [discriminate|].
    intros Hcatch.
    apply DistSeq_catch_cases in Hcatch
      as [(E & _)|(e0 & _ & _ & _ & Hrefused)]; [discriminate E|].
    assert (Hsame : refused fs1 = refused fs).
    { assert (Hc : confined_io [videoFile; Batched.tempOutputPath_of videoFile]
                     (DistSeq.closeBundle_try engine options videoFile
                        (NodePath.basename videoFile)
                        (Js.toLowerCase (NodePath.extname videoFile))
                        (Batched.tempOutputPath_of videoFile))).
      { unfold DistSeq.closeBundle_try, DistSeq.optimizeVideo.
        assert (Hfile : In videoFile [videoFile; Batched.tempOutputPath_of videoFile])
          by (left; reflexivity).
        assert (Htemp : In (Batched.tempOutputPath_of videoFile)
                           [videoFile; Batched.tempOutputPath_of videoFile])
          by (right; left; reflexivity).
        confined. }
      apply (Hc _ _ _ Htry). }
    rewrite Hsame, Hallowed in Hrefused. discriminate Hrefused.
Qed.

Lemma DistSeq_loop_fulfils (engine : Ffmpeg.Engine)
  (options : DistSeq.OptimizeVideosOptions.t) (videoFiles : list string) :
  engine_confined engine ->
  forall fs,
    (forall file, In file videoFiles ->
                  refused fs (Unlink (Batched.tempOutputPath_of file)) = None) ->
    exists outcomes fs',
      DistSeq.closeBundle_loop engine options videoFiles fs = (Ok outcomes, fs')
      /\ length outcomes = length videoFiles.
Proof.
  intros Hconfined.
  induction videoFiles as [|videoFile rest IH]; intros fs Hallowed; simpl.
  - exists [], fs. auto.
  - unfold bind.
    destruct (DistSeq_file_fulfils engine options videoFile fs Hconfined)
      as (outcome & fs1 & -> & Hsame);
      [apply Hallowed; left; reflexivity|].
    destruct (IH fs1) as (outcomes & fs2 & -> & Hlen).
    { intros file Hin. rewrite Hsame. apply Hallowed. right. exact Hin. }
    exists (outcome :: outcomes), fs2. simpl. auto.
Qed.

(** X14. The loop of the sequential [closeBundle] stops only when the
    removal awaited in a [catch] block fails. An iteration throws exactly
    in this way: its [try] block has failed, the error line is written,
    the temporary file is there and the system refuses its removal; the
    loop is then rejected with the error of the removal and the files that
    follow are not processed. An iteration that ends in its [catch] block
    has written the error line and leaves no temporary file. With a
    confined engine, on a system that refuses the removal of no temporary
    file, the loop is fulfilled with one outcome for each candidate. Over
    two lists in a row it is the loop over the first, then the loop over
    the second on the state the first left, and when the scan returns
    nothing [closeBundle] leaves the state as it is. *)
Theorem sequential_loop_stops_only_in_catch (engine : Ffmpeg.Engine)
  (options : DistSeq.OptimizeVideosOptions.t) (fs : FileSystem) :
  (forall videoFile e' fs',
      DistSeq.closeBundle_file engine options videoFile fs = (Err e', fs') ->
      let fileName := NodePath.basename videoFile in
      let ext := Js.toLowerCase (NodePath.extname videoFile) in
      let temp := videoFile +:+ ".tmp" +:+ ext in
      exists e fs1,
        DistSeq.closeBundle_try engine options videoFile fileName ext temp fs
        = (Err e, fs1)
        /\ is_Some (fs1 !! temp)
        /\ refused fs1 (Unlink temp) = Some e'
        /\ fs' = Console.write (ErrorOptimizing fileName e) fs1)
  /\ (forall videoFile rest e' fs',
         DistSeq.closeBundle_file engine options videoFile fs = (Err e', fs') ->
         DistSeq.closeBundle_loop engine options (videoFile :: rest) fs
         = (Err e', fs'))
  /\ (forall videoFile e fs',
         DistSeq.closeBundle_file engine options videoFile fs
         = (Ok (DistSeq.Failed e), fs') ->
         fs' !! (videoFile +:+ ".tmp" +:+ Js.toLowerCase (NodePath.extname videoFile))
         = None
         /\ In (ErrorOptimizing (NodePath.basename videoFile) e) (console fs'))
  /\ (engine_confined engine ->
      forall videoFiles,
        (forall file,
            In file videoFiles ->
            refused fs (Unlink (file +:+ ".tmp"
                                +:+ Js.toLowerCase (NodePath.extname file))) = None) ->
        exists outcomes fs',
          DistSeq.closeBundle_loop engine options videoFiles fs = (Ok outcomes, fs')
          /\ length outcomes = length videoFiles)
  /\ (forall first second,
         DistSeq.closeBundle_loop engine options (first ++ second) fs
         = (await outcomes1 <- DistSeq.closeBundle_loop engine options first ;;
            await outcomes2 <- DistSeq.closeBundle_loop engine options second ;;
            ret (outcomes1 ++ outcomes2))%io fs)
  /\ (forall distDir tree,
         findVideoFiles distDir tree (DistSeq.exclude_of options) = [] ->
         DistSeq.closeBundle engine options distDir tree fs = (Ok [], fs)).
Proof.
  split; [|split; [|split; [|split; [|split]]]].
  - intros videoFile e' fs' Hrun fileName ext temp. revert Hrun.
    unfold DistSeq.closeBundle_file, try_catch. fold fileName ext temp.
    destruct (DistSeq.closeBundle_try engine options videoFile fileName ext temp fs)
      as [[outcome|e] fs1] eqn:Htry; [discriminate|].
    intros Hcatch.
    apply DistSeq_catch_cases in Hcatch
      as [(E & _)|(e0 & E & -> & Hsome & Hrefused)]; [discriminate E|].
    injection E as <-. exists e, fs1. auto.
  - intros videoFile rest e' fs' Hrun. simpl. unfold bind. rewrite Hrun. reflexivity.
  - intros videoFile e fs'.
    unfold DistSeq.closeBundle_file, try_catch.
    destruct (DistSeq.closeBundle_try engine options videoFile _ _ _ fs)
      as [[outcome|e0] fs1] eqn:Htry.
    + intros H. injection H as -> <-.
      apply DistSeq_try_done in Htry as [sizes E]. discriminate E.
    + intros Hcatch.
      apply DistSeq_catch_cases in Hcatch
        as [(E & Hnone & Hfs)|(e1 & E & _)]; [|discriminate E].
      injection E as <-. split; [exact Hnone|].
      destruct Hfs as [->| ->]; simpl; apply in_or_app; right; left; reflexivity.
  - intros Hconfined videoFiles Hallowed.
    apply DistSeq_loop_fulfils; assumption.
  - intros first second. revert fs.
    induction first as [|videoFile first IH]; intros fs; simpl.
    + unfold bind, ret.
      destruct (DistSeq.closeBundle_loop engine options second fs) as [[o|e] fs'];
        reflexivity.
    + unfold bind, ret in *.
      destruct (DistSeq.closeBundle_file engine options videoFile fs) as [[o|e] fs1];
        [|reflexivity].
      rewrite IH.
      destruct (DistSeq.closeBundle_loop engine options first fs1) as [[o1|e1] fs2];
        [|reflexivity].
      destruct (DistSeq.closeBundle_loop engine options second fs2) as [[o2|e2] fs3];
        reflexivity.
  - intros distDir tree Hnone. unfold DistSeq.closeBundle.
    destruct tree as [entries|]; [|reflexivity]. rewrite Hnone. reflexivity.
Qed.

Lemma sequential_loop_stops_only_in_catch_witness :
  (exists outcomes fs',
      DistSeq.closeBundle_loop sample_engine no_options_DistSeq three_files sample_store
      = (Ok outcomes, fs')
      /\ length outcomes = 3)
  /\ DistSeq.closeBundle_loop sample_engine no_options_DistSeq
       ["/out/b.webm"; "/out/c.mov"] guarded_store
     = (Err "EPERM: operation not permitted",
        snd (DistSeq.closeBundle_file sample_engine no_options_DistSeq
               "/out/b.webm" guarded_store))
  /\ DistSeq.closeBundle sample_engine no_options_DistSeq "/out" (Some []) sample_store
     = (Ok [], sample_store).
Proof.
  split; [|split].
  - destruct (sequential_loop_stops_only_in_catch sample_engine no_options_DistSeq
                sample_store) as (_ & _ & _ & Hloop & _).
    destruct (Hloop sample_engine_confined three_files) as (outcomes & fs' & Hrun & Hlen).
    { intros file _. reflexivity. }
    exists outcomes, fs'. split; [exact Hrun | exact Hlen].
  - destruct (sequential_loop_stops_only_in_catch sample_engine no_options_DistSeq
                guarded_store) as (_ & Hstop & _).
    apply Hstop. vm_compute. reflexivity.
  - destruct (sequential_loop_stops_only_in_catch sample_engine no_options_DistSeq
                sample_store) as (_ & _ & _ & _ & _ & Hempty).
    apply Hempty. reflexivity.
Defined.

Lemma getVideoOptions_without_mute (ext : string) (videoDir : option string)
  (options : Batched.OptimizeVideosOptions.t) :
  DistSeq.getVideoOptions ext (without_mute_DistSeq options)
  = to_DistSeq (Batched.getVideoOptions ext options)
  /\ VideoDir.getVideoOptions ext (without_mute_VideoDir videoDir options)
     = to_VideoDir (Batched.getVideoOptions ext options).
Proof.
  unfold DistSeq.getVideoOptions, VideoDir.getVideoOptions, Batched.getVideoOptions,
    to_DistSeq, to_VideoDir.
  rewrite format_options_without_mute_DistSeq, format_options_without_mute_VideoDir.
  destruct (Batched.format_options options (Js.toLowerCase ext)) as [override|];
    split; reflexivity.
Qed.

Lemma sequential_commands_agree (inputPath outputPath : string)
  (opts : Batched.VideoOptions.t) :
  VideoDir.optimizeVideo_command inputPath outputPath (to_VideoDir opts)
  = DistSeq.optimizeVideo_command inputPath outputPath (to_DistSeq opts).
Proof.
  unfold VideoDir.optimizeVideo_command, DistSeq.optimizeVideo_command,
    VideoDir.getFormatConfig, DistSeq.getFormatConfig, to_VideoDir, to_DistSeq.
  cbn [VideoDir.VideoOptions.preset VideoDir.VideoOptions.quality
       DistSeq.VideoOptions.preset DistSeq.VideoOptions.quality].
  repeat match goal with |- context [String.eqb ?a ?b] => destruct (String.eqb a b) end;
    reflexivity.
Qed.

Lemma sequential_files_agree (engine : Ffmpeg.Engine) (videoDir : option string)
  (options : Batched.OptimizeVideosOptions.t) (videoFile : string) (fs : FileSystem) :
  VideoDir.closeBundle_file engine (without_mute_VideoDir videoDir options) videoFile fs
  = result_map outcome_VideoDir
      (DistSeq.closeBundle_file engine (without_mute_DistSeq options) videoFile fs).
Proof.
  unfold VideoDir.closeBundle_file, DistSeq.closeBundle_file, try_catch,
    VideoDir.closeBundle_try, DistSeq.closeBundle_try,
    VideoDir.optimizeVideo, DistSeq.optimizeVideo,
    VideoDir.closeBundle_catch, DistSeq.closeBundle_catch.
  destruct (getVideoOptions_without_mute
              (Js.toLowerCase (NodePath.extname videoFile)) videoDir options) as [-> ->].
  rewrite sequential_commands_agree.
  unfold bind, ret, result_map.
  repeat match goal with
         | |- context [match ?x with _ => _ end] =>
             lazymatch x with
             | context [match _ with _ => _ end] => fail
             | _ => destruct x
             end
         end; reflexivity.
Qed.

(** X15. On the same options, the two sequential variants do the same to
    every list of files and every store: the loop of [closeBundle] of the
    variant that scans [videoDir] ends as the loop of the other one does,
    with the same store and the same lines, and so does [closeBundle]
    itself on the same directory. *)
Theorem sequential_variants_agree (engine : Ffmpeg.Engine) (videoDir : option string)
  (options : Batched.OptimizeVideosOptions.t) (fs : FileSystem) :
  (forall videoFiles,
      VideoDir.closeBundle_loop engine (without_mute_VideoDir videoDir options)
        videoFiles fs
      = result_map (map outcome_VideoDir)
          (DistSeq.closeBundle_loop engine (without_mute_DistSeq options) videoFiles fs))
  /\ (forall dir tree,
         VideoDir.closeBundle engine (without_mute_VideoDir videoDir options) dir tree fs
         = result_map (map outcome_VideoDir)
             (DistSeq.closeBundle engine (without_mute_DistSeq options) dir tree fs)).
Proof.
  assert (Hloop : forall videoFiles fs0,
    VideoDir.closeBundle_loop engine (without_mute_VideoDir videoDir options)
      videoFiles fs0
    = result_map (map outcome_VideoDir)
        (DistSeq.closeBundle_loop engine (without_mute_DistSeq options) videoFiles fs0)).
  { induction videoFiles as [|videoFile rest IH]; intros fs0; simpl; [reflexivity|].
    unfold bind, ret. rewrite sequential_files_agree.
    destruct (DistSeq.closeBundle_file engine (without_mute_DistSeq options)
                videoFile fs0) as [[o|e] fs1]; simpl; [|reflexivity].
    rewrite IH.
    destruct (DistSeq.closeBundle_loop engine (without_mute_DistSeq options) rest fs1)
      as [[os|e] fs2]; reflexivity. }
  split; [intros videoFiles; apply Hloop|].
  intros dir tree. unfold VideoDir.closeBundle, DistSeq.closeBundle.
  destruct tree as [entries|]; [|reflexivity].
  change (VideoDir.exclude_of (without_mute_VideoDir videoDir options))
    with (DistSeq.exclude_of (without_mute_DistSeq options)).
  destruct (length (findVideoFiles dir (Some entries)
                      (DistSeq.exclude_of (without_mute_DistSeq options))) =? 0)%nat;
    [reflexivity | apply Hloop].
Qed.

(** ** One file at a time *)

Lemma processFile_steps_add (engine : Ffmpeg.Engine)
  (options : Batched.OptimizeVideosOptions.t) (videoFile : string) (n m : nat) :
  forall stage fs,
    Batched.processFile_steps engine options videoFile (n + m) stage fs
    = let '(stage', fs') :=
        Batched.processFile_steps engine options videoFile n stage fs in
      Batched.processFile_steps engine options videoFile m stage' fs'.
Proof.
  induction n as [|n IH]; intros stage fs; simpl; [reflexivity|].
  destruct (Batched.processFile_step engine options videoFile stage fs) as [stage1 fs1].
  apply IH.
Qed.

Lemma processFile_steps_remaining (engine : Ffmpeg.Engine)
  (options : Batched.OptimizeVideosOptions.t) (videoFile : string) (n : nat) :
  forall stage fs,
    Batched.remaining
      (fst (Batched.processFile_steps engine options videoFile n stage fs))
    <= Batched.remaining stage - n.
Proof.
  induction n as [|n IH]; intros stage fs; simpl; [lia|].
  destruct (Batched.processFile_step engine options videoFile stage fs)
    as [stage1 fs1] eqn:Hstep.
  specialize (IH stage1 fs1).
  destruct (Batched.is_settled stage) eqn:Hs.
  - destruct stage; try discriminate Hs.
    unfold Batched.processFile_step in Hstep. injection Hstep as <- <-.
    simpl in *. lia.
  - pose proof (step_remaining _ _ _ _ _ _ _ Hstep Hs). lia.
Qed.

Lemma remaining_zero_settled (stage : Batched.Stage) :
  Batched.remaining stage = 0 -> exists result, stage = Batched.Settled result.
Proof. destruct stage; simpl; try discriminate. eauto. Qed.

(** A unit that has settled after some number of steps on its own has
    ended as [processFile] ends. *)
Lemma settled_steps_are_processFile (engine : Ffmpeg.Engine)
  (options : Batched.OptimizeVideosOptions.t) (videoFile : string) (k : nat)
  (result : Result Batched.Outcome) (fs fs' : FileSystem) :
  Batched.processFile_steps engine options videoFile k Batched.AwaitStatInput
    (Batched.called [videoFile] fs)
  = (Batched.Settled result, fs') ->
  Batched.processFile engine options videoFile fs = (result, fs').
Proof.
  intros Hk.
  assert (H8 : Batched.processFile_steps engine options videoFile 8
                 Batched.AwaitStatInput (Batched.called [videoFile] fs)
               = (Batched.Settled result, fs')).
  { destruct (le_lt_dec k 8) as [Hle|Hgt].
    - replace 8 with (k + (8 - k)) by lia.
      rewrite processFile_steps_add, Hk. apply processFile_steps_settled.
    - pose proof (processFile_steps_remaining engine options videoFile 8
                    Batched.AwaitStatInput (Batched.called [videoFile] fs)) as Hrem.
      destruct (Batched.processFile_steps engine options videoFile 8
                  Batched.AwaitStatInput (Batched.called [videoFile] fs))
        as [stage8 fs8] eqn:E8.
      simpl in Hrem.
      destruct (remaining_zero_settled stage8 ltac:(lia)) as [r8 ->].
      replace k with (8 + (k - 8)) in Hk by lia.
      rewrite processFile_steps_add, E8, processFile_steps_settled in Hk.
      exact Hk. }
  rewrite processFile_steps_processFile in H8.
  destruct (Batched.processFile engine options videoFile fs) as [r fs1].
  injection H8 as -> ->. reflexivity.
Qed.

Lemma process_in_order_snoc (engine : Ffmpeg.Engine)
  (options : Batched.OptimizeVideosOptions.t) (files : list string) (file : string) :
  forall fs,
    snd (process_in_order engine options (files ++ [file]) fs)
    = snd (Batched.processFile engine options file
             (snd (process_in_order engine options files fs))).
Proof.
  induction files as [|f files IH]; intros fs; simpl.
  - destruct (Batched.processFile engine options file fs); reflexivity.
  - destruct (Batched.processFile engine options f fs) as [r fs1].
    specialize (IH fs1).
    destruct (process_in_order engine options (files ++ [file]) fs1).
    destruct (process_in_order engine options files fs1).
    exact IH.
Qed.

Lemma firstn_S_lookup {A : Type} (l : list A) (g : nat) (x : A) :
  l !! g = Some x -> firstn (S g) l = firstn g l ++ [x].
Proof.
  revert g. induction l as [|a l IH]; intros [|g] H; simpl in *; try discriminate H.
  - injection H as ->. reflexivity.
  - f_equal. apply IH. exact H.
Qed.

Lemma singles_lookup (files : list string) (g : nat) (chunk : list string) :
  map (fun file => [file]) files !! g = Some chunk ->
  exists file, files !! g = Some file /\ chunk = [file].
Proof. intros H. apply lookup_map_Some in H as (file & Hfile & ->). eauto. Qed.

(** The single running unit of a batch of single files. *)
Lemma singles_running (files : list string) (b : Batched.Batch) (g : nat) :
  batch_inv (map (fun file => [file]) files) b ->
  Batched.launched b = S g ->
  exists u, Batched.running b = [u] /\ files !! g = Some (Batched.videoFile u).
Proof.
  intros Hinv Hg. pose proof (inv_running _ _ Hinv) as Hr. rewrite Hg in Hr.
  apply singles_lookup in Hr as (file & Hfile & Hrun).
  destruct (Batched.running b) as [|u [|u' rest]]; simpl in Hrun; try discriminate Hrun.
  injection Hrun as Hname. subst file. eauto.
Qed.

Lemma one_at_a_time_fulfilled (engine : Ffmpeg.Engine)
  (options : Batched.OptimizeVideosOptions.t) (files : list string) (fs : FileSystem)
  (b : Batched.Batch) (g : nat) :
  batch_inv (map (fun file => [file]) files) b ->
  one_at_a_time_inv engine options files fs b ->
  Batched.launched b = S g ->
  forallb (fun u => Batched.is_fulfilled (Batched.stage u)) (Batched.running b) = true ->
  Batched.store b = snd (process_in_order engine options (firstn (S g) files) fs).
Proof.
  intros Hinv Hone Hg Hall. unfold one_at_a_time_inv in Hone. rewrite Hg in Hone.
  destruct (singles_running files b g Hinv Hg) as (u & Hrun & Hfile).
  destruct (Hone u Hrun) as [k Hk].
  destruct (fulfilled_lookup (Batched.running b) 0 u Hall) as [outcome Hstage].
  { rewrite Hrun. reflexivity. }
  rewrite Hstage in Hk. apply settled_steps_are_processFile in Hk.
  rewrite (firstn_S_lookup _ _ _ Hfile), process_in_order_snoc, Hk. reflexivity.
Qed.

Lemma one_at_a_time_step (engine : Ffmpeg.Engine)
  (options : Batched.OptimizeVideosOptions.t) (files : list string) (fs : FileSystem)
  (b b' : Batched.Batch) :
  batch_inv (map (fun file => [file]) files) b ->
  one_at_a_time_inv engine options files fs b ->
  Batched.batch_step engine options b b' ->
  one_at_a_time_inv engine options files fs b'.
Proof.
  intros Hinv Hone Hstep.
  destruct Hstep as [b chunk rest Hall Hpending|b k u Hu Hsettled].
  - unfold one_at_a_time_inv. simpl. intros u Hu.
    exists 0. simpl.
    assert (Hstage : Batched.stage u = Batched.AwaitStatInput).
    { apply (launch_stage chunk 0). rewrite Hu. reflexivity. }
    assert (Hchunk : chunk = [Batched.videoFile u]).
    { destruct chunk as [|file [|file' chunk]]; simpl in Hu; try discriminate Hu.
      injection Hu as <-. reflexivity. }
    rewrite Hstage, Hchunk. f_equal. f_equal.
    destruct (Batched.launched b) as [|g] eqn:Hg.
    + unfold one_at_a_time_inv in Hone. rewrite Hg in Hone. simpl. symmetry. exact Hone.
    + symmetry. eapply one_at_a_time_fulfilled; eassumption.
  - unfold one_at_a_time_inv in *. unfold Batched.advance.
    destruct (Batched.processFile_step engine options (Batched.videoFile u)
                (Batched.stage u) (Batched.store b)) as [stage' fs'] eqn:Hstep.
    simpl.
    destruct (Batched.launched b) as [|g] eqn:Hg.
    + pose proof (inv_running _ _ Hinv) as Hr. rewrite Hg in Hr.
      rewrite Hr in Hu. rewrite lookup_nil in Hu. discriminate Hu.
    + destruct (singles_running files b g Hinv Hg) as (u0 & Hrun & _).
      rewrite Hrun in Hu |- *.
      destruct k as [|k]; simpl in Hu; [|rewrite lookup_nil in Hu; discriminate Hu].
      injection Hu as ->. simpl.
      intros u' Hu'. injection Hu' as <-. simpl.
      destruct (Hone u Hrun) as [n Hn]. simpl in Hn.
      exists (n + 1). rewrite processFile_steps_add, Hn. simpl. rewrite Hstep.
      reflexivity.
Qed.

Lemma one_at_a_time_reachable (engine : Ffmpeg.Engine)
  (options : Batched.OptimizeVideosOptions.t) (files : list string) (fs : FileSystem)
  (b : Batched.Batch) :
  Batched.reachable engine options
    (Batched.initial fs (map (fun file => [file]) files)) b ->
  one_at_a_time_inv engine options files fs b.
Proof.
  induction 1 as [|b b' Hb IH Hstep]; [reflexivity|].
  eapply one_at_a_time_step; [|exact IH|exact Hstep].
  eapply batch_inv_reachable. exact Hb.
Qed.

Lemma unit_chunks (chunks : list (list string)) :
  (forall g chunk, chunks !! g = Some chunk -> length chunk = 1) ->
  chunks = map (fun file => [file]) (concat chunks).
Proof.
  induction chunks as [|chunk chunks IH]; intros H; simpl; [reflexivity|].
  pose proof (H 0 chunk eq_refl) as Hlen.
  destruct chunk as [|file [|file' rest]]; simpl in Hlen; try discriminate Hlen.
  simpl. f_equal. apply IH. intros g c Hc. apply (H (S g) c Hc).
Qed.

(** X16. With a concurrency of 1 the chunks are the candidates one by
    one, and the batch is a sequential loop: every completed batch that
    [closeBundle] can reach has the store that [processFile], run on the
    candidates one after the other, leaves. *)
Theorem concurrency_one_is_sequential (engine : Ffmpeg.Engine)
  (options : Batched.OptimizeVideosOptions.t) (videoFiles : list string)
  (fs : FileSystem) :
  Batched.concurrency_of options = 1 ->
  Batched.chunks_of (S (length videoFiles)) videoFiles (Batched.concurrency_of options)
  = Some (map (fun file => [file]) videoFiles)
  /\ forall b,
       Batched.reachable engine options
         (Batched.initial fs (map (fun file => [file]) videoFiles)) b ->
       Batched.completed b = true ->
       Batched.store b = snd (process_in_order engine options videoFiles fs).
Proof.
  intros Hone. split.
  - destruct (chunks_of_spec videoFiles (Batched.concurrency_of options) ltac:(lia))
      as (chunks & Hfuel & Hconcat & _ & Hsizes).
    rewrite (Hfuel (S (length videoFiles)) ltac:(lia)). f_equal.
    rewrite <- Hconcat. apply unit_chunks.
    intros g chunk Hchunk. apply Hsizes in Hchunk. lia.
  - intros b Hb Hdone.
    pose proof (batch_inv_reachable _ _ _ _ _ Hb) as Hinv.
    pose proof (one_at_a_time_reachable _ _ _ _ _ Hb) as Hinv1.
    unfold Batched.completed in Hdone.
    destruct (Batched.pending b) as [|c rest] eqn:Hp; [|discriminate Hdone].
    pose proof (inv_pending _ _ Hinv) as Hpending. rewrite Hp in Hpending.
    apply (f_equal (@length _)) in Hpending.
    rewrite length_drop, length_map in Hpending. simpl in Hpending.
    destruct (Batched.launched b) as [|g] eqn:Hg.
    + unfold one_at_a_time_inv in Hinv1. rewrite Hg in Hinv1.
      destruct videoFiles; [exact Hinv1 | simpl in Hpending; lia].
    + rewrite (one_at_a_time_fulfilled engine options videoFiles fs b g Hinv Hinv1 Hg Hdone).
      destruct (singles_running videoFiles b g Hinv Hg) as (u & _ & Hfile).
      apply lookup_lt_Some in Hfile.
      rewrite firstn_all2 by lia. reflexivity.
Qed.

Lemma concurrency_one_is_sequential_witness :
  Batched.concurrency_of one_at_a_time = 1
  /\ Batched.store
       (Batched.run_first sample_engine one_at_a_time 40
          (Batched.initial sample_store (map (fun file => [file]) three_files)))
     = snd (process_in_order sample_engine one_at_a_time three_files sample_store).
Proof.
  split; [reflexivity|].
  apply (concurrency_one_is_sequential sample_engine one_at_a_time three_files
           sample_store eq_refl).
  - apply run_first_reachable. apply Batched.reachable_refl.
  - vm_compute. reflexivity.
Defined.

(** * Examples *)

Example extname_examples :
  NodePath.extname "a.mp4" = ".mp4"
  /\ NodePath.extname "/out/sub.d/CLIP.MoV" = ".MoV"
  /\ NodePath.extname "x.tar.gz" = ".gz"
  /\ NodePath.extname ".bashrc" = ""
  /\ NodePath.extname "/out/a.b/c" = ""
  /\ NodePath.extname ".." = ""
  /\ NodePath.extname "a." = "."
  /\ NodePath.extname "/out/a.mp4/" = ".mp4"
  /\ NodePath.extname "a.mp4.tmp.mp4" = ".mp4".
Proof. repeat split; reflexivity. Qed.

(** The scenario of the specification: [/out/a.mp4], [/out/b.webm] and
    [/out/sub/c.gif], nothing excluded. *)
Example scan_scenario :
  findVideoFiles "/out"
    (Some [File "a.mp4"; File "b.webm"; Directory "sub" [File "c.gif"]]) []
  = ["/out/a.mp4"; "/out/b.webm"].
Proof. reflexivity. Qed.

(** Files are found at any depth and with an extension in any case; an
    entry that is not a regular file is skipped. *)
Example scan_nested :
  findVideoFiles "/out"
    (Some [Directory "a" [Directory "b" [File "deep.MOV"; Other "link.mp4"]];
           File "notes.txt"; File "top.avi"]) [".webm"]
  = ["/out/a/b/deep.MOV"; "/out/top.avi"].
Proof. reflexivity. Qed.

(** The scenario of the specification for [exclude = ["intro"]]; the name
    of a directory does not exclude the files in it. *)
Example exclude_scenario :
  isVideoFile "intro_clip.mp4" ["intro"] = false
  /\ isVideoFile "clip_intro_reversed.mp4" ["intro"] = false
  /\ isVideoFile "clip.mp4" ["intro"] = true
  /\ isVideoFile "Intro.mp4" ["intro"] = true
  /\ isVideoFile "clip.MP4" [".mp4"] = false
  /\ findVideoFiles "/out" (Some [Directory "intro" [File "clip.mp4"]]) ["intro"]
     = ["/out/intro/clip.mp4"].
Proof. repeat split; reflexivity. Qed.

(** An override that is defined wins even when it is 0 or false. *)
Example override_zero_and_false :
  let options :=
    {| Batched.OptimizeVideosOptions.exclude := None;
       Batched.OptimizeVideosOptions.quality := Some 23%Z;
       Batched.OptimizeVideosOptions.preset := Some "fast";
       Batched.OptimizeVideosOptions.mute := Some true;
       Batched.OptimizeVideosOptions.concurrency := None;
       Batched.OptimizeVideosOptions.dot_mp4 := None;
       Batched.OptimizeVideosOptions.dot_webm :=
         Some {| Batched.VideoFormatOptions.quality := Some 0%Z;
                 Batched.VideoFormatOptions.preset := None;
                 Batched.VideoFormatOptions.mute := Some false |};
       Batched.OptimizeVideosOptions.dot_mov := None;
       Batched.OptimizeVideosOptions.dot_avi := None |} in
  Batched.getVideoOptions ".webm" options
  = {| Batched.VideoOptions.quality := 0;
       Batched.VideoOptions.preset := "fast";
       Batched.VideoOptions.mute := false |}
  /\ Batched.getVideoOptions ".mp4" options
     = {| Batched.VideoOptions.quality := 23;
          Batched.VideoOptions.preset := "fast";
          Batched.VideoOptions.mute := true |}.
Proof. split; reflexivity. Qed.

(** The flags of [.mp4] in the three variants: the same tokens, in two
    orders. *)
Example mp4_flags :
  let opts :=
    {| Batched.VideoOptions.quality := 18;
       Batched.VideoOptions.preset := "medium";
       Batched.VideoOptions.mute := false |} in
  FormatConfig.options (Batched.getFormatConfig ".mp4" opts)
  = ["-crf"; "18"; "-preset"; "medium"; "-pix_fmt"; "yuv420p"; "-y";
     "-profile:v"; "high"; "-level"; "4.0"; "-movflags"; "+faststart"]
  /\ FormatConfig.options (DistSeq.getFormatConfig ".mp4" (to_DistSeq opts))
     = ["-crf"; "18"; "-preset"; "medium"; "-profile:v"; "high"; "-level"; "4.0";
        "-pix_fmt"; "yuv420p"; "-movflags"; "+faststart"; "-y"]
  /\ FormatConfig.options (VideoDir.getFormatConfig ".mp4" (to_VideoDir opts))
     = FormatConfig.options (DistSeq.getFormatConfig ".mp4" (to_DistSeq opts)).
Proof. repeat split; reflexivity. Qed.

(** Chunks of five candidates, and a concurrency of 0, for which the loop
    of [closeBundle] does not return. *)
Example chunks_examples :
  Batched.chunks_of 6 five_files 2
  = Some [["/out/a.mp4"; "/out/b.webm"]; ["/out/c.mov"; "/out/d.avi"]; ["/out/e.mp4"]]
  /\ Batched.chunks_of 6 five_files 4
     = Some [["/out/a.mp4"; "/out/b.webm"; "/out/c.mov"; "/out/d.avi"]; ["/out/e.mp4"]]
  /\ Batched.chunks_of 6 five_files 7 = Some [five_files]
  /\ Batched.chunks_of 6 [] 2 = Some []
  /\ Batched.chunks_of 1000 five_files 0 = None.
Proof. repeat split; reflexivity. Qed.

(** From the tree to the chunks: the default concurrency is 4, and a
    directory that does not exist gives no chunk. *)
Example closeBundle_chunks_examples :
  Batched.closeBundle_chunks 10 two_at_a_time "/out"
    (Some [File "a.mp4"; File "b.webm"; Directory "sub" [File "c.gif"; File "d.mov"]])
  = Some [["/out/a.mp4"; "/out/b.webm"]; ["/out/sub/d.mov"]]
  /\ Batched.closeBundle_chunks 10 no_options "/out"
       (Some [File "a.mp4"; File "b.webm"; Directory "sub" [File "c.gif"; File "d.mov"]])
     = Some [["/out/a.mp4"; "/out/b.webm"; "/out/sub/d.mov"]]
  /\ Batched.closeBundle_chunks 10 two_at_a_time "/out" None = Some [].
Proof. repeat split; reflexivity. Qed.

(** A run on [sample_store] with two files at a time: the transcode of
    [/out/b.webm] fails, its temporary file is removed, and [/out/a.mp4]
    of the same chunk and [/out/c.mov] of the next one are replaced; the
    lines on the console. *)
Example run_with_a_failure :
  let final :=
    Batched.run_first sample_engine two_at_a_time 40
      (Batched.initial sample_store [["/out/a.mp4"; "/out/b.webm"]; ["/out/c.mov"]]) in
  Batched.trace final
  = [Batched.Started 0 0; Batched.Started 0 1;
     Batched.Finished 0 0
       (Ok (Batched.Done {| originalSize := 10; optimizedSize := 5 |}));
     Batched.Finished 0 1 (Ok (Batched.Failed "Conversion failed!"));
     Batched.Started 1 0;
     Batched.Finished 1 0
       (Ok (Batched.Done {| originalSize := 10; optimizedSize := 5 |}))]
  /\ Batched.completed final = true
  /\ Batched.store final !! "/out/a.mp4" = Some "small"
  /\ Batched.store final !! "/out/b.webm" = Some "original b"
  /\ Batched.store final !! "/out/c.mov" = Some "small"
  /\ Batched.store final !! "/out/a.mp4.tmp.mp4" = None
  /\ Batched.store final !! "/out/b.webm.tmp.webm" = None
  /\ Batched.store final !! "/out/c.mov.tmp.mov" = None
  /\ console (Batched.store final)
     = [Optimizing "a.mp4"; Optimizing "b.webm";
        Optimized "a.mp4" {| originalSize := 10; optimizedSize := 5 |};
        ErrorOptimizing "b.webm" "Conversion failed!";
        Optimizing "c.mov";
        Optimized "c.mov" {| originalSize := 10; optimizedSize := 5 |}].
Proof. repeat split; vm_compute; reflexivity. Qed.

(** The same files one by one with the sequential loop, on a system that
    refuses the removal of the temporary file of [/out/b.webm]: the loop
    is rejected in the [catch] block of the second file, the partial
    output stays, and [/out/c.mov] is not processed. *)
Example sequential_run_stopped :
  let '(result, final) :=
    DistSeq.closeBundle_loop sample_engine no_options_DistSeq three_files
      guarded_store in
  result = Err "EPERM: operation not permitted"
  /\ final !! "/out/a.mp4" = Some "small"
  /\ final !! "/out/b.webm" = Some "original b"
  /\ final !! "/out/b.webm.tmp.webm" = Some "part"
  /\ final !! "/out/c.mov" = Some "original c"
  /\ console final
     = [Optimizing "a.mp4";
        Optimized "a.mp4" {| originalSize := 10; optimizedSize := 5 |};
        Optimizing "b.webm";
        ErrorOptimizing "b.webm" "Conversion failed!"].
Proof. vm_compute. repeat split; reflexivity. Qed.
